(** * verify_metrics: a shallow embedding of scripts/verify_metrics.py

    The script is a pipeline of lexical heuristics over the text of a Dart
    file: [remove_comments] (a regular-expression substitution),
    [count_file_loc], [calculate_complexity] (regular-expression counting),
    [analyze_functions] (a brace-depth state machine over the lines) and the
    per-file part of [main].

    Text is a list of 8-bit characters, standing for the code points 0..255
    of a Python [str].  The regular expressions of the script are kept as
    syntax trees and run by a backtracking matcher with the priorities of
    Python's [re] module (ordered alternation, greedy and lazy repetition,
    capture groups, [^], [$], [\b]). *)

From Stdlib Require Import String Ascii DecimalString.
From Stdlib Require Import List ZArith Lia Bool Arith PeanoNat Sorted.
Import ListNotations.

Set Implicit Arguments.

(** ** Text *)

Definition text := list ascii.

Definition T (s : string) : text := list_ascii_of_string s.
Arguments T s%_string.

Definition newline : ascii := "010"%char.
Definition backslash : ascii := "\"%char.
Definition squote : ascii := "'"%char.
Definition dquote : ascii := "034"%char.
Definition slash : ascii := "/"%char.
Definition star : ascii := "*"%char.
Definition space : ascii := " "%char.

Definition text_eqb (a b : text) : bool :=
  if list_eq_dec ascii_dec a b then true else false.

(** Python's [str.isspace] on the code points below 256; [str.strip] and the
    class [\s] of a [str] pattern use the same set. *)
Definition is_space (c : ascii) : bool :=
  let n := nat_of_ascii c in
  ((9 <=? n) && (n <=? 13)) || ((28 <=? n) && (n <=? 32))
  || (n =? 133) || (n =? 160).

(** The class [\w] of a [str] pattern on the code points below 256:
    alphanumeric (letters, digits and the numeric characters of Latin-1) or
    the underscore. *)
Definition is_word (c : ascii) : bool :=
  let n := nat_of_ascii c in
  ((48 <=? n) && (n <=? 57)) || ((65 <=? n) && (n <=? 90))
  || ((97 <=? n) && (n <=? 122)) || (n =? 95)
  || (n =? 170) || (n =? 178) || (n =? 179) || (n =? 181)
  || (n =? 185) || (n =? 186) || ((188 <=? n) && (n <=? 190))
  || ((192 <=? n) && (n <=? 214)) || ((216 <=? n) && (n <=? 246))
  || (248 <=? n).

(** [str.split('\n')] *)
Fixpoint split_lines (s : text) : list text :=
  match s with
  | [] => [[]]
  | c :: t =>
      if Ascii.eqb c newline then [] :: split_lines t
      else match split_lines t with
           | l :: ls => (c :: l) :: ls
           | [] => [[c]]
           end
  end.

(** ["\n".join(lines)] *)
Fixpoint join_lines (ls : list text) : text :=
  match ls with
  | [] => []
  | [l] => l
  | l :: ls' => l ++ newline :: join_lines ls'
  end.

(** [str.lstrip()], [str.rstrip()] and [str.strip()] *)
Fixpoint lstrip (s : text) : text :=
  match s with
  | c :: t => if is_space c then lstrip t else s
  | [] => []
  end.

Definition rstrip (s : text) : text := rev (lstrip (rev s)).

Definition strip (s : text) : text := rstrip (lstrip s).

(** Truth value of a [str]: non-empty. *)
Definition truthy (s : text) : bool :=
  match s with [] => false | _ :: _ => true end.

(** [str.count(c)] for a one-character [c] *)
Definition count_char (c : ascii) (s : text) : nat :=
  length (filter (Ascii.eqb c) s).

(** [str.startswith(c)] for a one-character [c] *)
Definition startswith_char (c : ascii) (s : text) : bool :=
  match s with a :: _ => Ascii.eqb a c | [] => false end.

(** [str(n)] for a non-negative [int] *)
Definition str_of_nat (n : nat) : text :=
  T (NilEmpty.string_of_uint (Nat.to_uint n)).

(** ** Regular expressions

    The fragment of Python's [re] syntax the script uses. [Chr p] is any
    one-character item (a literal, [.], a class); the flags [re.DOTALL] and
    [re.MULTILINE] are resolved when the pattern is written down:
    [any_char] or [not_newline] for [.], and the flag of [Bol] and [Eol]. *)

Inductive regex : Type :=
| Eps
| Chr (p : ascii -> bool)
| Seq (r1 r2 : regex)
| Alt (r1 r2 : regex)
| Star (greedy : bool) (r : regex)
| Group (n : nat) (r : regex)
| Bol (multiline : bool)
| Eol (multiline : bool)
| WordB.

Definition any_char (c : ascii) : bool := true.
Definition not_newline (c : ascii) : bool := negb (Ascii.eqb c newline).
Definition is_char (a : ascii) (c : ascii) : bool := Ascii.eqb c a.

Fixpoint lit (s : text) : regex :=
  match s with
  | [] => Eps
  | c :: t => Seq (Chr (is_char c)) (lit t)
  end.

Fixpoint seqs (rs : list regex) : regex :=
  match rs with
  | [] => Eps
  | [r] => r
  | r :: rs' => Seq r (seqs rs')
  end.

Fixpoint alts (r : regex) (rs : list regex) : regex :=
  match rs with
  | [] => r
  | r' :: rs' => Alt r (alts r' rs')
  end.

Definition Plus (r : regex) : regex := Seq r (Star true r).
Definition Opt (r : regex) : regex := Alt r Eps.

(** A position of the matcher inside the subject: the character before it
    (none at the start), the text from it on, its index, and the groups
    captured so far, the latest first. *)
Record mstate : Type := MState {
  before : option ascii;
  rest : text;
  pos : nat;
  groups : list (nat * text)
}.

Definition start_state (s : text) : mstate := MState None s 0 [].

Definition advance (a : ascii) (t : text) (st : mstate) : mstate :=
  MState (Some a) t (S (pos st)) (groups st).

Definition capture (n : nat) (st st' : mstate) : mstate :=
  MState (before st') (rest st') (pos st')
         ((n, firstn (pos st' - pos st) (rest st)) :: groups st').

Definition at_bol (multiline : bool) (st : mstate) : bool :=
  match before st with
  | None => true
  | Some c => multiline && Ascii.eqb c newline
  end.

(** Without [re.MULTILINE], [$] matches at the end and before a final
    newline; with it, at the end and before every newline. *)
Definition at_eol (multiline : bool) (st : mstate) : bool :=
  match rest st with
  | [] => true
  | c :: t =>
      Ascii.eqb c newline
      && (multiline || match t with [] => true | _ => false end)
  end.

Definition word_before (st : mstate) : bool :=
  match before st with Some c => is_word c | None => false end.

Definition word_after (st : mstate) : bool :=
  match rest st with c :: _ => is_word c | [] => false end.

Definition at_word_boundary (st : mstate) : bool :=
  xorb (word_before st) (word_after st).

(** The backtracking matcher, in continuation-passing style: [rmatch r k st]
    tries the ways [r] matches from [st] in the engine's order of priority
    and returns the first for which the continuation [k] succeeds.  A
    repetition runs at most once per remaining character, each round having
    to consume something. *)
Fixpoint rmatch (A : Type) (r : regex) (k : mstate -> option A)
         (st : mstate) {struct r} : option A :=
  match r with
  | Eps => k st
  | Chr p =>
      match rest st with
      | a :: t => if p a then k (advance a t st) else None
      | [] => None
      end
  | Seq r1 r2 => rmatch r1 (rmatch r2 k) st
  | Alt r1 r2 =>
      match rmatch r1 k st with
      | Some x => Some x
      | None => rmatch r2 k st
      end
  | Star greedy r1 =>
      (fix loop (fuel : nat) (st : mstate) {struct fuel} : option A :=
         match fuel with
         | 0 => k st
         | S fuel' =>
             let round st' :=
               if pos st <? pos st' then loop fuel' st' else None in
             if greedy then
               match rmatch r1 round st with
               | Some x => Some x
               | None => k st
               end
             else
               match k st with
               | Some x => Some x
               | None => rmatch r1 round st
               end
         end) (length (rest st)) st
  | Group n r1 => rmatch r1 (fun st' => k (capture n st st')) st
  | Bol m => if at_bol m st then k st else None
  | Eol m => if at_eol m st then k st else None
  | WordB => if at_word_boundary st then k st else None
  end.

(** A match object: [group(0)] and the numbered groups. *)
Record rematch : Type := ReMatch {
  group0 : text;
  mgroups : list (nat * text)
}.

Fixpoint assoc (n : nat) (l : list (nat * text)) : option text :=
  match l with
  | [] => None
  | (m, v) :: l' => if n =? m then Some v else assoc n l'
  end.

(** [m.group(n)]: [None] when the group took no part in the match. *)
Definition group (n : nat) (m : rematch) : option text := assoc n (mgroups m).

(** One attempt at one position, as [pattern.match] at that position. *)
Definition match_here (r : regex) (st : mstate) : option rematch :=
  match rmatch r (fun e => Some e) st with
  | Some e => Some (ReMatch (firstn (pos e - pos st) (rest st)) (groups e))
  | None => None
  end.

(** [pattern.search(s)]: the match at the first position that has one. *)
Fixpoint search_from (r : regex) (b : option ascii) (p : nat) (s : text)
  : option rematch :=
  match match_here r (MState b s p []) with
  | Some m => Some m
  | None =>
      match s with
      | [] => None
      | a :: t => search_from r (Some a) (S p) t
      end
  end.

Definition re_search (r : regex) (s : text) : option rematch :=
  search_from r None 0 s.

(** The leftmost non-overlapping matches of a pattern, as [re.sub] and
    [re.findall] walk them: the subject cut into matches and the characters
    between them.  [skip] counts the characters still inside the last match.
    After an empty match the scan moves on by one character. *)
Inductive segment : Type :=
| Plain (c : ascii)
| Matched (m : rematch).

Fixpoint scan (r : regex) (b : option ascii) (p : nat) (s : text)
         (skip : nat) {struct s} : list segment :=
  match skip with
  | S n =>
      match s with
      | [] => []
      | a :: t => scan r (Some a) (S p) t n
      end
  | 0 =>
      match match_here r (MState b s p []) with
      | Some m =>
          Matched m ::
          match s with
          | [] => []
          | a :: t =>
              match length (group0 m) with
              | 0 => Plain a :: scan r (Some a) (S p) t 0
              | S n => scan r (Some a) (S p) t n
              end
          end
      | None =>
          match s with
          | [] => []
          | a :: t => Plain a :: scan r (Some a) (S p) t 0
          end
      end
  end.

Definition segments (r : regex) (s : text) : list segment :=
  scan r None 0 s 0.

(** [re.sub(pattern, repl, s)] with a function [repl] *)
Definition re_sub (r : regex) (repl : rematch -> text) (s : text) : text :=
  flat_map (fun g => match g with Plain c => [c] | Matched m => repl m end)
           (segments r s).

Definition is_matched (g : segment) : bool :=
  match g with Matched _ => true | Plain _ => false end.

(** [len(re.findall(pattern, s))] *)
Definition findall_count (r : regex) (s : text) : nat :=
  length (filter is_matched (segments r s)).

(** ** The script *)

(** Thresholds *)
Definition MAX_FILE_LOC : nat := 500.
Definition MAX_FUNC_LOC : nat := 50.
Definition MAX_COMPLEXITY : nat := 10.

(** *** remove_comments *)

(** [//.*?$] under [re.DOTALL | re.MULTILINE] *)
Definition line_comment : regex :=
  seqs [lit (T "//"); Star false (Chr any_char); Eol true].

(** [/\*.*?\*/] under [re.DOTALL] *)
Definition block_comment : regex :=
  seqs [lit (T "/*"); Star false (Chr any_char); lit (T "*/")].

(** [q(?:\\.|[^\\q])*q] for a quote character [q]; [dot] is the meaning of
    [.] under the flags of the pattern. *)
Definition literal_item (dot : ascii -> bool) (q : ascii) : regex :=
  Alt (Seq (Chr (is_char backslash)) (Chr dot))
      (Chr (fun c => negb (Ascii.eqb c backslash || Ascii.eqb c q))).

Definition literal (dot : ascii -> bool) (q : ascii) : regex :=
  seqs [Chr (is_char q); Star true (literal_item dot q); Chr (is_char q)].

Definition comment_pattern : regex :=
  alts line_comment
       [block_comment; literal any_char squote; literal any_char dquote].

Definition replacer (m : rematch) : text :=
  let s := group0 m in
  if startswith_char slash s then [space] else s.

Definition remove_comments (txt : text) : text :=
  re_sub comment_pattern replacer txt.

(** *** count_file_loc *)

Definition count_file_loc (txt : text) : nat :=
  let lines := split_lines txt in
  fold_left (fun count line => if truthy (strip line) then count + 1 else count)
            lines 0.

(** *** calculate_complexity *)

Definition word_pattern (w : text) : regex := seqs [WordB; lit w; WordB].

Definition keywords : list regex :=
  [word_pattern (T "if"); word_pattern (T "else if"); word_pattern (T "for");
   word_pattern (T "while"); word_pattern (T "do"); word_pattern (T "case");
   word_pattern (T "catch")].

Definition operators : list regex :=
  [lit (T "&&"); lit (T "||"); lit (T "?")].

Definition calculate_complexity (txt : text) : nat :=
  let score := 1 in
  let score :=
    fold_left (fun score kw => score + findall_count kw txt) keywords score in
  let score :=
    fold_left (fun score op => score + findall_count op txt) operators score in
  score.

(** *** get_indentation *)

Definition get_indentation (line : text) : nat :=
  length line - length (lstrip line).

(** *** analyze_functions *)

(** The class of the type token of [func_def_pattern]: a word character,
    an angle bracket or a question mark. *)
Definition type_char (c : ascii) : bool :=
  is_word c || Ascii.eqb c "<"%char || Ascii.eqb c ">"%char
  || Ascii.eqb c "?"%char.

(** [func_def_pattern], compiled without flags: the start of the line and
    blanks; optionally (group 1) a type token (group 2) and blanks; the name
    (group 3), one or more word characters; blanks; a parenthesis, lazily
    anything but a newline, a closing parenthesis; blanks; optionally
    (group 4) [async] and blanks; an opening brace. *)
Definition func_def_pattern : regex :=
  seqs [Bol false;
        Star true (Chr is_space);
        Opt (Group 1 (Seq (Group 2 (Plus (Chr type_char)))
                          (Plus (Chr is_space))));
        Group 3 (Plus (Chr is_word));
        Star true (Chr is_space);
        Chr (is_char "("%char);
        Star false (Chr not_newline);
        Chr (is_char ")"%char);
        Star true (Chr is_space);
        Opt (Group 4 (Seq (lit (T "async")) (Star true (Chr is_space))));
        Chr (is_char "{"%char)].

Definition control_keywords : list text :=
  [T "if"; T "for"; T "while"; T "switch"; T "catch"; T "do"].

(** [name not in control_keywords]; a group that is [None] is in no list of
    strings. *)
Definition in_keywords (name : option text) : bool :=
  match name with
  | Some n => existsb (text_eqb n) control_keywords
  | None => false
  end.

(** A value inside an f-string: a [str] as it is, [None] as its name. *)
Definition fmt_name (name : option text) : text :=
  match name with Some n => n | None => T "None" end.

(** The string masks: ['(?:\\.|[^\\\'])*'] to [''], then the same for the
    double quote; no flags, so [.] stops at a newline. *)
Definition mask_strings (line : text) : text :=
  let line_no_strings :=
    re_sub (literal not_newline squote) (fun _ => [squote; squote]) line in
  re_sub (literal not_newline dquote) (fun _ => [dquote; dquote])
         line_no_strings.

Definition open_count (line : text) : nat :=
  count_char "{"%char (mask_strings line).

Definition close_count (line : text) : nat :=
  count_char "}"%char (mask_strings line).

(** The variables of the loop. *)
Record fstate : Type := FState {
  brace_balance : Z;
  in_function : bool;
  func_start_line : nat;
  func_content : list text;
  func_name : option text;
  violations : list text
}.

Definition init_fstate : fstate :=
  FState 0 false 0 [] (Some (T "unknown")) [].

Definition loc_message (name : option text) (start loc : nat) : text :=
  T "  - Function '" ++ fmt_name name ++ T "' (line "
    ++ str_of_nat (start + 1) ++ T "): LOC " ++ str_of_nat loc ++ T " > "
    ++ str_of_nat MAX_FUNC_LOC.

Definition complexity_message (name : option text) (start cx : nat) : text :=
  T "  - Function '" ++ fmt_name name ++ T "' (line "
    ++ str_of_nat (start + 1) ++ T "): Complexity " ++ str_of_nat cx
    ++ T " > " ++ str_of_nat MAX_COMPLEXITY.

Definition content_loc (content : list text) : nat :=
  fold_left (fun loc fl => if truthy (strip fl) then loc + 1 else loc)
            content 0.

(** The body of [if brace_balance == 0]: the function ended, measure it and
    append its violations. *)
Definition function_ended (name : option text) (start : nat)
           (content : list text) (vs : list text) : list text :=
  let func_text := join_lines content in
  let loc := content_loc content in
  let complexity := calculate_complexity func_text in
  let vs :=
    if MAX_FUNC_LOC <? loc then vs ++ [loc_message name start loc] else vs in
  let vs :=
    if MAX_COMPLEXITY <? complexity
    then vs ++ [complexity_message name start complexity] else vs in
  vs.

(** The first [if] of the loop body: outside a function, a line that opens
    more braces than it closes and matches [func_def_pattern] with a name
    that is no control keyword starts one. *)
Definition enter (i : nat) (line : text) (st : fstate) : fstate :=
  let line_no_strings := mask_strings line in
  let open_braces := count_char "{"%char line_no_strings in
  let close_braces := count_char "}"%char line_no_strings in
  if negb (in_function st) then
    if close_braces <? open_braces then
      match re_search func_def_pattern line_no_strings with
      | Some m =>
          let name := group 3 m in
          if negb (in_keywords name)
          then FState 0 true i [] name (violations st)
          else st
      | None => st
      end
    else st
  else st.

(** The second [if] of the loop body: inside a function, the line joins the
    content and moves the balance; at balance zero the function ends. *)
Definition consume (line : text) (st : fstate) : fstate :=
  let line_no_strings := mask_strings line in
  let open_braces := count_char "{"%char line_no_strings in
  let close_braces := count_char "}"%char line_no_strings in
  if in_function st then
    let content := func_content st ++ [line] in
    let balance :=
      (brace_balance st + Z.of_nat open_braces - Z.of_nat close_braces)%Z in
    if (balance =? 0)%Z then
      FState balance false (func_start_line st) content (func_name st)
             (function_ended (func_name st) (func_start_line st) content
                             (violations st))
    else
      FState balance true (func_start_line st) content (func_name st)
             (violations st)
  else st.

(** One round of [for i, line in enumerate(lines)]; [clean_line], which the
    script computes and never uses, is left out. *)
Definition step (i : nat) (line : text) (st : fstate) : fstate :=
  consume line (enter i line st).

Fixpoint run (i : nat) (lines : list text) (st : fstate) : fstate :=
  match lines with
  | [] => st
  | line :: lines' => run (S i) lines' (step i line st)
  end.

Definition final_state (txt : text) : fstate :=
  run 0 (split_lines txt) init_fstate.

Definition analyze_functions (txt : text) (filename : text) : list text :=
  violations (final_state txt).

(** *** main, for one file *)

Definition file_loc_message (file_loc : nat) : text :=
  T "  - File LOC " ++ str_of_nat file_loc ++ T " > " ++ str_of_nat MAX_FILE_LOC.

(** [file_violations] as it stands when the file has been analyzed. *)
Definition file_violations (filepath content : text) : list text :=
  let content_no_comments := remove_comments content in
  let file_loc := count_file_loc content_no_comments in
  let file_violations := [] in
  let file_violations :=
    if MAX_FILE_LOC <? file_loc
    then file_violations ++ [file_loc_message file_loc]
    else file_violations in
  let func_violations := analyze_functions content_no_comments filepath in
  file_violations ++ func_violations.

(** What [main] prints for the file. *)
Definition file_output (filepath content : text) : list text :=
  let vs := file_violations filepath content in
  match vs with
  | [] => []
  | _ :: _ => (T "VIOLATION: " ++ filepath) :: vs
  end.

(** ** Function regions

    The script keeps no record of the functions it finds; a region is what
    the loop holds when a function ends: its name, the index of its first
    line and its lines. *)

Record region : Type := Region {
  r_name : option text;
  r_start : nat;
  r_content : list text
}.

Definition region_of (st : fstate) : region :=
  Region (func_name st) (func_start_line st) (func_content st).

(** The round ends a function: it was inside one after the first [if] and
    is outside after the second. *)
Definition completes (i : nat) (line : text) (st : fstate) : bool :=
  in_function (enter i line st) && negb (in_function (step i line st)).

Fixpoint regions_from (i : nat) (lines : list text) (st : fstate)
  : list region :=
  match lines with
  | [] => []
  | line :: lines' =>
      (if completes i line st then [region_of (step i line st)] else [])
      ++ regions_from (S i) lines' (step i line st)
  end.

Definition regions (txt : text) : list region :=
  regions_from 0 (split_lines txt) init_fstate.

Definition region_loc (r : region) : nat := content_loc (r_content r).

Definition region_complexity (r : region) : nat :=
  calculate_complexity (join_lines (r_content r)).

(** The violation lines of one region, as [function_ended] appends them. *)
Definition region_violations (r : region) : list text :=
  (if MAX_FUNC_LOC <? region_loc r
   then [loc_message (r_name r) (r_start r) (region_loc r)] else [])
  ++ (if MAX_COMPLEXITY <? region_complexity r
      then [complexity_message (r_name r) (r_start r) (region_complexity r)]
      else []).

(** ** The matcher, seen from the proofs *)

(** The repetition loop of [rmatch], named. *)
Fixpoint star_loop (A : Type) (greedy : bool) (r1 : regex)
         (k : mstate -> option A) (fuel : nat) (st : mstate) : option A :=
  match fuel with
  | 0 => k st
  | S fuel' =>
      let round st' :=
        if pos st <? pos st' then star_loop greedy r1 k fuel' st' else None in
      if greedy then
        match rmatch r1 round st with
        | Some x => Some x
        | None => k st
        end
      else
        match k st with
        | Some x => Some x
        | None => rmatch r1 round st
        end
  end.

(** [forward n st]: the position [n] characters after [st]. *)
Fixpoint forward (n : nat) (st : mstate) : mstate :=
  match n with
  | 0 => st
  | S n' =>
      match rest st with
      | a :: t => forward n' (advance a t st)
      | [] => st
      end
  end.

(** A lazy repetition of [.] under [re.DOTALL]: the first position, from
    here on, where the continuation succeeds. *)
Fixpoint lazy_first (A : Type) (k : mstate -> option A) (s : text)
         (st : mstate) : option A :=
  match k st with
  | Some x => Some x
  | None =>
      match s with
      | [] => None
      | a :: t => lazy_first k t (advance a t st)
      end
  end.

(** The matches of a pattern between two positions, without the order in
    which the matcher tries them. *)
Inductive matches : regex -> mstate -> mstate -> Prop :=
| m_eps st : matches Eps st st
| m_chr p a t st :
    rest st = a :: t -> p a = true -> matches (Chr p) st (advance a t st)
| m_seq r1 r2 st st1 st2 :
    matches r1 st st1 -> matches r2 st1 st2 -> matches (Seq r1 r2) st st2
| m_alt_l r1 r2 st st1 : matches r1 st st1 -> matches (Alt r1 r2) st st1
| m_alt_r r1 r2 st st2 : matches r2 st st2 -> matches (Alt r1 r2) st st2
| m_star_nil g r st : matches (Star g r) st st
| m_star_cons g r st st1 st2 :
    matches r st st1 -> matches (Star g r) st1 st2 ->
    matches (Star g r) st st2
| m_group n r st st1 :
    matches r st st1 -> matches (Group n r) st (capture n st st1)
| m_bol m st : at_bol m st = true -> matches (Bol m) st st
| m_eol m st : at_eol m st = true -> matches (Eol m) st st
| m_wordb st : at_word_boundary st = true -> matches WordB st st.

(** Whether a pattern holds the group [n]. *)
Fixpoint has_group (n : nat) (r : regex) : bool :=
  match r with
  | Seq r1 r2 | Alt r1 r2 => has_group n r1 || has_group n r2
  | Star _ r1 => has_group n r1
  | Group m r1 => (n =? m) || has_group n r1
  | _ => false
  end.

(** A position of the matcher lies inside the subject [line]. *)
Definition inside (line : text) (st : mstate) : Prop :=
  rest st = skipn (pos st) line /\ pos st <= length line.

(** The characters of [line] from [i] to [j] are all of the class [p]. *)
Definition span (p : ascii -> bool) (line : text) (i j : nat) : Prop :=
  i <= j
  /\ forall x, i <= x < j ->
               exists ch, nth_error line x = Some ch /\ p ch = true.

(** ** The patterns of the script, read off the text *)

(** Characters before the first newline. *)
Fixpoint line_len (s : text) : nat :=
  match s with
  | [] => 0
  | c :: t => if Ascii.eqb c newline then 0 else S (line_len t)
  end.

(** Characters up to the end of the first [*/], if there is one. *)
Fixpoint find_close (s : text) : option nat :=
  match s with
  | [] => None
  | c :: t =>
      if Ascii.eqb c star && startswith_char slash t then Some 2
      else option_map S (find_close t)
  end.

(** Characters of a literal after its opening quote, up to the closing
    quote: a backslash escapes the next character, the first bare quote
    closes.  [esc] says that the character before was an escaping
    backslash. *)
Fixpoint lit_scan (dot : ascii -> bool) (q : ascii) (esc : bool) (s : text)
  : option nat :=
  match s with
  | [] => None
  | c :: t =>
      if esc then
        if dot c then option_map S (lit_scan dot q false t) else None
      else if Ascii.eqb c backslash then option_map S (lit_scan dot q true t)
      else if Ascii.eqb c q then Some 1
      else option_map S (lit_scan dot q false t)
  end.

Definition literal_len (dot : ascii -> bool) (q : ascii) (s : text)
  : option nat :=
  match s with
  | c :: t =>
      if Ascii.eqb c q then option_map S (lit_scan dot q false t) else None
  | [] => None
  end.

Definition token_len (s : text) : option nat :=
  match s with
  | c :: t =>
      if Ascii.eqb c slash then
        match t with
        | d :: t' =>
            if Ascii.eqb d slash then Some (2 + line_len t')
            else if Ascii.eqb d star
                 then option_map (fun n => 2 + n) (find_close t')
                 else None
        | [] => None
        end
      else if Ascii.eqb c squote then literal_len any_char squote s
      else literal_len any_char dquote s
  | [] => None
  end.

(** The literal automaton of [lit_scan] run over a piece of text: it finds
    the closing quote inside the piece, or fails there, or reaches the end
    of the piece with or without a pending escape. *)
Inductive chunk_result : Type :=
| Closed (n : nat)
| Failed
| Open (esc : bool).

Definition bump (r : chunk_result) : chunk_result :=
  match r with
  | Closed n => Closed (S n)
  | other => other
  end.

Fixpoint lit_chunk (dot : ascii -> bool) (q : ascii) (esc : bool) (a : text)
  : chunk_result :=
  match a with
  | [] => Open esc
  | c :: t =>
      if esc then
        if dot c then bump (lit_chunk dot q false t) else Failed
      else if Ascii.eqb c backslash then bump (lit_chunk dot q true t)
      else if Ascii.eqb c q then Closed 1
      else bump (lit_chunk dot q false t)
  end.

(** One of the two substitutions of [mask_strings]: the literals of the
    quote [q] are replaced by two quotes. *)
Definition mask1 (q : ascii) (s : text) : text :=
  re_sub (literal not_newline q) (fun _ => [q; q]) s.

(** [s.startswith(p)] *)
Fixpoint starts_with (p s : text) : bool :=
  match p, s with
  | [], _ => true
  | a :: p', b :: s' => Ascii.eqb a b && starts_with p' s'
  | _ :: _, [] => false
  end.

(** Whether [\b w \b] matches at a position, read off the character
    before it and the text from it on. *)
Definition word_opt (b : option ascii) : bool :=
  match b with Some c => is_word c | None => false end.

Definition head_word (s : text) : bool :=
  match s with c :: _ => is_word c | [] => false end.

Definition last_opt (w : text) (b : option ascii) : option ascii :=
  match rev w with c :: _ => Some c | [] => b end.

Definition word_at (w : text) (b : option ascii) (s : text) : bool :=
  xorb (word_opt b) (head_word s)
  && starts_with w s
  && xorb (word_opt (last_opt w b)) (head_word (skipn (length w) s)).

(** The number of matches [re.findall] finds for [\b w \b], with the
    character before and the characters still to skip. *)
Fixpoint wcount (w : text) (b : option ascii) (s : text) (skip : nat)
  : nat :=
  match skip with
  | S n =>
      match s with
      | [] => 0
      | a :: t => wcount w (Some a) t n
      end
  | 0 =>
      if word_at w b s then
        S match s with
          | [] => 0
          | a :: t => wcount w (Some a) t (length w - 1)
          end
      else
        match s with
        | [] => 0
        | a :: t => wcount w (Some a) t 0
        end
  end.

(** A line headed by a control keyword: blanks, optionally one token of
    type characters (as [else] or [await]) and blanks, the keyword, blanks,
    and an opening parenthesis. *)
Definition keyword_headed (s : text) : Prop :=
  exists ws pre kw ws' tail,
    s = ws ++ pre ++ kw ++ ws' ++ "("%char :: tail
    /\ forallb is_space ws = true
    /\ (pre = []
        \/ exists tok ws1,
             pre = tok ++ ws1
             /\ tok <> [] /\ forallb type_char tok = true
             /\ ws1 <> [] /\ forallb is_space ws1 = true)
    /\ In kw control_keywords
    /\ forallb is_space ws' = true.

(** ** The pieces of a sanitized text *)

(** What [remove_comments] cuts its input into: the matches of
    [comment_pattern], told apart by their first characters, and the
    characters in between. *)
Inductive piece : Type :=
| Other (c : ascii)
| LineComment (t : text)
| BlockComment (t : text)
| Literal (t : text).

Definition classify (g : segment) : piece :=
  match g with
  | Plain c => Other c
  | Matched m =>
      let s := group0 m in
      if startswith_char slash s then
        if startswith_char slash (tl s) then LineComment s else BlockComment s
      else Literal s
  end.

Definition pieces (txt : text) : list piece :=
  map classify (segments comment_pattern txt).

(** The text a piece stands for, and what [replacer] leaves of it. *)
Definition piece_src (p : piece) : text :=
  match p with
  | Other c => [c]
  | LineComment t | BlockComment t | Literal t => t
  end.

Definition piece_out (p : piece) : text :=
  match p with
  | Other c => [c]
  | LineComment _ | BlockComment _ => [space]
  | Literal t => t
  end.

(** Newlines inside the block comments of a list of pieces. *)
Definition block_newlines (p : piece) : nat :=
  match p with
  | BlockComment t => count_char newline t
  | _ => 0
  end.

(** [len(s.split('\n'))] *)
Definition line_count (s : text) : nat := length (split_lines s).

(** The violation lines about the size of the file, told by their text. *)
Definition is_file_loc_line (v : text) : bool :=
  starts_with (T "  - File LOC ") v.

(** ** main

    The driver, with the file system as a parameter: what [os.walk] yields
    for a root (each directory with the names of its files) and what
    opening and reading a path gives. *)

(** [s.endswith(p)] *)
Definition ends_with (p s : text) : bool := starts_with (rev p) (rev s).

(** [os.path.join(root, file)], as [posixpath] has it *)
Definition path_join (root file : text) : text :=
  if startswith_char slash file then file
  else if match root with [] => true | _ :: _ => ends_with [slash] root end
       then root ++ file
       else root ++ slash :: file.

(** The text of a file, or the exception that reading it raised, as the
    message it prints. *)
Inductive read_result : Type :=
| Content (c : text)
| ReadError (msg : text).

Record filesystem : Type := FileSystem {
  walk : text -> list (text * list text);
  read : text -> read_result
}.

(** [root_dir]: [sys.argv[1]] when there is one, else [lib]. *)
Definition root_dir_of (argv : list text) : text :=
  match argv with
  | _ :: dir :: _ => dir
  | _ => T "lib"
  end.

(** The body of [if file.endswith('.dart')]: the lines printed for the
    file and the new value of [has_violations]. *)
Definition process_file (fs : filesystem) (root file : text)
           (has_violations : bool) : list text * bool :=
  let filepath := path_join root file in
  match read fs filepath with
  | Content content =>
      match file_violations filepath content with
      | [] => ([], has_violations)
      | v :: vs => ((T "VIOLATION: " ++ filepath) :: v :: vs, true)
      end
  | ReadError e =>
      ([T "Error processing " ++ filepath ++ T ": " ++ e], has_violations)
  end.

(** [for file in files] *)
Fixpoint process_files (fs : filesystem) (root : text) (files : list text)
         (out : list text) (has_violations : bool) : list text * bool :=
  match files with
  | [] => (out, has_violations)
  | file :: files' =>
      if ends_with (T ".dart") file then
        let (lines, has) := process_file fs root file has_violations in
        process_files fs root files' (out ++ lines) has
      else process_files fs root files' out has_violations
  end.

(** [for root, dirs, files in os.walk(root_dir)] *)
Fixpoint process_dirs (fs : filesystem) (dirs : list (text * list text))
         (out : list text) (has_violations : bool) : list text * bool :=
  match dirs with
  | [] => (out, has_violations)
  | (root, files) :: dirs' =>
      let (out', has) := process_files fs root files out has_violations in
      process_dirs fs dirs' out' has
  end.

(** [main]: the lines printed and the exit status. *)
Definition main (argv : list text) (fs : filesystem) : list text * nat :=
  let root_dir := root_dir_of argv in
  let banner := T "Analyzing Dart files in " ++ root_dir ++ T "..." in
  let (out, has_violations) :=
    process_dirs fs (walk fs root_dir) [banner] false in
  if has_violations then (out, 1)
  else (out ++ [T "No violations found."], 0).

(** The paths [main] analyzes, in the order of the walk. *)
Definition dart_paths (fs : filesystem) (root_dir : text) : list text :=
  flat_map (fun d => map (path_join (fst d))
                         (filter (ends_with (T ".dart")) (snd d)))
           (walk fs root_dir).

(** What [main] prints for one path. *)
Definition file_report (fs : filesystem) (filepath : text) : list text :=
  match read fs filepath with
  | Content content => file_output filepath content
  | ReadError e => [T "Error processing " ++ filepath ++ T ": " ++ e]
  end.

(** The file at the path was read and has a violation. *)
Definition violating (fs : filesystem) (filepath : text) : bool :=
  match read fs filepath with
  | Content content =>
      match file_violations filepath content with
      | [] => false
      | _ :: _ => true
      end
  | ReadError _ => false
  end.

(** A line with a character that is no whitespace. *)
Definition meaningful (line : text) : bool :=
  negb (forallb is_space line).

(** The meaningful lines of a text, counted character by character; [seen]
    says that the line so far has a character that is no whitespace. *)
Fixpoint loc_from (seen : bool) (s : text) : nat :=
  match s with
  | [] => if seen then 1 else 0
  | c :: t =>
      if Ascii.eqb c newline then (if seen then 1 else 0) + loc_from false t
      else loc_from (seen || negb (is_space c)) t
  end.

(** Opening less closing braces over some lines, as [brace_balance] adds
    them up. *)
Fixpoint net_braces (content : list text) : Z :=
  match content with
  | [] => 0
  | line :: content' =>
      (Z.of_nat (open_count line) - Z.of_nat (close_count line)
       + net_braces content')%Z
  end.

(** What the loop variables say of the function being captured, after the
    lines [done] have been run: it started at one of them, a line that
    opens more braces than it closes and matches the pattern with the name
    held, no control keyword; the content is the lines from there on, the
    balance is the net count of their braces, and it was not zero after
    any line before the last. *)
Definition captured (done : list text) (st : fstate) : Prop :=
  func_start_line st < length done
  /\ func_content st = skipn (func_start_line st) done
  /\ brace_balance st = net_braces (func_content st)
  /\ (forall n, 0 < n < length (func_content st) ->
                net_braces (firstn n (func_content st)) <> 0%Z)
  /\ in_keywords (func_name st) = false
  /\ exists first m,
       nth_error done (func_start_line st) = Some first
       /\ close_count first < open_count first
       /\ re_search func_def_pattern (mask_strings first) = Some m
       /\ group 3 m = func_name st.

(** The line after the last line of a region. *)
Definition r_end (r : region) : nat := r_start r + length (r_content r).

(** The length of the match of [lit w] at the start of [s], if any. *)
Definition lit_len (w s : text) : option nat :=
  if starts_with w s then Some (length w) else None.

(** The loop variables when the loop reaches the line [i]. *)
Definition state_before (txt : text) (i : nat) : fstate :=
  run 0 (firstn i (split_lines txt)) init_fstate.

(** ** Sample inputs *)

(** A function of thirteen lines with eleven [if]s. *)
Definition eleven_ifs_body : list text :=
  T "void check(int a) {"
    :: repeat (T "  if (a > 0) { a = a - 1; }") 11 ++ [T "}"].

(** A file of [n] statements, one per line. *)
Definition statements (n : nat) : text :=
  concat (repeat (T "x = 1;" ++ [newline]) n).

(** A file that ends inside a function. *)
Definition unfinished_file : text :=
  T "int one() {
  return 1;
}
void open() {
  if (ready) {
    start();
}".

(** The function that ends in [unfinished_file]. *)
Definition one_region : region :=
  Region (Some (T "one")) 0 [T "int one() {"; T "  return 1;"; T "}"].

(** A class whose closing brace is missing. *)
Definition unclosed_class : text :=
  T "class Counter {
  void reset() {
  }
".

(** A file of control flow only. *)
Definition control_flow_file : text :=
  T "if (x > 0) {
  run();
}
else if (x < 0) {
  stop();
}
while (busy()) {
  wait();
}
do {
  step();
} while (more());".

(** An [if] whose condition goes on to a second line, where a call stands
    before the opening brace. *)
Definition continued_condition_file : text :=
  T "if (a &&
    foo(b)) {
  bar();
}".

(** The same with a body of eleven [if]s. *)
Definition continued_condition_long : text :=
  join_lines (T "if (a &&" :: T "    foo(b)) {"
              :: repeat (T "  if (a > 0) { a = a - 1; }") 11 ++ [T "}"]).

(** A file with a function on one line. *)
Definition one_line_file : text :=
  T "int sign(int a) { if (a > 0) { return 1; } return 0; }
int x = sign(2);".

(** A line that is one double-quoted literal with braces and single
    quotes inside. *)
Definition literal_line : text :=
  dquote :: T "{ '}' \' {" ++ [dquote].

(** A text with comments of both kinds and a literal. *)
Definition commented_text : text :=
  T "a = 'x//y'; // one
b /* two
three */ c".

(** * Properties *)

(** ** The matcher *)

Lemma rmatch_ext (A : Type) (r : regex) :
  forall (k k' : mstate -> option A) st,
    (forall st', k st' = k' st') -> rmatch r k st = rmatch r k' st.
Proof.
  induction r as [|p|r1 IH1 r2 IH2|r1 IH1 r2 IH2|g r1 IH1|n r1 IH1|m|m|];
    intros k k' st H; simpl.
  - apply H.
  - destruct (rest st) as [|a t]; [reflexivity|]. destruct (p a); auto.
  - apply IH1. intro st'. apply IH2. exact H.
  - rewrite (IH1 k k' st H), (IH2 k k' st H). reflexivity.
  - generalize (length (rest st)) as fuel. intro fuel. revert st.
    induction fuel as [|fuel IHf]; intro st; [apply H|].
    rewrite (H st).
    destruct g.
    + erewrite IH1; [reflexivity|].
      intro st'. simpl. destruct (pos st <? pos st'); [apply IHf|reflexivity].
    + erewrite IH1; [reflexivity|].
      intro st'. simpl. destruct (pos st <? pos st'); [apply IHf|reflexivity].
  - apply IH1. intro st'. apply H.
  - destruct (at_bol m st); auto.
  - destruct (at_eol m st); auto.
  - destruct (at_word_boundary st); auto.
Qed.

Lemma rmatch_star (A : Type) greedy r1 (k : mstate -> option A) st :
  rmatch (Star greedy r1) k st = star_loop greedy r1 k (length (rest st)) st.
Proof.
  simpl. generalize (length (rest st)) as fuel. intro fuel. revert st.
  induction fuel as [|fuel IH]; intro st; [reflexivity|].
  simpl. destruct greedy.
  - erewrite rmatch_ext; [reflexivity|].
    intro st'. simpl. destruct (pos st <? pos st'); [apply IH|reflexivity].
  - erewrite rmatch_ext; [reflexivity|].
    intro st'. simpl. destruct (pos st <? pos st'); [apply IH|reflexivity].
Qed.

Lemma rmatch_seq (A : Type) r1 r2 (k : mstate -> option A) st :
  rmatch (Seq r1 r2) k st = rmatch r1 (rmatch r2 k) st.
Proof. reflexivity. Qed.

Lemma rmatch_alt (A : Type) r1 r2 (k : mstate -> option A) st :
  rmatch (Alt r1 r2) k st =
  match rmatch r1 k st with Some x => Some x | None => rmatch r2 k st end.
Proof. reflexivity. Qed.

Lemma rmatch_chr (A : Type) p (k : mstate -> option A) st :
  rmatch (Chr p) k st =
  match rest st with
  | a :: t => if p a then k (advance a t st) else None
  | [] => None
  end.
Proof. reflexivity. Qed.

Lemma rmatch_eps (A : Type) (k : mstate -> option A) st :
  rmatch Eps k st = k st.
Proof. reflexivity. Qed.

Lemma forward_pos n : forall st,
  n <= length (rest st) -> pos (forward n st) = pos st + n.
Proof.
  induction n as [|n IH]; intros st H; simpl; [lia|].
  destruct (rest st) as [|a t] eqn:E; simpl in H; [lia|].
  rewrite IH; simpl; lia.
Qed.

Lemma forward_groups n : forall st, groups (forward n st) = groups st.
Proof.
  induction n as [|n IH]; intros st; simpl; [reflexivity|].
  destruct (rest st) as [|a t]; [reflexivity|]. rewrite IH. reflexivity.
Qed.

Lemma forward_rest n : forall st, rest (forward n st) = skipn n (rest st).
Proof.
  induction n as [|n IH]; intros st; simpl; [reflexivity|].
  destruct (rest st) as [|a t] eqn:E; [exact E|]. rewrite IH. reflexivity.
Qed.

(** *** The pieces of [comment_pattern], read off the subject *)

Lemma line_len_le s : line_len s <= length s.
Proof.
  induction s as [|c t IH]; simpl; [lia|].
  destruct (Ascii.eqb c newline); lia.
Qed.

Lemma find_close_le s : forall n, find_close s = Some n -> 2 <= n <= length s.
Proof.
  induction s as [|c t IH]; simpl; intros n H; [discriminate|].
  destruct (Ascii.eqb c star && startswith_char slash t) eqn:E.
  - injection H as <-. destruct t; simpl in *; [|lia].
    rewrite andb_false_r in E. discriminate.
  - destruct (find_close t) as [m|]; [|discriminate].
    injection H as <-. specialize (IH m eq_refl). lia.
Qed.

Lemma lit_scan_le dot q s : forall esc n,
  lit_scan dot q esc s = Some n -> 1 <= n <= length s.
Proof.
  induction s as [|c t IH]; simpl; intros esc n H; [discriminate|].
  destruct esc.
  - destruct (dot c); [|discriminate].
    destruct (lit_scan dot q false t) as [m|] eqn:E; [|discriminate].
    injection H as <-. specialize (IH _ _ E). lia.
  - destruct (Ascii.eqb c backslash).
    + destruct (lit_scan dot q true t) as [m|] eqn:E; [|discriminate].
      injection H as <-. specialize (IH _ _ E). lia.
    + destruct (Ascii.eqb c q); [injection H as <-; lia|].
      destruct (lit_scan dot q false t) as [m|] eqn:E; [|discriminate].
      injection H as <-. specialize (IH _ _ E). lia.
Qed.

Lemma literal_len_le dot q s n :
  literal_len dot q s = Some n -> 2 <= n <= length s.
Proof.
  destruct s as [|c t]; simpl; [discriminate|].
  destruct (Ascii.eqb c q); [|discriminate].
  destruct (lit_scan dot q false t) as [m|] eqn:E; [|discriminate].
  intro H. injection H as <-. apply lit_scan_le in E. lia.
Qed.

Lemma token_len_le s n : token_len s = Some n -> 2 <= n <= length s.
Proof.
  destruct s as [|c t]; unfold token_len; [discriminate|].
  destruct (Ascii.eqb c slash).
  - destruct t as [|d t']; [discriminate|].
    destruct (Ascii.eqb d slash).
    + intro H. injection H as <-. pose proof (line_len_le t'). simpl. lia.
    + destruct (Ascii.eqb d star); [|discriminate].
      destruct (find_close t') as [m|] eqn:E; [|discriminate].
      intro H. injection H as <-. apply find_close_le in E. simpl. lia.
  - destruct (Ascii.eqb c squote); intro H; apply literal_len_le in H; exact H.
Qed.

(** *** The matcher on the pieces *)

Lemma ltb_succ n : (n <? S n) = true.
Proof. apply Nat.ltb_lt. lia. Qed.

Lemma star_lazy_any (A : Type) (k : mstate -> option A) s : forall st,
  rest st = s ->
  star_loop false (Chr any_char) k (length s) st = lazy_first k s st.
Proof.
  induction s as [|c t IH]; intros st E.
  - simpl. destruct (k st); reflexivity.
  - simpl. destruct (k st); [reflexivity|].
    rewrite E. simpl. rewrite ltb_succ. apply IH. reflexivity.
Qed.

Lemma rmatch_eol (A : Type) m (k : mstate -> option A) st :
  rmatch (Eol m) k st = if at_eol m st then k st else None.
Proof. reflexivity. Qed.

Lemma lazy_first_eol s : forall st,
  rest st = s ->
  lazy_first (rmatch (Eol true) (fun e => Some e)) s st
  = Some (forward (line_len s) st).
Proof.
  induction s as [|c t IH]; intros st E.
  - cbn [lazy_first]. rewrite rmatch_eol. unfold at_eol. rewrite E. reflexivity.
  - cbn [lazy_first line_len]. rewrite rmatch_eol. unfold at_eol. rewrite E.
    simpl orb. rewrite andb_true_r.
    destruct (Ascii.eqb c newline); [reflexivity|].
    rewrite (IH (advance c t st) eq_refl). simpl. rewrite E. reflexivity.
Qed.

Lemma rmatch_close st :
  rmatch (lit (T "*/")) (fun e => Some e) st =
  match rest st with
  | c :: t =>
      if Ascii.eqb c star && startswith_char slash t
      then Some (forward 2 st) else None
  | [] => None
  end.
Proof.
  unfold star, slash.
  simpl. destruct (rest st) as [|c t] eqn:E; [reflexivity|].
  unfold is_char at 1. destruct (Ascii.eqb c "*"); simpl; [|reflexivity].
  destruct t as [|d t']; simpl; [reflexivity|].
  unfold is_char. destruct (Ascii.eqb d "/"); reflexivity.
Qed.

Lemma lazy_first_close s : forall st,
  rest st = s ->
  lazy_first (rmatch (lit (T "*/")) (fun e => Some e)) s st
  = option_map (fun n => forward n st) (find_close s).
Proof.
  induction s as [|c t IH]; intros st E.
  - unfold lazy_first. rewrite rmatch_close, E. reflexivity.
  - cbn [lazy_first find_close]. rewrite rmatch_close, E.
    destruct (Ascii.eqb c star && startswith_char slash t); [reflexivity|].
    rewrite (IH (advance c t st) eq_refl).
    destruct (find_close t); simpl; rewrite ?E; reflexivity.
Qed.

(** The greedy repetition of [literal_item] followed by the closing quote
    stops at the first bare quote; shorter repetitions never end before a
    quote, so backtracking adds nothing. *)
Lemma star_literal dot q (Hq : Ascii.eqb q backslash = false) fuel :
  forall st,
    length (rest st) <= fuel ->
    star_loop true (literal_item dot q)
              (rmatch (Chr (is_char q)) (fun e => Some e)) fuel st
    = option_map (fun n => forward n st) (lit_scan dot q false (rest st)).
Proof.
  induction fuel as [|fuel IH]; intros st Hlen.
  - destruct (rest st) as [|c t] eqn:E; simpl in Hlen; [|lia].
    simpl. rewrite E. reflexivity.
  - cbn [star_loop]. unfold literal_item at 1.
    rewrite rmatch_alt, rmatch_seq, !rmatch_chr.
    destruct (rest st) as [|c t] eqn:E; [reflexivity|].
    simpl in Hlen. cbn [lit_scan]. unfold is_char.
    destruct (Ascii.eqb c backslash) eqn:Eb.
    + assert (Ascii.eqb c q = false) as Eq.
      { apply Ascii.eqb_eq in Eb. subst c. rewrite Ascii.eqb_sym. exact Hq. }
      rewrite Eq. simpl orb. simpl negb. cbv iota.
      rewrite rmatch_chr. simpl rest.
      destruct t as [|d t']; [reflexivity|]. cbn [lit_scan].
      destruct (dot d); [|reflexivity].
      simpl pos. replace (pos st <? S (S (pos st))) with true
        by (symmetry; apply Nat.ltb_lt; lia).
      rewrite IH by (simpl in *; lia). simpl rest.
      destruct (lit_scan dot q false t'); simpl; rewrite ?E; reflexivity.
    + destruct (Ascii.eqb c q) eqn:Eq; simpl orb; simpl negb; cbv iota.
      * simpl. rewrite E. reflexivity.
      * simpl pos. rewrite ltb_succ.
        rewrite IH by (simpl; lia). simpl rest.
        destruct (lit_scan dot q false t); simpl; rewrite ?E; reflexivity.
Qed.

Lemma forward_S n st c t :
  rest st = c :: t -> forward n (advance c t st) = forward (S n) st.
Proof. intro E. simpl. rewrite E. reflexivity. Qed.

Lemma rmatch_literal dot q (Hq : Ascii.eqb q backslash = false) st :
  rmatch (literal dot q) (fun e => Some e) st
  = option_map (fun n => forward n st) (literal_len dot q (rest st)).
Proof.
  unfold literal. cbn [seqs]. rewrite rmatch_seq, rmatch_chr.
  unfold literal_len.
  destruct (rest st) as [|c t] eqn:E; [reflexivity|].
  unfold is_char at 1. destruct (Ascii.eqb c q); [|reflexivity].
  rewrite rmatch_seq, rmatch_star.
  rewrite star_literal by (exact Hq || lia). simpl rest.
  destruct (lit_scan dot q false t); simpl; rewrite ?E; reflexivity.
Qed.

Lemma rmatch_line_comment st :
  rmatch line_comment (fun e => Some e) st =
  match rest st with
  | c :: d :: t =>
      if Ascii.eqb c slash && Ascii.eqb d slash
      then Some (forward (2 + line_len t) st) else None
  | _ => None
  end.
Proof.
  unfold line_comment, slash. cbn [seqs T list_ascii_of_string lit].
  rewrite !rmatch_seq, rmatch_chr.
  destruct (rest st) as [|c t] eqn:E; [reflexivity|].
  unfold is_char at 1. destruct (Ascii.eqb c "/"); simpl andb.
  2:{ destruct t; reflexivity. }
  rewrite rmatch_seq, rmatch_chr. simpl rest.
  destruct t as [|d t]; [reflexivity|].
  unfold is_char at 1. destruct (Ascii.eqb d "/"); [|reflexivity].
  rewrite ?rmatch_eps, ?rmatch_seq, rmatch_star. simpl rest.
  rewrite star_lazy_any by reflexivity.
  rewrite lazy_first_eol by reflexivity.
  simpl. rewrite E. reflexivity.
Qed.

Lemma rmatch_block_comment st :
  rmatch block_comment (fun e => Some e) st =
  match rest st with
  | c :: d :: t =>
      if Ascii.eqb c slash && Ascii.eqb d star
      then option_map (fun n => forward (2 + n) st) (find_close t) else None
  | _ => None
  end.
Proof.
  unfold block_comment, slash, star. cbn [seqs].
  change (lit (T "/*")) with (Seq (Chr (is_char "/")) (Seq (Chr (is_char "*")) Eps)).
  rewrite !rmatch_seq, rmatch_chr.
  destruct (rest st) as [|c t] eqn:E; [reflexivity|].
  unfold is_char at 1. destruct (Ascii.eqb c "/"); simpl andb.
  2:{ destruct t; reflexivity. }
  rewrite rmatch_seq, rmatch_chr. simpl rest.
  destruct t as [|d t]; [reflexivity|].
  unfold is_char at 1. destruct (Ascii.eqb d "*"); [|reflexivity].
  rewrite ?rmatch_eps, ?rmatch_seq, rmatch_star. simpl rest.
  rewrite star_lazy_any by reflexivity.
  rewrite lazy_first_close by reflexivity.
  destruct (find_close t); simpl; rewrite ?E; reflexivity.
Qed.

Lemma rmatch_comment_pattern st :
  rmatch comment_pattern (fun e => Some e) st
  = option_map (fun n => forward n st) (token_len (rest st)).
Proof.
  unfold comment_pattern. cbn [alts]. rewrite !rmatch_alt.
  rewrite rmatch_line_comment, rmatch_block_comment.
  rewrite !rmatch_literal by reflexivity.
  unfold token_len, literal_len.
  destruct (rest st) as [|c t] eqn:E; [reflexivity|].
  destruct (Ascii.eqb c slash) eqn:Es.
  - apply Ascii.eqb_eq in Es. subst c. simpl.
    destruct t as [|d t']; [reflexivity|].
    destruct (Ascii.eqb d slash); [reflexivity|].
    destruct (Ascii.eqb d star); [|reflexivity].
    destruct (find_close t'); reflexivity.
  - simpl andb.
    destruct (Ascii.eqb c squote) eqn:Eq.
    + apply Ascii.eqb_eq in Eq. subst c. simpl.
      destruct t; destruct (lit_scan any_char squote false _); reflexivity.
    + destruct t; reflexivity.
Qed.

Lemma match_here_comment b s p :
  match_here comment_pattern (MState b s p [])
  = option_map (fun n => ReMatch (firstn n s) []) (token_len s).
Proof.
  unfold match_here. rewrite rmatch_comment_pattern. simpl rest.
  destruct (token_len s) as [n|] eqn:E; [|reflexivity].
  simpl option_map. cbv iota.
  apply token_len_le in E.
  rewrite forward_pos, forward_groups by (simpl; lia).
  simpl. replace (p + n - p) with n by lia. reflexivity.
Qed.

(** ** Substitution with a pattern that does not look around

    For a pattern whose match at a position depends on the text from that
    position only, [re.sub] is a left-to-right tokenizer. *)

Section PositionFree.

Variable r : regex.
Variable tl : text -> option nat.

Hypothesis r_match : forall b s p,
  match_here r (MState b s p [])
  = option_map (fun n => ReMatch (firstn n s) []) (tl s).

Hypothesis tl_bound : forall s n, tl s = Some n -> 1 <= n <= length s.

Lemma scan_free : forall s skip b p b' p',
  scan r b p s skip = scan r b' p' s skip.
Proof.
  induction s as [|a t IH]; intros skip b p b' p'.
  - destruct skip; simpl; [|reflexivity]. rewrite !r_match. reflexivity.
  - destruct skip as [|n]; simpl.
    + rewrite !r_match. destruct (tl (a :: t)) as [n|]; simpl.
      * destruct n; simpl;
          [rewrite (IH 0 (Some a) (S p) (Some a) (S p')); reflexivity|].
        rewrite (IH _ (Some a) (S p) (Some a) (S p')); reflexivity.
      * rewrite (IH 0 (Some a) (S p) (Some a) (S p')); reflexivity.
    + apply IH.
Qed.

Lemma scan_skip : forall x s b p b' p',
  scan r b p (x ++ s) (length x) = scan r b' p' s 0.
Proof.
  induction x as [|a x IH]; intros s b p b' p'; simpl length.
  - apply scan_free.
  - simpl. apply IH.
Qed.

Lemma tl_nil : tl [] = None.
Proof.
  destruct (tl []) as [n|] eqn:E; [|reflexivity].
  apply tl_bound in E. simpl in E. lia.
Qed.

Lemma segments_nil : segments r [] = [].
Proof. unfold segments. simpl. rewrite r_match, tl_nil. reflexivity. Qed.

Lemma segments_plain c s :
  tl (c :: s) = None -> segments r (c :: s) = Plain c :: segments r s.
Proof.
  intro E. unfold segments. simpl. rewrite r_match, E. simpl.
  apply f_equal. apply scan_free.
Qed.

Lemma segments_token s n :
  tl s = Some n ->
  segments r s
  = Matched (ReMatch (firstn n s) []) :: segments r (skipn n s).
Proof.
  intro E. pose proof (tl_bound E) as B.
  unfold segments. destruct s as [|a t]; [simpl in B; lia|].
  destruct n as [|n]; [lia|].
  cbn [scan]. rewrite r_match, E.
  cbn [group0 option_map firstn length skipn].
  simpl in B.
  rewrite length_firstn, Nat.min_l by lia.
  apply f_equal.
  assert (scan r (Some a) 1 (firstn n t ++ skipn n t) (length (firstn n t))
          = scan r None 0 (skipn n t) 0) as H by apply scan_skip.
  rewrite firstn_skipn, length_firstn, Nat.min_l in H by lia.
  exact H.
Qed.

Variable repl : rematch -> text.

Lemma re_sub_nil : re_sub r repl [] = [].
Proof. unfold re_sub. rewrite segments_nil. reflexivity. Qed.

Lemma re_sub_plain c s :
  tl (c :: s) = None -> re_sub r repl (c :: s) = c :: re_sub r repl s.
Proof.
  intro E. unfold re_sub. rewrite (segments_plain E). reflexivity.
Qed.

Lemma re_sub_token s n :
  tl s = Some n ->
  re_sub r repl s
  = repl (ReMatch (firstn n s) []) ++ re_sub r repl (skipn n s).
Proof.
  intro E. unfold re_sub. rewrite (segments_token E). reflexivity.
Qed.

(** Induction along the tokens. *)
Lemma token_ind (P : text -> Prop) :
  P [] ->
  (forall c s, tl (c :: s) = None -> P s -> P (c :: s)) ->
  (forall s n, tl s = Some n -> P (skipn n s) -> P s) ->
  forall s, P s.
Proof.
  intros Hnil Hplain Htok s.
  remember (length s) as m eqn:Hm.
  revert s Hm. induction m as [m IH] using lt_wf_ind.
  intros s Hm. destruct s as [|c t]; [exact Hnil|].
  destruct (tl (c :: t)) as [n|] eqn:E.
  - apply (Htok _ _ E). pose proof (tl_bound E) as B.
    apply (IH (length (skipn n (c :: t)))); [|reflexivity].
    rewrite length_skipn. subst m. cbn [length] in *. lia.
  - apply (Hplain _ _ E). apply (IH (length t)); [|reflexivity].
    subst m. simpl. lia.
Qed.

End PositionFree.

Lemma token_len_bound s n : token_len s = Some n -> 1 <= n <= length s.
Proof. intro H. apply token_len_le in H. lia. Qed.

(** ** remove_comments as a tokenizer *)

Lemma rc_segments_nil : segments comment_pattern [] = [].
Proof. exact (@segments_nil _ _ match_here_comment token_len_bound). Qed.

Lemma rc_segments_plain c s :
  token_len (c :: s) = None ->
  segments comment_pattern (c :: s) = Plain c :: segments comment_pattern s.
Proof. exact (@segments_plain _ _ match_here_comment c s). Qed.

Lemma rc_segments_token s n :
  token_len s = Some n ->
  segments comment_pattern s
  = Matched (ReMatch (firstn n s) []) :: segments comment_pattern (skipn n s).
Proof. exact (@segments_token _ _ match_here_comment token_len_bound s n). Qed.

Lemma rc_nil : remove_comments [] = [].
Proof. exact (@re_sub_nil _ _ match_here_comment token_len_bound replacer). Qed.

Lemma rc_plain c s :
  token_len (c :: s) = None ->
  remove_comments (c :: s) = c :: remove_comments s.
Proof. exact (@re_sub_plain _ _ match_here_comment replacer c s). Qed.

Lemma rc_token s n :
  token_len s = Some n ->
  remove_comments s
  = replacer (ReMatch (firstn n s) []) ++ remove_comments (skipn n s).
Proof.
  exact (@re_sub_token _ _ match_here_comment token_len_bound replacer s n).
Qed.

Lemma rc_ind (P : text -> Prop) :
  P [] ->
  (forall c s, token_len (c :: s) = None -> P s -> P (c :: s)) ->
  (forall s n, token_len s = Some n -> P (skipn n s) -> P s) ->
  forall s, P s.
Proof. exact (@token_ind _ token_len_bound P). Qed.

Lemma split_lines_cons s : exists l ls, split_lines s = l :: ls.
Proof.
  induction s as [|c t [l [ls IH]]]; simpl; [eauto|].
  destruct (Ascii.eqb c newline); [eauto|]. rewrite IH. eauto.
Qed.

Lemma count_char_app c a b :
  count_char c (a ++ b) = count_char c a + count_char c b.
Proof. unfold count_char. rewrite filter_app, length_app. reflexivity. Qed.

Lemma count_char_cons c a s :
  count_char c (a :: s) = (if Ascii.eqb c a then 1 else 0) + count_char c s.
Proof. unfold count_char. simpl. destruct (Ascii.eqb c a); reflexivity. Qed.

Lemma line_count_newlines s : line_count s = S (count_char newline s).
Proof.
  unfold line_count. induction s as [|c t IH]; [reflexivity|].
  rewrite count_char_cons. simpl split_lines.
  rewrite (Ascii.eqb_sym newline c).
  destruct (Ascii.eqb c newline); simpl; [rewrite IH; reflexivity|].
  destruct (split_lines_cons t) as [l [ls E]]. rewrite E in *. exact IH.
Qed.

Lemma line_len_no_newline t : count_char newline (firstn (line_len t) t) = 0.
Proof.
  induction t as [|c t IH]; [reflexivity|]. simpl line_len.
  destruct (Ascii.eqb c newline) eqn:E; [reflexivity|].
  simpl firstn. rewrite count_char_cons, Ascii.eqb_sym, E. exact IH.
Qed.

Lemma find_close_ends t : forall m,
  find_close t = Some m -> exists body, firstn m t = body ++ [star; slash].
Proof.
  induction t as [|c t IH]; intros m H; simpl in H; [discriminate|].
  destruct (Ascii.eqb c star && startswith_char slash t) eqn:E.
  - injection H as <-. apply andb_prop in E as [E1 E2].
    apply Ascii.eqb_eq in E1. subst c.
    destruct t as [|d t]; [discriminate|]. simpl in E2.
    apply Ascii.eqb_eq in E2. subst d. exists []. reflexivity.
  - destruct (find_close t) as [k|]; [|discriminate].
    injection H as <-. destruct (IH k eq_refl) as [body Hb].
    exists (c :: body). simpl. rewrite Hb. reflexivity.
Qed.

(** The three kinds of token. *)
Lemma token_len_cases s n :
  token_len s = Some n ->
  (exists t, s = slash :: slash :: t /\ n = 2 + line_len t)
  \/ (exists t m, s = slash :: star :: t /\ find_close t = Some m /\ n = 2 + m)
  \/ (exists c t, s = c :: t /\ Ascii.eqb c slash = false).
Proof.
  destruct s as [|c t]; unfold token_len; [discriminate|].
  destruct (Ascii.eqb c slash) eqn:Ec.
  - apply Ascii.eqb_eq in Ec. subst c.
    destruct t as [|d t]; [discriminate|].
    destruct (Ascii.eqb d slash) eqn:Ed.
    + apply Ascii.eqb_eq in Ed. subst d. intro H. injection H as <-.
      left. eauto.
    + destruct (Ascii.eqb d star) eqn:Ed'; [|discriminate].
      apply Ascii.eqb_eq in Ed'. subst d.
      destruct (find_close t) as [m|] eqn:F; [|discriminate].
      intro H. injection H as <-. right. left. eauto.
  - intros _. right. right. eauto.
Qed.

Lemma pieces_nil : pieces [] = [].
Proof. unfold pieces. rewrite rc_segments_nil. reflexivity. Qed.

Lemma pieces_plain c s :
  token_len (c :: s) = None -> pieces (c :: s) = Other c :: pieces s.
Proof. intro E. unfold pieces. rewrite (@rc_segments_plain _ _ E). reflexivity. Qed.

Lemma pieces_token s n :
  token_len s = Some n ->
  pieces s = classify (Matched (ReMatch (firstn n s) [])) :: pieces (skipn n s).
Proof. intro E. unfold pieces. rewrite (@rc_segments_token _ _ E). reflexivity. Qed.

(** What [replacer] does to a match is what [piece_out] says of its piece,
    and the piece covers the match. *)
Lemma classify_matched s n :
  token_len s = Some n ->
  let p := classify (Matched (ReMatch (firstn n s) [])) in
  piece_src p = firstn n s
  /\ piece_out p = replacer (ReMatch (firstn n s) [])
  /\ (forall t, p = LineComment t ->
        exists body, t = slash :: slash :: body
                     /\ count_char newline body = 0)
  /\ (forall t, p = BlockComment t ->
        exists body, t = [slash; star] ++ body ++ [star; slash]).
Proof.
  intro E. destruct (@token_len_cases _ _ E) as [[t [-> ->]]|[[t [m [-> [F ->]]]]|[c [t [-> Ec]]]]].
  - simpl. repeat split; try discriminate.
    intros t0 H. injection H as <-. eexists. split; [reflexivity|].
    apply line_len_no_newline.
  - simpl. repeat split; try discriminate.
    intros t0 H. injection H as <-.
    destruct (@find_close_ends _ _ F) as [body Hb]. exists body.
    rewrite Hb. reflexivity.
  - apply token_len_le in E. destruct n as [|n]; [lia|].
    simpl. unfold replacer. simpl. rewrite Ec.
    repeat split; discriminate.
Qed.

Lemma list_sum_cons a l : list_sum (a :: l) = a + list_sum l.
Proof. reflexivity. Qed.

Lemma piece_newlines s n :
  token_len s = Some n ->
  let p := classify (Matched (ReMatch (firstn n s) [])) in
  count_char newline (piece_out p) + block_newlines p
  = count_char newline (piece_src p).
Proof.
  intro E. destruct (@classify_matched _ _ E) as [_ [_ [HL _]]].
  cbv zeta in *.
  remember (classify (Matched (ReMatch (firstn n s) []))) as p eqn:Ep.
  destruct p as [c|t|t|t]; simpl.
  - unfold classify in Ep.
    destruct (startswith_char _ _); [destruct (startswith_char _ _)|];
      discriminate.
  - destruct (HL t eq_refl) as [body [-> Hb]].
    rewrite !count_char_cons. simpl. exact (eq_sym Hb).
  - reflexivity.
  - lia.
Qed.

(** C1, as the code has it: the sanitizer cuts its input into plain
    characters, literals and comments, keeps the first two and writes one
    space for each comment.  A single-line comment holds no newline, so it
    keeps its line; a block comment takes the newlines it spans with it, so
    the number of lines of the output is that of the input less the newlines
    inside block comments, and never more. *)
Theorem remove_comments_pieces (txt : text) :
  concat (map piece_src (pieces txt)) = txt
  /\ remove_comments txt = concat (map piece_out (pieces txt))
  /\ (forall t, In (LineComment t) (pieces txt) ->
        exists body, t = slash :: slash :: body
                     /\ count_char newline body = 0)
  /\ (forall t, In (BlockComment t) (pieces txt) ->
        exists body, t = [slash; star] ++ body ++ [star; slash])
  /\ line_count (remove_comments txt)
     + list_sum (map block_newlines (pieces txt)) = line_count txt
  /\ line_count (remove_comments txt) <= line_count txt.
Proof.
  assert (concat (map piece_src (pieces txt)) = txt
  /\ remove_comments txt = concat (map piece_out (pieces txt))
  /\ (forall t, In (LineComment t) (pieces txt) ->
        exists body, t = slash :: slash :: body
                     /\ count_char newline body = 0)
  /\ (forall t, In (BlockComment t) (pieces txt) ->
        exists body, t = [slash; star] ++ body ++ [star; slash])
  /\ count_char newline (remove_comments txt)
     + list_sum (map block_newlines (pieces txt)) = count_char newline txt) as H.
  { induction txt as [|c s E IH|s n E IH] using rc_ind.
    - rewrite pieces_nil, rc_nil. simpl. repeat split; intros t [].
    - destruct IH as [I1 [I2 [I3 [I4 I5]]]].
      rewrite (@pieces_plain _ _ E), (@rc_plain _ _ E). simpl.
      repeat split.
      + rewrite I1. reflexivity.
      + rewrite I2. reflexivity.
      + intros t [H|H]; [discriminate|auto].
      + intros t [H|H]; [discriminate|auto].
      + rewrite !count_char_cons. lia.
    - destruct IH as [I1 [I2 [I3 [I4 I5]]]].
      destruct (@classify_matched _ _ E) as [C1 [C2 [C3 C4]]].
      pose proof (@piece_newlines _ _ E) as C5. cbv zeta in *.
      rewrite (@pieces_token _ _ E), (@rc_token _ _ E). cbn [map concat].
      repeat split.
      + rewrite C1, I1. apply firstn_skipn.
      + rewrite C2, I2. reflexivity.
      + intros t [H|H]; [apply C3; exact H|auto].
      + intros t [H|H]; [apply C4; exact H|auto].
      + rewrite <- C2. rewrite count_char_app, list_sum_cons.
        assert (count_char newline s
                = count_char newline (firstn n s)
                  + count_char newline (skipn n s)) as Hs
          by (rewrite <- count_char_app, firstn_skipn; reflexivity).
        rewrite C1 in C5. rewrite Hs. lia. }
  destruct H as [H1 [H2 [H3 [H4 H5]]]].
  repeat split; try assumption.
  - rewrite !line_count_newlines. lia.
  - rewrite !line_count_newlines. lia.
Qed.

(** C1 as the spec has it fails: a block comment over two lines leaves one
    line. *)
Lemma remove_comments_line_count_counterexample :
  let txt := T "/*
*/" in
  remove_comments txt = [space]
  /\ line_count txt = 2
  /\ line_count (remove_comments txt) <> line_count txt.
Proof. vm_compute. repeat split. discriminate. Qed.

(** ** The literal automaton over pieces of text *)

Lemma lit_scan_app dot q a : forall esc b,
  lit_scan dot q esc (a ++ b) =
  match lit_chunk dot q esc a with
  | Closed n => Some n
  | Failed => None
  | Open e => option_map (Nat.add (length a)) (lit_scan dot q e b)
  end.
Proof.
  induction a as [|c t IH]; intros esc b.
  - simpl. destruct (lit_scan dot q esc b); reflexivity.
  - cbn [app lit_scan lit_chunk length].
    assert (forall e, option_map S (lit_scan dot q e (t ++ b)) =
      match bump (lit_chunk dot q e t) with
      | Closed n => Some n
      | Failed => None
      | Open e' => option_map (Nat.add (S (length t))) (lit_scan dot q e' b)
      end) as H.
    { intro e. rewrite IH. destruct (lit_chunk dot q e t); simpl; try reflexivity.
      destruct (lit_scan dot q esc0 b); reflexivity. }
    destruct esc.
    + destruct (dot c); [apply H|reflexivity].
    + destruct (Ascii.eqb c backslash); [apply H|].
      destruct (Ascii.eqb c q); [reflexivity|apply H].
Qed.

Lemma lit_chunk_firstn dot q t : forall esc m,
  lit_scan dot q esc t = Some m ->
  lit_chunk dot q esc (firstn m t) = Closed m.
Proof.
  induction t as [|c t IH]; intros esc m H; simpl in H; [discriminate|].
  assert (forall e, option_map S (lit_scan dot q e t) = Some m ->
                    exists k, m = S k /\ lit_scan dot q e t = Some k) as Hs.
  { intros e He. destruct (lit_scan dot q e t) as [k|]; [|discriminate].
    injection He as <-. eauto. }
  destruct esc.
  - destruct (dot c) eqn:Ed; [|discriminate].
    destruct (Hs _ H) as [k [-> Hk]]. simpl. rewrite Ed, (IH _ _ Hk).
    reflexivity.
  - destruct (Ascii.eqb c backslash) eqn:Eb.
    + destruct (Hs _ H) as [k [-> Hk]]. simpl. rewrite Eb, (IH _ _ Hk).
      reflexivity.
    + destruct (Ascii.eqb c q) eqn:Eq.
      * injection H as <-. simpl. rewrite Eb, Eq. reflexivity.
      * destruct (Hs _ H) as [k [-> Hk]]. simpl. rewrite Eb, Eq, (IH _ _ Hk).
        reflexivity.
Qed.

(** A closed literal ends with its quote. *)
Lemma lit_scan_last dot q t : forall esc m,
  lit_scan dot q esc t = Some m -> exists u, firstn m t = u ++ [q].
Proof.
  induction t as [|c t IH]; intros esc m H; simpl in H; [discriminate|].
  assert (forall e, option_map S (lit_scan dot q e t) = Some m ->
                    exists u, firstn m (c :: t) = u ++ [q]) as Hs.
  { intros e He. destruct (lit_scan dot q e t) as [k|] eqn:Ek; [|discriminate].
    injection He as <-. destruct (IH _ _ Ek) as [u Hu].
    exists (c :: u). simpl. rewrite Hu. reflexivity. }
  destruct esc.
  - destruct (dot c); [eauto|discriminate].
  - destruct (Ascii.eqb c backslash); [eauto|].
    destruct (Ascii.eqb c q) eqn:Eq; [|eauto].
    injection H as <-. apply Ascii.eqb_eq in Eq. subst c.
    exists []. reflexivity.
Qed.

(** A literal token is decided by its own characters. *)
Lemma literal_len_prefix dot q s n x :
  literal_len dot q s = Some n ->
  literal_len dot q (firstn n s ++ x) = Some n.
Proof.
  destruct s as [|c t]; simpl; [discriminate|].
  destruct (Ascii.eqb c q) eqn:Eq; [|discriminate].
  destruct (lit_scan dot q false t) as [m|] eqn:E; [|discriminate].
  intro H. injection H as <-. simpl. rewrite Eq.
  rewrite lit_scan_app, (lit_chunk_firstn _ _ _ _ E). reflexivity.
Qed.

(** ** remove_comments is idempotent *)

Lemma rc_comment t n :
  token_len (slash :: t) = Some n ->
  remove_comments (slash :: t) = space :: remove_comments (skipn n (slash :: t)).
Proof.
  intro E. rewrite (@rc_token _ _ E).
  pose proof (token_len_le _ E) as B. destruct n as [|n]; [lia|].
  reflexivity.
Qed.

Lemma rc_literal c t n :
  Ascii.eqb c slash = false ->
  token_len (c :: t) = Some n ->
  remove_comments (c :: t)
  = firstn n (c :: t) ++ remove_comments (skipn n (c :: t)).
Proof.
  intros Ec E. rewrite (@rc_token _ _ E).
  pose proof (token_len_le _ E) as B. destruct n as [|n]; [lia|].
  unfold replacer. simpl. rewrite Ec. reflexivity.
Qed.

(** After a single-line comment comes the end of the text or a newline. *)
Lemma skipn_line_len t :
  skipn (line_len t) t = [] \/ exists u, skipn (line_len t) t = newline :: u.
Proof.
  induction t as [|c t IH]; [left; reflexivity|]. simpl line_len.
  destruct (Ascii.eqb c newline) eqn:E; [|exact IH].
  apply Ascii.eqb_eq in E. subst c. right. exists t. reflexivity.
Qed.

(** The state of the literal automaton after a block comment: the closing
    [*/] leaves no escape pending. *)
Lemma lit_chunk_close q (Hq : Ascii.eqb star q = false) t : forall esc m,
  find_close t = Some m ->
  match lit_chunk any_char q esc (firstn m t) with
  | Open e => e = false
  | _ => True
  end.
Proof.
  induction t as [|c t IH]; intros esc m H; simpl in H; [discriminate|].
  destruct (Ascii.eqb c star && startswith_char slash t) eqn:E.
  - injection H as <-. apply andb_prop in E as [E1 E2].
    apply Ascii.eqb_eq in E1. subst c.
    destruct t as [|d t]; [discriminate|]. simpl in E2.
    apply Ascii.eqb_eq in E2. subst d.
    cbn [firstn lit_chunk].
    replace (any_char star) with true by reflexivity.
    replace (any_char slash) with true by reflexivity.
    change (Ascii.eqb star backslash) with false.
    change (Ascii.eqb slash backslash) with false. rewrite Hq.
    destruct esc; cbn [bump].
    + destruct (Ascii.eqb slash q); simpl; auto.
    + destruct (Ascii.eqb slash q); simpl; auto.
  - destruct (find_close t) as [k|] eqn:F; [|discriminate].
    injection H as <-. cbn [firstn lit_chunk].
    replace (any_char c) with true by reflexivity.
    pose proof (IH false k eq_refl) as H0. pose proof (IH true k eq_refl) as H1.
    destruct esc.
    + destruct (lit_chunk any_char q false (firstn k t)); simpl; auto.
    + destruct (Ascii.eqb c backslash).
      * destruct (lit_chunk any_char q true (firstn k t)); simpl; auto.
      * destruct (Ascii.eqb c q); [exact I|].
        destruct (lit_chunk any_char q false (firstn k t)); simpl; auto.
Qed.

Lemma bump_open r e : bump r = Open e -> r = Open e.
Proof. destruct r; simpl; intro H; congruence. Qed.

Lemma lit_chunk_open_cons dot q esc c x e :
  lit_chunk dot q esc (c :: x) = Open e ->
  exists e', lit_chunk dot q e' x = Open e.
Proof.
  simpl. destruct esc.
  - destruct (dot c); [|discriminate]. intro H. apply bump_open in H. eauto.
  - destruct (Ascii.eqb c backslash); [intro H; apply bump_open in H; eauto|].
    destruct (Ascii.eqb c q); [discriminate|].
    intro H. apply bump_open in H. eauto.
Qed.

Lemma lit_chunk_any q a : forall esc, lit_chunk any_char q esc a <> Failed.
Proof.
  induction a as [|c t IH]; intros esc; simpl; [discriminate|].
  assert (forall e, bump (lit_chunk any_char q e t) <> Failed) as H.
  { intros e He. apply (IH e). destruct (lit_chunk any_char q e t);
      simpl in He; congruence. }
  destruct esc.
  - replace (any_char c) with true by reflexivity. apply H.
  - destruct (Ascii.eqb c backslash); [apply H|].
    destruct (Ascii.eqb c q); [discriminate|apply H].
Qed.

Lemma lit_scan_app_none q a b esc :
  lit_scan any_char q esc (a ++ b) = None ->
  exists e, lit_chunk any_char q esc a = Open e
            /\ lit_scan any_char q e b = None.
Proof.
  rewrite lit_scan_app. pose proof (lit_chunk_any q a esc) as Hf.
  destruct (lit_chunk any_char q esc a) as [n| |e]; try discriminate.
  - congruence.
  - intro H. exists e. split; [reflexivity|].
    destruct (lit_scan any_char q e b); [discriminate|reflexivity].
Qed.

(** A character that is neither the backslash nor the quote is passed,
    escaped or not. *)
Lemma lit_scan_pass q c x esc :
  Ascii.eqb c backslash = false -> Ascii.eqb c q = false ->
  lit_scan any_char q esc (c :: x)
  = option_map S (lit_scan any_char q false x).
Proof.
  intros Hb Hq. simpl. rewrite Hb, Hq.
  replace (any_char c) with true by reflexivity.
  destruct esc; reflexivity.
Qed.

Lemma option_map_S_none (o : option nat) : option_map S o = None -> o = None.
Proof. destruct o; [discriminate|reflexivity]. Qed.

(** A literal left open by the text is left open by the sanitized text. *)
Lemma lit_scan_rc_none q
      (Hq1 : Ascii.eqb star q = false) (Hq2 : Ascii.eqb space q = false)
      (Hq3 : Ascii.eqb newline q = false) :
  forall s esc,
    lit_scan any_char q esc s = None ->
    lit_scan any_char q esc (remove_comments s) = None.
Proof.
  induction s as [|c s E IH|s n E IH] using rc_ind; intros esc H.
  - rewrite rc_nil. reflexivity.
  - rewrite (@rc_plain _ _ E). simpl in H |- *.
    destruct esc.
    + replace (any_char c) with true in * by reflexivity.
      apply option_map_S_none in H. rewrite (IH _ H). reflexivity.
    + destruct (Ascii.eqb c backslash).
      * apply option_map_S_none in H. rewrite (IH _ H). reflexivity.
      * destruct (Ascii.eqb c q); [discriminate|].
        apply option_map_S_none in H. rewrite (IH _ H). reflexivity.
  - rewrite <- (firstn_skipn n s) in H.
    apply lit_scan_app_none in H as [e [Hc He]].
    destruct (@token_len_cases _ _ E)
      as [[t [-> ->]]|[[t [m [-> [F ->]]]]|[c [t [-> Ec]]]]].
    + rewrite (@rc_comment _ _ E).
      rewrite lit_scan_pass by (reflexivity || exact Hq2).
      change (skipn (2 + line_len t) (slash :: slash :: t))
        with (skipn (line_len t) t) in *.
      destruct e; [|rewrite (IH _ He); reflexivity].
      destruct (skipn_line_len t) as [Hs|[u Hs]]; rewrite Hs in *.
      * rewrite rc_nil. reflexivity.
      * pose proof (IH _ He) as H'.
        rewrite (@rc_plain newline u eq_refl) in H' |- *.
        rewrite lit_scan_pass in H' |- * by (reflexivity || exact Hq3).
        rewrite H'. reflexivity.
    + rewrite (@rc_comment _ _ E).
      rewrite lit_scan_pass by (reflexivity || exact Hq2).
      change (skipn (2 + m) (slash :: star :: t)) with (skipn m t) in *.
      change (firstn (2 + m) (slash :: star :: t))
        with (slash :: star :: firstn m t) in Hc.
      apply lit_chunk_open_cons in Hc as [e1 Hc].
      apply lit_chunk_open_cons in Hc as [e2 Hc].
      pose proof (@lit_chunk_close q Hq1 t e2 m F) as Hz.
      rewrite Hc in Hz. subst e. rewrite (IH _ He). reflexivity.
    + rewrite (@rc_literal _ _ _ Ec E).
      rewrite lit_scan_app, Hc, (IH _ He). reflexivity.
Qed.

(** A slash at the head of the sanitized text was at the head of the text. *)
Lemma rc_head_slash t :
  startswith_char slash (remove_comments t) = true ->
  startswith_char slash t = true.
Proof.
  destruct t as [|c t]; [rewrite rc_nil; discriminate|].
  destruct (token_len (c :: t)) as [n|] eqn:E.
  - destruct (Ascii.eqb c slash) eqn:Ec; [intros _; exact Ec|].
    rewrite (@rc_literal _ _ _ Ec E).
    apply token_len_le in E. destruct n as [|n]; [lia|].
    simpl. rewrite Ec. discriminate.
  - rewrite (@rc_plain _ _ E). auto.
Qed.

Lemma find_close_app_none a : forall b,
  find_close (a ++ b) = None -> find_close b = None.
Proof.
  induction a as [|c a IH]; intros b H; [exact H|].
  simpl in H. destruct (_ && _); [discriminate|].
  apply IH. destruct (find_close (a ++ b)); [discriminate|reflexivity].
Qed.

Lemma find_close_swap u x : forall b b',
  Ascii.eqb x star = false ->
  find_close ((u ++ [x]) ++ b) = None ->
  find_close b' = None ->
  find_close ((u ++ [x]) ++ b') = None.
Proof.
  induction u as [|c u IH]; intros b b' Hx H H'.
  - simpl. rewrite Hx, H'. reflexivity.
  - simpl in H |- *.
    assert (startswith_char slash ((u ++ [x]) ++ b')
            = startswith_char slash ((u ++ [x]) ++ b)) as ->
      by (destruct u; reflexivity).
    destruct (_ && _); [discriminate|].
    rewrite (IH b b' Hx); [reflexivity| |exact H'].
    destruct (find_close ((u ++ [x]) ++ b)); [discriminate|reflexivity].
Qed.

Lemma find_close_pass c x :
  Ascii.eqb c star = false ->
  find_close (c :: x) = option_map S (find_close x).
Proof. intro H. simpl. rewrite H. reflexivity. Qed.

(** No [*/] appears by sanitizing. *)
Lemma find_close_rc_none : forall t,
  find_close t = None -> find_close (remove_comments t) = None.
Proof.
  induction t as [|c s E IH|s n E IH] using rc_ind; intros H.
  - rewrite rc_nil. reflexivity.
  - rewrite (@rc_plain _ _ E). simpl in H |- *.
    destruct (Ascii.eqb c star) eqn:Ec; simpl in *.
    + destruct (startswith_char slash s) eqn:Es; [discriminate|].
      destruct (startswith_char slash (remove_comments s)) eqn:Er.
      * apply rc_head_slash in Er. congruence.
      * rewrite IH; [reflexivity|].
        destruct (find_close s); [discriminate|reflexivity].
    + rewrite IH; [reflexivity|].
      destruct (find_close s); [discriminate|reflexivity].
  - rewrite <- (firstn_skipn n s) in H.
    pose proof (find_close_app_none _ _ H) as H'.
    destruct (@token_len_cases _ _ E)
      as [[t [-> ->]]|[[t [m [-> [F ->]]]]|[c [t [-> Ec]]]]].
    + rewrite (@rc_comment _ _ E), find_close_pass by reflexivity.
      rewrite (IH H'). reflexivity.
    + rewrite (@rc_comment _ _ E), find_close_pass by reflexivity.
      rewrite (IH H'). reflexivity.
    + rewrite (@rc_literal _ _ _ Ec E).
      assert (exists u x, firstn n (c :: t) = u ++ [x]
                          /\ Ascii.eqb x star = false) as [u [x [Hu Hx]]].
      { unfold token_len in E. rewrite Ec in E.
        destruct (Ascii.eqb c squote) eqn:Eq.
        - unfold literal_len in E. rewrite Eq in E.
          destruct (lit_scan any_char squote false t) as [k|] eqn:Ek;
            [|discriminate].
          injection E as <-. destruct (lit_scan_last _ _ _ _ Ek) as [u Hu].
          exists (c :: u), squote. simpl. rewrite Hu. split; reflexivity.
        - unfold literal_len in E.
          destruct (Ascii.eqb c dquote); [|discriminate].
          destruct (lit_scan any_char dquote false t) as [k|] eqn:Ek;
            [|discriminate].
          injection E as <-. destruct (lit_scan_last _ _ _ _ Ek) as [u Hu].
          exists (c :: u), dquote. simpl. rewrite Hu. split; reflexivity. }
      rewrite Hu in *. apply (find_close_swap _ _ _ _ Hx H (IH H')).
Qed.

(** Where the text has no token, the sanitized text has none. *)
Lemma token_len_rc_none c s :
  token_len (c :: s) = None -> token_len (c :: remove_comments s) = None.
Proof.
  unfold token_len. destruct (Ascii.eqb c slash) eqn:Ec.
  - destruct s as [|d s]; [rewrite rc_nil; reflexivity|].
    destruct (Ascii.eqb d slash) eqn:Ed; [discriminate|].
    destruct (token_len (d :: s)) as [n|] eqn:E.
    + intros _. rewrite (@rc_literal _ _ _ Ed E).
      pose proof (token_len_le _ E) as B. destruct n as [|n]; [lia|].
      simpl. rewrite Ed.
      unfold token_len in E. rewrite Ed in E.
      destruct (Ascii.eqb d star) eqn:Es; [|reflexivity].
      apply Ascii.eqb_eq in Es. subst d. discriminate.
    + rewrite (@rc_plain _ _ E). rewrite Ed.
      destruct (Ascii.eqb d star); [|reflexivity].
      intro H. rewrite find_close_rc_none; [reflexivity|].
      destruct (find_close s); [discriminate|reflexivity].
  - unfold literal_len.
    destruct (Ascii.eqb c squote).
    + intro H. rewrite lit_scan_rc_none; try reflexivity.
      destruct (lit_scan any_char squote false s); [discriminate|reflexivity].
    + destruct (Ascii.eqb c dquote); [|reflexivity].
      intro H. rewrite lit_scan_rc_none; try reflexivity.
      destruct (lit_scan any_char dquote false s); [discriminate|reflexivity].
Qed.

(** A literal token of the text is the same token of any text that starts
    with it. *)
Lemma token_len_literal_prefix c t n x :
  Ascii.eqb c slash = false ->
  token_len (c :: t) = Some n ->
  token_len (firstn n (c :: t) ++ x) = Some n.
Proof.
  intros Ec E. pose proof (token_len_le _ E) as B.
  destruct n as [|n]; [lia|].
  unfold token_len in E. rewrite Ec in E.
  cbn [firstn app]. unfold token_len. rewrite Ec.
  destruct (Ascii.eqb c squote);
    exact (literal_len_prefix _ _ _ x E).
Qed.

Lemma firstn_app_len (a x : text) n :
  length a = n -> firstn n (a ++ x) = a /\ skipn n (a ++ x) = x.
Proof.
  intros <-. rewrite firstn_app, skipn_app, Nat.sub_diag, firstn_all, skipn_all.
  simpl. rewrite app_nil_r. split; reflexivity.
Qed.

Lemma rc_literal_prefix c t n x :
  Ascii.eqb c slash = false ->
  token_len (c :: t) = Some n ->
  remove_comments (firstn n (c :: t) ++ x)
  = firstn n (c :: t) ++ remove_comments x.
Proof.
  intros Ec E.
  pose proof (@token_len_literal_prefix c t n x Ec E) as E'.
  pose proof (token_len_le _ E) as B.
  assert (length (firstn n (c :: t)) = n) as Hl
    by (rewrite length_firstn; lia).
  destruct (firstn_app_len _ x Hl) as [H1 H2].
  remember (firstn n (c :: t)) as a eqn:Ha.
  destruct n as [|n]; [lia|]. cbn [firstn] in Ha. subst a.
  cbn [app] in *. rewrite (@rc_literal _ _ _ Ec E'), H1, H2. reflexivity.
Qed.

(** C5: running the sanitizer on its own output changes nothing. *)
Theorem remove_comments_idempotent (txt : text) :
  remove_comments (remove_comments txt) = remove_comments txt.
Proof.
  induction txt as [|c s E IH|s n E IH] using rc_ind.
  - rewrite !rc_nil. reflexivity.
  - rewrite (@rc_plain _ _ E).
    rewrite (@rc_plain _ _ (token_len_rc_none _ _ E)), IH. reflexivity.
  - destruct (@token_len_cases _ _ E)
      as [[t [-> ->]]|[[t [m [-> [F ->]]]]|[c [t [-> Ec]]]]].
    + rewrite (@rc_comment _ _ E).
      rewrite (@rc_plain space _ eq_refl), IH. reflexivity.
    + rewrite (@rc_comment _ _ E).
      rewrite (@rc_plain space _ eq_refl), IH. reflexivity.
    + rewrite (@rc_literal _ _ _ Ec E).
      rewrite (@rc_literal_prefix _ _ _ _ Ec E), IH. reflexivity.
Qed.

(** ** The extractor and its regions *)

Lemma function_ended_app name start content vs :
  function_ended name start content vs
  = vs ++ region_violations (Region name start content).
Proof.
  unfold function_ended, region_violations, region_loc, region_complexity.
  simpl.
  destruct (MAX_FUNC_LOC <? content_loc content);
    destruct (MAX_COMPLEXITY <? calculate_complexity (join_lines content));
    rewrite <- ?app_assoc, ?app_nil_r; reflexivity.
Qed.

Lemma enter_violations i line st :
  violations (enter i line st) = violations st.
Proof.
  unfold enter. destruct (negb (in_function st)); [|reflexivity].
  destruct (_ <? _); [|reflexivity].
  destruct (re_search _ _); [|reflexivity].
  destruct (negb _); reflexivity.
Qed.

(** A round adds the violations of the region it completes, if any. *)
Lemma step_violations i line st :
  violations (step i line st)
  = violations st
    ++ (if completes i line st
        then region_violations (region_of (step i line st)) else []).
Proof.
  unfold completes, step.
  rewrite <- (enter_violations i line st).
  generalize (enter i line st) as st1. intro st1.
  unfold consume. destruct (in_function st1) eqn:E.
  - destruct (_ =? _)%Z; simpl.
    + rewrite function_ended_app. reflexivity.
    + rewrite app_nil_r. reflexivity.
  - rewrite E. simpl. rewrite app_nil_r. reflexivity.
Qed.

Lemma run_violations lines : forall i st,
  violations (run i lines st)
  = violations st ++ flat_map region_violations (regions_from i lines st).
Proof.
  induction lines as [|l ls IH]; intros i st; simpl.
  - rewrite app_nil_r. reflexivity.
  - rewrite IH, step_violations, flat_map_app, <- app_assoc.
    destruct (completes i l st); simpl; rewrite ?app_nil_r; reflexivity.
Qed.

(** The violations of a file's functions are those of its regions, region
    by region. *)
Lemma analyze_functions_regions txt filename :
  analyze_functions txt filename = flat_map region_violations (regions txt).
Proof.
  unfold analyze_functions, final_state, regions.
  rewrite run_violations. reflexivity.
Qed.

(** *** What a round does to the loop variables *)

Lemma enter_inside i line st :
  in_function st = true -> enter i line st = st.
Proof. intro H. unfold enter. rewrite H. reflexivity. Qed.

(** Outside a function, [enter] either leaves the state or starts a
    function at this line, which then opens more braces than it closes and
    matches the pattern with a name that is no control keyword. *)
Lemma enter_outside i line st :
  in_function st = false ->
  enter i line st = st
  \/ (exists m,
        close_count line < open_count line
        /\ re_search func_def_pattern (mask_strings line) = Some m
        /\ in_keywords (group 3 m) = false
        /\ enter i line st = FState 0 true i [] (group 3 m) (violations st)).
Proof.
  intro H. unfold enter. rewrite H. simpl negb. cbv iota.
  fold (open_count line). fold (close_count line).
  destruct (close_count line <? open_count line) eqn:E; [|left; reflexivity].
  apply Nat.ltb_lt in E.
  destruct (re_search func_def_pattern (mask_strings line)) as [m|] eqn:Em;
    [|left; reflexivity].
  destruct (in_keywords (group 3 m)) eqn:Ek; [left; reflexivity|].
  right. exists m. auto.
Qed.

Lemma consume_start line st :
  func_start_line (consume line st) = func_start_line st.
Proof.
  unfold consume. destruct (in_function st); [|reflexivity].
  destruct (_ =? _)%Z; reflexivity.
Qed.

Lemma consume_inside line st :
  in_function (consume line st) = true -> in_function st = true.
Proof.
  unfold consume. destruct (in_function st) eqn:E; [reflexivity|].
  rewrite E. auto.
Qed.

Lemma step_start_inside i line st :
  in_function st = true ->
  func_start_line (step i line st) = func_start_line st.
Proof.
  intro H. unfold step. rewrite consume_start, enter_inside by exact H.
  reflexivity.
Qed.

(** A function the round is inside of afterwards, or has just completed,
    is the one the loop was inside of before, or starts at this line, a
    line that opens more braces than it closes. *)
Lemma step_entered i line st :
  in_function (enter i line st) = true ->
  (in_function st = true
   /\ func_start_line (step i line st) = func_start_line st)
  \/ (in_function st = false
      /\ func_start_line (step i line st) = i
      /\ close_count line < open_count line).
Proof.
  intro H. destruct (in_function st) eqn:E.
  - left. split; [reflexivity|]. apply step_start_inside. exact E.
  - right. split; [reflexivity|].
    destruct (enter_outside i line st E) as [Hs|[m [Hlt [_ [_ Hs]]]]].
    + rewrite Hs in H. congruence.
    + unfold step. rewrite consume_start, Hs. simpl. auto.
Qed.

(** Every region starts at a line that opens more braces than it closes,
    unless it is the function the loop is inside of at the start. *)
Lemma regions_from_start lines : forall i st r,
  In r (regions_from i lines st) ->
  (in_function st = true /\ r_start r = func_start_line st)
  \/ (i <= r_start r
      /\ exists line, nth_error lines (r_start r - i) = Some line
                      /\ close_count line < open_count line).
Proof.
  induction lines as [|l ls IH]; intros i st r Hr; simpl in Hr; [contradiction|].
  assert (in_function (enter i l st) = true ->
          r_start r = func_start_line (step i l st) ->
          (in_function st = true /\ r_start r = func_start_line st)
          \/ (i <= r_start r
              /\ exists line, nth_error (l :: ls) (r_start r - i) = Some line
                              /\ close_count line < open_count line)) as Hent.
  { intros He Hs. destruct (step_entered i l st He) as [[H1 H2]|[H1 [H2 H3]]].
    - left. split; congruence.
    - right. rewrite Hs, H2. split; [lia|]. exists l.
      rewrite Nat.sub_diag. auto. }
  apply in_app_or in Hr as [Hr|Hr].
  - unfold completes in Hr.
    destruct (in_function (enter i l st)) eqn:He; simpl in Hr; [|contradiction].
    destruct (negb _); [|contradiction].
    destruct Hr as [<-|[]]. apply Hent; reflexivity.
  - destruct (IH _ _ _ Hr) as [[H1 H2]|[H1 [line [H2 H3]]]].
    + apply Hent; [|exact H2].
      unfold step in H1. apply consume_inside in H1. exact H1.
    + right. split; [lia|]. exists line.
      replace (r_start r - i) with (S (r_start r - S i)) by lia. auto.
Qed.

(** C10: a line that does not open more braces than it closes, as a
    function written on one line, starts no region, whatever the file; and
    the violations of the file's functions are those of its regions, so
    none is reported for it. *)
Theorem one_line_function_not_captured (txt filename : text) (i : nat)
        (line : text) :
  nth_error (split_lines txt) i = Some line ->
  open_count line <= close_count line ->
  (forall r, In r (regions txt) -> r_start r <> i)
  /\ (forall st, in_function st = false -> step i line st = st)
  /\ analyze_functions txt filename = flat_map region_violations (regions txt).
Proof.
  intros Hn Hb. split; [|split].
  - intros r Hr Hi. unfold regions in Hr.
    destruct (regions_from_start _ _ _ _ Hr) as [[H _]|[_ [l [H1 H2]]]].
    + discriminate.
    + rewrite Nat.sub_0_r, Hi, Hn in H1. injection H1 as <-. lia.
  - intros st Hst. unfold step.
    destruct (enter_outside i line st Hst) as [Hs|[m [Hlt _]]]; [|lia].
    rewrite Hs. unfold consume. rewrite Hst. reflexivity.
  - apply analyze_functions_regions.
Qed.

(** *** Files without a function-shaped line *)

Lemma step_outside_same i line st :
  in_function st = false -> enter i line st = st -> step i line st = st.
Proof.
  intros H He. unfold step. rewrite He. unfold consume. rewrite H. reflexivity.
Qed.

Lemma run_no_function lines : forall i st,
  in_function st = false ->
  (forall line m,
      In line lines ->
      close_count line < open_count line ->
      re_search func_def_pattern (mask_strings line) = Some m ->
      in_keywords (group 3 m) = true) ->
  run i lines st = st /\ regions_from i lines st = [].
Proof.
  induction lines as [|l ls IH]; intros i st Hst Hk; [split; reflexivity|].
  assert (enter i l st = st) as He.
  { destruct (enter_outside i l st Hst) as [He|[m [Hlt [Hm [Hn _]]]]];
      [exact He|].
    rewrite (Hk l m (or_introl eq_refl) Hlt Hm) in Hn. discriminate. }
  pose proof (@step_outside_same i l st Hst He) as Hs.
  simpl. unfold completes. rewrite Hs, He, Hst. simpl.
  apply IH; [exact Hst|].
  intros line m Hin. apply Hk. right. exact Hin.
Qed.

(** *** Files that end inside a function *)

Lemma step_balance i line st :
  in_function (step i line st) = true -> brace_balance (step i line st) <> 0%Z.
Proof.
  unfold step. generalize (enter i line st) as st1. intro st1.
  unfold consume. destruct (in_function st1) eqn:E.
  - destruct (_ =? _)%Z eqn:Eb; simpl; [discriminate|].
    intros _. apply Z.eqb_neq. exact Eb.
  - rewrite E. discriminate.
Qed.

Lemma run_balance lines : forall i st,
  (in_function st = true -> brace_balance st <> 0%Z) ->
  in_function (run i lines st) = true ->
  brace_balance (run i lines st) <> 0%Z.
Proof.
  induction lines as [|l ls IH]; intros i st H; simpl; [exact H|].
  apply IH. apply step_balance.
Qed.

(** The function the loop ends inside of is the one it started inside of,
    or starts at one of the lines run. *)
Lemma run_start lines : forall i st,
  in_function (run i lines st) = true ->
  (in_function st = true
   /\ func_start_line (run i lines st) = func_start_line st)
  \/ i <= func_start_line (run i lines st).
Proof.
  induction lines as [|l ls IH]; intros i st H; simpl in *.
  - left. auto.
  - destruct (@IH _ _ H) as [[H1 H2]|H1]; [|right; lia].
    rewrite H2. unfold step in H1. apply consume_inside in H1.
    destruct (step_entered i l st H1) as [[H3 H4]|[H3 [H4 _]]].
    + left. auto.
    + right. lia.
Qed.

Lemma step_start_bound i line st :
  (in_function st = true -> func_start_line st < i) ->
  in_function (enter i line st) = true ->
  func_start_line (step i line st) < S i.
Proof.
  intros Hinv He.
  destruct (step_entered i line st He) as [[H1 H2]|[H1 [H2 _]]].
  - rewrite H2. specialize (Hinv H1). lia.
  - lia.
Qed.

(** Regions completed before the end start before the function the loop
    ends inside of. *)
Lemma regions_before_last lines : forall i st r,
  (in_function st = true -> func_start_line st < i) ->
  in_function (run i lines st) = true ->
  In r (regions_from i lines st) ->
  r_start r < func_start_line (run i lines st).
Proof.
  induction lines as [|l ls IH]; intros i st r Hinv Hf Hr; simpl in *;
    [contradiction|].
  apply in_app_or in Hr as [Hr|Hr].
  - unfold completes in Hr.
    destruct (in_function (enter i l st)) eqn:He; simpl in Hr; [|contradiction].
    destruct (in_function (step i l st)) eqn:Hs; simpl in Hr; [contradiction|].
    destruct Hr as [<-|[]]. simpl.
    pose proof (@step_start_bound i l st Hinv He) as Hb.
    destruct (@run_start _ _ _ Hf) as [[H1 _]|H1]; [congruence|lia].
  - apply (IH (S i) (step i l st)); [|exact Hf|exact Hr].
    intro Hs. apply step_start_bound; [exact Hinv|].
    unfold step in Hs. apply consume_inside in Hs. exact Hs.
Qed.

(** When the file ends inside a function, the balance is not zero and the
    unfinished function is not among the regions: every region starts
    before it, and the violations are those of the regions alone. *)
Lemma ends_inside_dropped (txt filename : text) :
  in_function (final_state txt) = true ->
  brace_balance (final_state txt) <> 0%Z
  /\ (forall r, In r (regions txt) ->
        r_start r < func_start_line (final_state txt))
  /\ analyze_functions txt filename = flat_map region_violations (regions txt).
Proof.
  intro H. split; [|split].
  - apply run_balance; [discriminate|exact H].
  - intros r Hr. apply regions_before_last; [discriminate|exact H|exact Hr].
  - apply analyze_functions_regions.
Qed.

(** C7 as the spec has it fails: more opening than closing braces do not
    put the extractor inside a function.  In a class whose closing brace is
    missing the method is captured and completed, and the file ends outside
    any function: the line of the class is no declaration and is never
    captured. *)
Lemma unbalanced_not_capturing_counterexample :
  count_char "}"%char unclosed_class < count_char "{"%char unclosed_class
  /\ in_function (final_state unclosed_class) = false
  /\ map r_start (regions unclosed_class) = [1].
Proof. vm_compute. repeat split. lia. Qed.

(** ** Scores and thresholds *)

Lemma calculate_complexity_sum txt :
  calculate_complexity txt
  = 1 + list_sum (map (fun r => findall_count r txt) (keywords ++ operators)).
Proof.
  unfold calculate_complexity, keywords, operators. simpl. lia.
Qed.

(** C2: the score is one plus the matches of every keyword and operator
    pattern, each pattern counted on its own; with eleven matches of the
    word [if] and none of the other patterns it is 12, and a function with
    that content and at most 50 meaningful lines gets the complexity line
    and no other. *)
Theorem complexity_of_eleven_ifs :
  (forall txt,
      calculate_complexity txt
      = 1 + list_sum (map (fun r => findall_count r txt)
                          (keywords ++ operators)))
  /\ (forall (name : option text) (start : nat) (content vs : list text),
         findall_count (word_pattern (T "if")) (join_lines content) = 11 ->
         (forall r, In r (List.tl keywords ++ operators) ->
                    findall_count r (join_lines content) = 0) ->
         content_loc content <= MAX_FUNC_LOC ->
         calculate_complexity (join_lines content) = 12
         /\ 12 > MAX_COMPLEXITY
         /\ function_ended name start content vs
            = vs ++ [complexity_message name start 12]
         /\ region_violations (Region name start content)
            = [complexity_message name start 12]).
Proof.
  split; [exact calculate_complexity_sum|].
  intros name start content vs Hif Hno Hloc.
  assert (calculate_complexity (join_lines content) = 12) as Hc.
  { rewrite calculate_complexity_sum.
    unfold keywords, operators. cbn [app map list_sum fold_right].
    rewrite Hif.
    rewrite !Hno by (simpl; tauto).
    reflexivity. }
  assert (region_violations (Region name start content)
          = [complexity_message name start 12]) as Hr.
  { unfold region_violations, region_loc, region_complexity. simpl r_content.
    rewrite Hc. simpl r_name. simpl r_start.
    replace (MAX_FUNC_LOC <? content_loc content) with false
      by (symmetry; apply Nat.ltb_ge; exact Hloc).
    reflexivity. }
  split; [exact Hc|]. split; [unfold MAX_COMPLEXITY; lia|].
  split; [|exact Hr].
  rewrite function_ended_app, Hr. reflexivity.
Qed.

Lemma function_line_not_file_line r v :
  In v (region_violations r) -> is_file_loc_line v = false.
Proof.
  unfold region_violations. intro H. apply in_app_or in H as [H|H].
  - destruct (_ <? _); [|contradiction]. destruct H as [<-|[]]. reflexivity.
  - destruct (_ <? _); [|contradiction]. destruct H as [<-|[]]. reflexivity.
Qed.

Lemma filter_function_lines rs :
  filter is_file_loc_line (flat_map region_violations rs) = [].
Proof.
  induction rs as [|r rs IH]; [reflexivity|].
  simpl. rewrite filter_app, IH, app_nil_r.
  assert (forall l, (forall v, In v l -> is_file_loc_line v = false) ->
                    filter is_file_loc_line l = []) as H.
  { induction l as [|v l IHl]; intro Hl; [reflexivity|].
    simpl. rewrite (Hl v (or_introl eq_refl)). apply IHl.
    intros w Hw. apply Hl. right. exact Hw. }
  apply H. intros v Hv. exact (function_line_not_file_line r v Hv).
Qed.

(** C3: the file threshold is exclusive.  With exactly 500 meaningful
    lines none of the violation lines is about the size of the file; with
    501 exactly one is, and it reads [  - File LOC 501 > 500]. *)
Theorem file_loc_threshold_exclusive (filepath content : text) :
  (count_file_loc (remove_comments content) = 500 ->
   filter is_file_loc_line (file_violations filepath content) = [])
  /\ (count_file_loc (remove_comments content) = 501 ->
      filter is_file_loc_line (file_violations filepath content)
      = [T "  - File LOC 501 > 500"]).
Proof.
  unfold file_violations. cbv zeta. rewrite analyze_functions_regions.
  split; intros ->; rewrite filter_app, filter_function_lines; reflexivity.
Qed.

(** ** Masking string literals *)

Lemma match_here_literal dot q (Hq : Ascii.eqb q backslash = false) b s p :
  match_here (literal dot q) (MState b s p [])
  = option_map (fun n => ReMatch (firstn n s) []) (literal_len dot q s).
Proof.
  unfold match_here. rewrite rmatch_literal by exact Hq. simpl rest.
  destruct (literal_len dot q s) as [n|] eqn:E; [|reflexivity].
  simpl option_map. cbv iota. apply literal_len_le in E.
  rewrite forward_pos, forward_groups by (simpl; lia).
  simpl. replace (p + n - p) with n by lia. reflexivity.
Qed.

Lemma literal_len_bound dot q s n :
  literal_len dot q s = Some n -> 1 <= n <= length s.
Proof. intro H. apply literal_len_le in H. lia. Qed.

Lemma mask_strings_mask1 line :
  mask_strings line = mask1 dquote (mask1 squote line).
Proof. reflexivity. Qed.

Lemma mask1_nil q (Hq : Ascii.eqb q backslash = false) : mask1 q [] = [].
Proof.
  exact (@re_sub_nil _ _ (match_here_literal not_newline q Hq)
                     (@literal_len_bound not_newline q) _).
Qed.

Lemma mask1_plain q (Hq : Ascii.eqb q backslash = false) c s :
  literal_len not_newline q (c :: s) = None ->
  mask1 q (c :: s) = c :: mask1 q s.
Proof.
  exact (@re_sub_plain _ _ (match_here_literal not_newline q Hq) _ c s).
Qed.

Lemma mask1_token q (Hq : Ascii.eqb q backslash = false) s n :
  literal_len not_newline q s = Some n ->
  mask1 q s = [q; q] ++ mask1 q (skipn n s).
Proof.
  exact (@re_sub_token _ _ (match_here_literal not_newline q Hq)
                       (@literal_len_bound not_newline q) _ s n).
Qed.

Lemma mask1_ind q (P : text -> Prop) :
  P [] ->
  (forall c s, literal_len not_newline q (c :: s) = None -> P s -> P (c :: s)) ->
  (forall s n, literal_len not_newline q s = Some n ->
               P (skipn n s) -> P s) ->
  forall s, P s.
Proof. exact (@token_ind _ (@literal_len_bound not_newline q) P). Qed.

(** A line that is one literal of this quote is masked to two quotes. *)
Lemma mask1_whole q (Hq : Ascii.eqb q backslash = false) s :
  literal_len not_newline q s = Some (length s) -> mask1 q s = [q; q].
Proof.
  intro H. rewrite (@mask1_token q Hq _ _ H), skipn_all, (@mask1_nil q Hq).
  reflexivity.
Qed.

(** The automaton at the end of a piece whose last character is not the
    quote, or not the backslash. *)
Lemma lit_chunk_last_closed dot q x u : forall esc k,
  Ascii.eqb x q = false ->
  lit_chunk dot q esc (u ++ [x]) = Closed k -> k <= length u.
Proof.
  induction u as [|c u IH]; intros esc k Hx H.
  - simpl in H. rewrite Hx in H.
    destruct esc; [destruct (dot x)|destruct (Ascii.eqb x backslash)];
      discriminate.
  - cbn [app lit_chunk] in H.
    assert (forall e, bump (lit_chunk dot q e (u ++ [x])) = Closed k ->
                      k <= length (c :: u)) as Hb.
    { intros e He. destruct (lit_chunk dot q e (u ++ [x])) as [j| |] eqn:Ej;
        try discriminate.
      injection He as <-. apply IH in Ej; [simpl; lia|exact Hx]. }
    destruct esc.
    + destruct (dot c); [eauto|discriminate].
    + destruct (Ascii.eqb c backslash); [eauto|].
      destruct (Ascii.eqb c q); [|eauto].
      injection H as <-. simpl. lia.
Qed.

Lemma lit_chunk_last_open dot q x u : forall esc e,
  Ascii.eqb x backslash = false ->
  lit_chunk dot q esc (u ++ [x]) = Open e -> e = false.
Proof.
  induction u as [|c u IH]; intros esc e Hx H.
  - simpl in H. rewrite Hx in H.
    destruct esc; [destruct (dot x)|destruct (Ascii.eqb x q)];
      simpl in H; congruence.
  - cbn [app lit_chunk] in H.
    assert (forall e', bump (lit_chunk dot q e' (u ++ [x])) = Open e ->
                       e = false) as Hb.
    { intros e' He. apply bump_open in He. exact (IH _ _ Hx He). }
    destruct esc.
    + destruct (dot c); [eauto|discriminate].
    + destruct (Ascii.eqb c backslash); [eauto|].
      destruct (Ascii.eqb c q); [discriminate|eauto].
Qed.

(** A literal token of the quote ends with the quote. *)
Lemma literal_len_last dot q s n :
  literal_len dot q s = Some n -> exists u, firstn n s = u ++ [q].
Proof.
  destruct s as [|c t]; simpl; [discriminate|].
  destruct (Ascii.eqb c q); [|discriminate].
  destruct (lit_scan dot q false t) as [m|] eqn:E; [|discriminate].
  intro H. injection H as <-. destruct (lit_scan_last _ _ _ _ E) as [u Hu].
  exists (c :: u). simpl. rewrite Hu. reflexivity.
Qed.

Lemma option_map_S_some (o : option nat) n :
  option_map S o = Some (S n) -> o = Some n.
Proof. destruct o; simpl; intro H; congruence. Qed.

(** Masking the single-quoted literals inside a double-quoted literal
    leaves a double-quoted literal: the automaton of the double quote, run
    to the end of the text, still closes on the last character. *)
Lemma mask1_keeps_literal : forall s esc,
  lit_scan not_newline dquote esc s = Some (length s) ->
  lit_scan not_newline dquote esc (mask1 squote s)
  = Some (length (mask1 squote s)).
Proof.
  induction s as [|c s E IH|s n E IH] using (@mask1_ind squote);
    intros esc H.
  - discriminate.
  - rewrite (@mask1_plain squote eq_refl _ _ E).
    cbn [lit_scan length] in H |- *.
    destruct esc.
    + destruct (not_newline c); [|discriminate].
      apply option_map_S_some in H. rewrite (IH _ H). reflexivity.
    + destruct (Ascii.eqb c backslash).
      * apply option_map_S_some in H. rewrite (IH _ H). reflexivity.
      * destruct (Ascii.eqb c dquote).
        -- injection H as H. destruct s; [|discriminate].
           rewrite (@mask1_nil squote eq_refl). reflexivity.
        -- apply option_map_S_some in H. rewrite (IH _ H). reflexivity.
  - rewrite (@mask1_token squote eq_refl _ _ E).
    destruct (literal_len_last _ _ _ E) as [u Hu].
    pose proof (literal_len_le _ _ _ E) as B.
    assert (length (firstn n s) = n) as Hl by (rewrite length_firstn; lia).
    rewrite <- (firstn_skipn n s) in H.
    rewrite lit_scan_app, length_app, Hl in H. rewrite Hu in H.
    destruct (lit_chunk not_newline dquote esc (u ++ [squote]))
      as [k| |e] eqn:Ec; [| discriminate |].
    + apply lit_chunk_last_closed in Ec; [|reflexivity].
      injection H as H. rewrite <- Hl, Hu, length_app in H. simpl in H. lia.
    + apply lit_chunk_last_open in Ec; [|reflexivity]. subst e.
      assert (lit_scan not_newline dquote false (skipn n s)
              = Some (length (skipn n s))) as H'.
      { destruct (lit_scan not_newline dquote false (skipn n s)) as [j|];
          [|discriminate].
        simpl in H. injection H as H. f_equal. lia. }
      specialize (IH _ H').
      cbn [app lit_scan length].
      change (Ascii.eqb squote backslash) with false.
      change (Ascii.eqb squote dquote) with false.
      change (not_newline squote) with true.
      destruct esc; cbv iota; rewrite IH; reflexivity.
Qed.

(** A line that the literal pattern matches from end to end. *)
Lemma whole_literal q (Hq : Ascii.eqb q backslash = false) line :
  option_map group0 (match_here (literal not_newline q) (start_state line))
  = Some line ->
  literal_len not_newline q line = Some (length line).
Proof.
  unfold start_state. rewrite match_here_literal by exact Hq.
  destruct (literal_len not_newline q line) as [n|] eqn:E; [|discriminate].
  simpl. intro H. injection H as H. f_equal.
  apply literal_len_le in E.
  assert (length (firstn n line) = length line) as Hl by (rewrite H; reflexivity).
  rewrite length_firstn in Hl. lia.
Qed.

Lemma mask_strings_literal q line :
  q = squote \/ q = dquote ->
  literal_len not_newline q line = Some (length line) ->
  mask_strings line = [q; q].
Proof.
  intros [-> | ->] H; rewrite mask_strings_mask1.
  - rewrite (@mask1_whole squote eq_refl _ H). reflexivity.
  - destruct line as [|c t]; [discriminate|].
    unfold literal_len in H.
    destruct (Ascii.eqb c dquote) eqn:Ec; [|discriminate].
    apply Ascii.eqb_eq in Ec. subst c.
    cbn [length] in H. apply option_map_S_some in H.
    rewrite (@mask1_plain squote eq_refl dquote t eq_refl).
    apply (@mask1_whole dquote eq_refl).
    unfold literal_len. change (Ascii.eqb dquote dquote) with true. cbv iota.
    rewrite (mask1_keeps_literal _ _ H). reflexivity.
Qed.

(** C8: a line that is one string literal, whatever braces it holds, is
    masked to its two quotes; it counts no brace either way, and a round of
    the extractor on it leaves the brace balance as it was. *)
Theorem literal_line_keeps_balance (q : ascii) (line : text) :
  q = squote \/ q = dquote ->
  option_map group0 (match_here (literal not_newline q) (start_state line))
  = Some line ->
  mask_strings line = [q; q]
  /\ open_count line = 0
  /\ close_count line = 0
  /\ forall i st, brace_balance (step i line st) = brace_balance st.
Proof.
  intros Hq Hm.
  assert (mask_strings line = [q; q]) as Hmask.
  { apply mask_strings_literal; [exact Hq|].
    apply whole_literal; [|exact Hm]. destruct Hq as [-> | ->]; reflexivity. }
  assert (open_count line = 0 /\ close_count line = 0) as [Ho Hc].
  { unfold open_count, close_count. rewrite Hmask.
    destruct Hq as [-> | ->]; split; reflexivity. }
  repeat split; try assumption.
  intros i st. unfold step.
  assert (enter i line st = st) as He.
  { destruct (in_function st) eqn:Ei; [apply enter_inside; exact Ei|].
    destruct (enter_outside i line st Ei) as [Hs|[m [Hlt _]]]; [exact Hs|lia]. }
  rewrite He. unfold consume.
  fold (open_count line). fold (close_count line). rewrite Ho, Hc.
  destruct (in_function st); [|reflexivity].
  replace (brace_balance st + Z.of_nat 0 - Z.of_nat 0)%Z
    with (brace_balance st) by lia.
  destruct (_ =? _)%Z; reflexivity.
Qed.

(** ** Counting words *)

Lemma forward_before_rest n : forall st,
  n <= length (rest st) ->
  before (forward n st)
  = last_opt (firstn n (rest st)) (before st).
Proof.
  induction n as [|n IH]; intros st H; [reflexivity|].
  simpl forward. destruct (rest st) as [|a t] eqn:E; [simpl in H; lia|].
  simpl in H. rewrite IH by (simpl; lia). simpl rest. simpl before.
  unfold last_opt. simpl firstn. simpl rev.
  destruct (rev (firstn n t)) as [|c r] eqn:Er; reflexivity.
Qed.

Lemma starts_with_firstn w : forall s,
  starts_with w s = true -> firstn (length w) s = w /\ length w <= length s.
Proof.
  induction w as [|a w IH]; intros s H; [split; [reflexivity|simpl; lia]|].
  destruct s as [|b s]; [discriminate|]. simpl in H.
  apply andb_prop in H as [H1 H2]. apply Ascii.eqb_eq in H1. subst b.
  destruct (IH _ H2) as [I1 I2]. simpl. rewrite I1. split; [reflexivity|lia].
Qed.

Lemma rmatch_lit (A : Type) w (k : mstate -> option A) : forall st,
  rmatch (lit w) k st
  = if starts_with w (rest st) then k (forward (length w) st) else None.
Proof.
  induction w as [|a w IH]; intros st; [reflexivity|].
  cbn [lit]. rewrite rmatch_seq, rmatch_chr. cbn [starts_with].
  destruct (rest st) as [|b t] eqn:E; [reflexivity|].
  unfold is_char. rewrite (Ascii.eqb_sym b a).
  destruct (Ascii.eqb a b); simpl andb; cbv iota; [|reflexivity].
  rewrite IH. simpl rest. simpl forward. rewrite E. reflexivity.
Qed.

Lemma rmatch_wordb (A : Type) (k : mstate -> option A) st :
  rmatch WordB k st = if at_word_boundary st then k st else None.
Proof. reflexivity. Qed.

Lemma match_here_word w b s p :
  match_here (word_pattern w) (MState b s p [])
  = if word_at w b s then Some (ReMatch w []) else None.
Proof.
  unfold match_here, word_pattern. cbn [seqs].
  rewrite rmatch_seq, rmatch_wordb, rmatch_seq, rmatch_lit, rmatch_wordb.
  unfold word_at, at_word_boundary at 1, word_before, word_after.
  simpl before. simpl rest.
  fold (word_opt b). fold (head_word s).
  destruct (xorb (word_opt b) (head_word s)); [|reflexivity].
  destruct (starts_with w s) eqn:Ew; [|reflexivity].
  destruct (starts_with_firstn _ _ Ew) as [Hf Hl].
  unfold at_word_boundary, word_before, word_after.
  rewrite forward_before_rest, forward_rest by (simpl; exact Hl).
  simpl rest. simpl before. rewrite Hf.
  fold (word_opt (last_opt w b)). fold (head_word (skipn (length w) s)).
  simpl andb.
  destruct (xorb _ _); [|reflexivity].
  rewrite forward_pos, forward_groups by (simpl; exact Hl).
  simpl. replace (p + length w - p) with (length w) by lia.
  rewrite Hf. reflexivity.
Qed.

Lemma scan_word_count w : forall s skip b p,
  length (filter is_matched (scan (word_pattern w) b p s skip))
  = wcount w b s skip.
Proof.
  induction s as [|a t IH]; intros skip b p.
  - destruct skip; [|reflexivity]. simpl. rewrite match_here_word.
    destruct (word_at w b []); reflexivity.
  - destruct skip as [|n]; [|simpl; apply IH].
    cbn [scan wcount]. rewrite match_here_word.
    destruct (word_at w b (a :: t)); [|simpl; apply IH].
    cbn [group0 filter is_matched length].
    destruct w as [|c w]; simpl; rewrite ?Nat.sub_0_r, IH; reflexivity.
Qed.

Lemma findall_count_word w s :
  findall_count (word_pattern w) s = wcount w None s 0.
Proof. unfold findall_count, segments. apply scan_word_count. Qed.

Lemma starts_with_cons a w b s :
  starts_with (a :: w) (b :: s) = true -> b = a /\ starts_with w s = true.
Proof.
  simpl. intro H. apply andb_prop in H as [H1 H2].
  apply Ascii.eqb_eq in H1. auto.
Qed.

(** Where [\belse if\b] matches, [\bif\b] matches five characters on. *)
Lemma else_if_has_if b s :
  word_at (T "else if") b s = true ->
  exists s', s = T "else " ++ s' /\ word_at (T "if") (Some " "%char) s' = true.
Proof.
  unfold word_at at 1. intro H.
  apply andb_prop in H as [H H3]. apply andb_prop in H as [_ H2].
  destruct s as [|c1 s]; [discriminate|].
  apply starts_with_cons in H2 as [-> H2].
  destruct s as [|c2 s]; [discriminate|].
  apply starts_with_cons in H2 as [-> H2].
  destruct s as [|c3 s]; [discriminate|].
  apply starts_with_cons in H2 as [-> H2].
  destruct s as [|c4 s]; [discriminate|].
  apply starts_with_cons in H2 as [-> H2].
  destruct s as [|c5 s]; [discriminate|].
  apply starts_with_cons in H2 as [-> H2].
  destruct s as [|c6 s]; [discriminate|].
  apply starts_with_cons in H2 as [-> H2].
  destruct s as [|c7 s]; [discriminate|].
  apply starts_with_cons in H2 as [-> H2].
  exists ("i"%char :: "f"%char :: s). split; [reflexivity|].
  unfold word_at. simpl in H3 |- *. exact H3.
Qed.

Lemma word_at_starts w b s :
  word_at w b s = true -> starts_with w s = true.
Proof.
  unfold word_at. intro H. apply andb_prop in H as [H _].
  apply andb_prop in H as [_ H]. exact H.
Qed.

Lemma word_at_not_starts w b s :
  starts_with w s = false -> word_at w b s = false.
Proof.
  unfold word_at. intros ->. rewrite andb_false_r. reflexivity.
Qed.

Ltac drop_word_at :=
  repeat match goal with
         | |- context [word_at ?w ?b ?s] =>
             rewrite (@word_at_not_starts w b s eq_refl)
         end.

(** Every match of [\belse if\b] comes with one of [\bif\b]. *)
Lemma wcount_else_if_le s : forall b,
  wcount (T "else if") b s 0 <= wcount (T "if") b s 0.
Proof.
  remember (length s) as m eqn:Hm. revert s Hm.
  induction m as [m IH] using lt_wf_ind. intros s Hm b.
  destruct s as [|a t].
  - simpl. drop_word_at. lia.
  - cbn [wcount].
    destruct (word_at (T "else if") b (a :: t)) eqn:E.
    + destruct (else_if_has_if _ _ E) as [s' [Hs Hi]].
      pose proof (word_at_starts _ _ _ Hi) as Hw.
      destruct s' as [|i s']; [discriminate|].
      apply starts_with_cons in Hw as [-> Hw].
      destruct s' as [|f s']; [discriminate|].
      apply starts_with_cons in Hw as [-> _].
      simpl in Hs. injection Hs as -> ->.
      drop_word_at.
      simpl length. simpl Nat.sub. cbn [wcount].
      drop_word_at. rewrite Hi. cbn [wcount length Nat.sub].
      apply le_n_S. apply (IH (length s')); [|reflexivity].
      subst m. simpl. lia.
    + destruct (word_at (T "if") b (a :: t)) eqn:Ei.
      * pose proof (word_at_starts _ _ _ Ei) as Hw.
        destruct t as [|f t]; [simpl in Hw; rewrite andb_false_r in Hw;
                               discriminate|].
        apply starts_with_cons in Hw as [-> Hw].
        apply starts_with_cons in Hw as [-> _].
        simpl length. simpl Nat.sub. cbn [wcount].
        drop_word_at.
        apply le_S. apply (IH (length t)); [|reflexivity].
        subst m. simpl. lia.
      * apply (IH (length t)); [|reflexivity]. subst m. simpl. lia.
Qed.

(** C6: a body that is a single [else if] scores 3, the base plus one for
    the pattern of [if] and one for the pattern of [else if]; and in every
    text each match of [else if] holds a match of [if], so that it adds two
    to the score. *)
Theorem else_if_counts_twice :
  findall_count (word_pattern (T "else if")) (T "else if") = 1
  /\ findall_count (word_pattern (T "if")) (T "else if") = 1
  /\ calculate_complexity (T "else if") = 1 + 2
  /\ forall txt,
       findall_count (word_pattern (T "else if")) txt
       <= findall_count (word_pattern (T "if")) txt
       /\ 1 + 2 * findall_count (word_pattern (T "else if")) txt
          <= calculate_complexity txt.
Proof.
  split; [reflexivity|]. split; [reflexivity|]. split; [reflexivity|].
  intro txt.
  assert (findall_count (word_pattern (T "else if")) txt
          <= findall_count (word_pattern (T "if")) txt) as H
    by (rewrite !findall_count_word; apply wcount_else_if_le).
  split; [exact H|].
  rewrite calculate_complexity_sum.
  unfold keywords, operators. cbn [app map list_sum fold_right]. lia.
Qed.

(** The regions come in the order of the file: each starts after the one
    before it. *)
Lemma regions_from_sorted lines : forall i st,
  (in_function st = true -> func_start_line st < i) ->
  StronglySorted lt (map r_start (regions_from i lines st)).
Proof.
  induction lines as [|l ls IH]; intros i st Hinv; simpl; [constructor|].
  assert (in_function (step i l st) = true ->
          func_start_line (step i l st) < S i) as Hinv'.
  { intro Hs. apply step_start_bound; [exact Hinv|].
    unfold step in Hs. apply consume_inside in Hs. exact Hs. }
  specialize (IH (S i) (step i l st) Hinv').
  unfold completes.
  destruct (in_function (enter i l st)) eqn:He; simpl; [|exact IH].
  destruct (in_function (step i l st)) eqn:Hs; simpl; [exact IH|].
  constructor; [exact IH|].
  apply Forall_forall. intros x Hx. apply in_map_iff in Hx as [r [<- Hr]].
  pose proof (@step_start_bound i l st Hinv He) as Hb.
  destruct (@regions_from_start _ _ _ _ Hr) as [[H1 _]|[H1 _]];
    [congruence|lia].
Qed.

Lemma regions_sorted txt : StronglySorted lt (map r_start (regions txt)).
Proof. apply regions_from_sorted. discriminate. Qed.

(** C4: the violations of a file are the file-level line, if any, then the
    lines of the regions in the order of extraction, which is the order of
    the file, and for each region its LOC line, if any, before its
    complexity line, if any. *)
Theorem violations_order (filepath content : text) :
  let clean := remove_comments content in
  file_violations filepath content
  = (if MAX_FILE_LOC <? count_file_loc clean
     then [file_loc_message (count_file_loc clean)] else [])
    ++ flat_map
         (fun r =>
            (if MAX_FUNC_LOC <? region_loc r
             then [loc_message (r_name r) (r_start r) (region_loc r)]
             else [])
            ++ (if MAX_COMPLEXITY <? region_complexity r
                then [complexity_message (r_name r) (r_start r)
                                         (region_complexity r)]
                else []))
         (regions clean)
  /\ StronglySorted lt (map r_start (regions clean)).
Proof.
  split; [|apply regions_sorted].
  unfold file_violations. cbv zeta.
  rewrite analyze_functions_regions.
  destruct (MAX_FILE_LOC <? _); reflexivity.
Qed.

(** ** The matcher finds matches only *)

Lemma star_loop_sound (A : Type) g r (k : mstate -> option A)
      (IHr : forall (k' : mstate -> option A) st x,
          rmatch r k' st = Some x ->
          exists st', matches r st st' /\ k' st' = Some x) :
  forall fuel st x,
    star_loop g r k fuel st = Some x ->
    exists st', matches (Star g r) st st' /\ k st' = Some x.
Proof.
  induction fuel as [|fuel IH]; intros st x H.
  - exists st. split; [constructor|exact H].
  - cbn [star_loop] in H.
    assert (forall y,
      rmatch r (fun st' => if pos st <? pos st'
                           then star_loop g r k fuel st' else None) st
      = Some y ->
      exists st', matches (Star g r) st st' /\ k st' = Some y) as Hround.
    { intros y Hy. apply IHr in Hy as [st1 [M1 H1]].
      destruct (pos st <? pos st1); [|discriminate].
      apply IH in H1 as [st2 [M2 H2]].
      exists st2. split; [econstructor; eassumption|exact H2]. }
    destruct g.
    + destruct (rmatch r _ st) as [y|] eqn:E.
      * injection H as <-. exact (Hround y eq_refl).
      * exists st. split; [constructor|exact H].
    + destruct (k st) as [y|] eqn:E.
      * injection H as <-. exists st. split; [constructor|exact E].
      * apply Hround. exact H.
Qed.

Lemma rmatch_sound (A : Type) r :
  forall (k : mstate -> option A) st x,
    rmatch r k st = Some x ->
    exists st', matches r st st' /\ k st' = Some x.
Proof.
  induction r as [|p|r1 IH1 r2 IH2|r1 IH1 r2 IH2|g r1 IH1|n r1 IH1|m|m|];
    intros k st x H.
  - exists st. split; [constructor|exact H].
  - rewrite rmatch_chr in H. destruct (rest st) as [|a t] eqn:E; [discriminate|].
    destruct (p a) eqn:Ep; [|discriminate].
    exists (advance a t st). split; [constructor; assumption|exact H].
  - rewrite rmatch_seq in H. apply IH1 in H as [st1 [M1 H]].
    apply IH2 in H as [st2 [M2 H]].
    exists st2. split; [econstructor; eassumption|exact H].
  - rewrite rmatch_alt in H. destruct (rmatch r1 k st) as [y|] eqn:E.
    + injection H as <-. apply IH1 in E as [st1 [M1 H]].
      exists st1. split; [apply m_alt_l; exact M1|exact H].
    + apply IH2 in H as [st2 [M2 H]].
      exists st2. split; [apply m_alt_r; exact M2|exact H].
  - rewrite rmatch_star in H. exact (@star_loop_sound A g r1 k IH1 _ _ _ H).
  - simpl in H. apply IH1 in H as [st1 [M1 H]].
    exists (capture n st st1). split; [constructor; exact M1|exact H].
  - simpl in H. destruct (at_bol m st) eqn:E; [|discriminate].
    exists st. split; [constructor; exact E|exact H].
  - simpl in H. destruct (at_eol m st) eqn:E; [|discriminate].
    exists st. split; [constructor; exact E|exact H].
  - simpl in H. destruct (at_word_boundary st) eqn:E; [|discriminate].
    exists st. split; [constructor; exact E|exact H].
Qed.

(** A match object comes from a match. *)
Lemma match_here_sound r st m :
  match_here r st = Some m ->
  exists e, matches r st e /\ mgroups m = groups e.
Proof.
  unfold match_here. destruct (rmatch r _ st) as [e|] eqn:E; [|discriminate].
  intro H. injection H as <-. apply rmatch_sound in E as [e' [M H]].
  injection H as ->. exists e. split; [exact M|reflexivity].
Qed.

Lemma skipn_cons (l : text) : forall n a t,
  skipn n l = a :: t ->
  skipn (S n) l = t /\ n < length l /\ nth_error l n = Some a.
Proof.
  induction l as [|c l IH]; intros n a t H.
  - destruct n; discriminate.
  - destruct n as [|n].
    + simpl in H. injection H as -> ->. simpl. repeat split. lia.
    + simpl in H. destruct (IH _ _ _ H) as [H1 [H2 H3]].
      simpl. repeat split; [exact H1|lia|exact H3].
Qed.

(** A match moves forward inside the subject. *)
Lemma matches_inside line r st st' :
  matches r st st' -> inside line st -> inside line st' /\ pos st <= pos st'.
Proof.
  induction 1 as [st|p a t st E Hp|r1 r2 st st1 st2 M1 IH1 M2 IH2
                  |r1 r2 st st1 M IH|r1 r2 st st2 M IH|g r st
                  |g r st st1 st2 M1 IH1 M2 IH2|n r st st1 M IH
                  |m st Hb|m st Hb|st Hb]; intro Hin; auto.
  - destruct Hin as [Hr Hl]. rewrite E in Hr. symmetry in Hr.
    destruct (skipn_cons _ _ Hr) as [H1 [H2 _]].
    unfold inside. simpl. repeat split; [symmetry; exact H1|lia|lia].
  - destruct (IH1 Hin) as [H1 L1]. destruct (IH2 H1) as [H2 L2].
    split; [exact H2|lia].
  - destruct (IH1 Hin) as [H1 L1]. destruct (IH2 H1) as [H2 L2].
    split; [exact H2|lia].
Qed.

(** Groups outside a pattern are left as they are. *)
Lemma matches_groups n r st st' :
  matches r st st' -> has_group n r = false ->
  assoc n (groups st') = assoc n (groups st).
Proof.
  induction 1 as [st|p a t st E Hp|r1 r2 st st1 st2 M1 IH1 M2 IH2
                  |r1 r2 st st1 M IH|r1 r2 st st2 M IH|g r st
                  |g r st st1 st2 M1 IH1 M2 IH2|m r st st1 M IH
                  |m st Hb|m st Hb|st Hb]; intro Hg; simpl in Hg; auto.
  - apply orb_false_elim in Hg as [G1 G2]. rewrite IH2, IH1; auto.
  - apply orb_false_elim in Hg as [G1 G2]. auto.
  - apply orb_false_elim in Hg as [G1 G2]. auto.
  - rewrite IH2, IH1; auto.
  - apply orb_false_elim in Hg as [G1 G2]. simpl. rewrite G1. auto.
Qed.

(** *** Matches of the pieces of [func_def_pattern] *)

Lemma matches_seq_inv r1 r2 st st2 :
  matches (Seq r1 r2) st st2 ->
  exists st1, matches r1 st st1 /\ matches r2 st1 st2.
Proof. inversion 1; subst. eauto. Qed.

Lemma matches_alt_inv r1 r2 st st' :
  matches (Alt r1 r2) st st' -> matches r1 st st' \/ matches r2 st st'.
Proof. inversion 1; subst; auto. Qed.

Lemma matches_group_inv n r st st' :
  matches (Group n r) st st' ->
  exists st1, matches r st st1 /\ st' = capture n st st1.
Proof. inversion 1; subst. eauto. Qed.

Lemma matches_eps_inv st st' : matches Eps st st' -> st' = st.
Proof. inversion 1; subst. reflexivity. Qed.

Lemma matches_chr_at line p st st' :
  matches (Chr p) st st' -> inside line st ->
  inside line st' /\ pos st' = S (pos st) /\ groups st' = groups st
  /\ exists ch, nth_error line (pos st) = Some ch /\ p ch = true.
Proof.
  intros M Hin. destruct (matches_inside M Hin) as [Hin' _].
  inversion M as [|p' a t st0 E Hp| | | | | | | | |]; subst.
  split; [exact Hin'|]. simpl. repeat split.
  destruct Hin as [Hr _]. rewrite E in Hr. symmetry in Hr.
  destruct (skipn_cons _ _ Hr) as [_ [_ Hn]]. eauto.
Qed.

Lemma matches_star_chr line g p st st' :
  matches (Star g (Chr p)) st st' -> inside line st ->
  inside line st' /\ groups st' = groups st
  /\ span p line (pos st) (pos st').
Proof.
  intro M. remember (Star g (Chr p)) as r eqn:Er. revert Er.
  induction M as [| | | | |g' r' st
                  |g' r' st st1 st2 M1 _ M2 IH2| | | |].
  all: intros Er Hin; try discriminate Er.
  - split; [exact Hin|]. split; [reflexivity|]. split; [lia|].
    intros x Hx. lia.
  - injection Er as -> ->.
    destruct (matches_chr_at M1 Hin) as [Hin1 [Hp [Hg [ch [Hn Hc]]]]].
    destruct (IH2 eq_refl Hin1) as [Hin2 [Hg2 [Hle Hs]]].
    split; [exact Hin2|]. split; [congruence|]. split; [lia|].
    intros x Hx. destruct (Nat.eq_dec x (pos st)) as [->|Hne]; [eauto|].
    apply Hs. lia.
Qed.

Lemma matches_plus_chr line p st st' :
  matches (Plus (Chr p)) st st' -> inside line st ->
  inside line st' /\ groups st' = groups st
  /\ pos st < pos st' /\ span p line (pos st) (pos st').
Proof.
  unfold Plus. intros M Hin.
  apply matches_seq_inv in M as [st1 [M1 M2]].
  destruct (matches_chr_at M1 Hin) as [Hin1 [Hp [Hg [ch [Hn Hc]]]]].
  destruct (matches_star_chr M2 Hin1) as [Hin2 [Hg2 [Hle Hs]]].
  split; [exact Hin2|]. split; [congruence|]. split; [lia|]. split; [lia|].
  intros x Hx. destruct (Nat.eq_dec x (pos st)) as [->|Hne]; [eauto|].
  apply Hs. lia.
Qed.

(** The character classes of the pattern, one against the other. *)
Lemma space_not_word ch : is_space ch = true -> is_word ch = false.
Proof.
  destruct ch as [[] [] [] [] [] [] [] []]; vm_compute; congruence.
Qed.

Lemma space_not_type ch : is_space ch = true -> type_char ch = false.
Proof.
  destruct ch as [[] [] [] [] [] [] [] []]; vm_compute; congruence.
Qed.

Lemma word_is_type ch : is_word ch = true -> type_char ch = true.
Proof. unfold type_char. intros ->. reflexivity. Qed.

(** *** A line headed by a keyword

    The line is cut at [a], [t], [u], [b] and [c]: blanks up to [a], then
    up to [t] an optional token of type characters and up to [u] the blanks
    after it (both missing when [t = u = a]), the word from [u] to [b],
    blanks up to [c], and a parenthesis at [c]. *)

Section KeywordLine.

Variable line : text.
Variables a t u b c : nat.

Hypothesis Hsp0 : span is_space line 0 a.
Hypothesis Htok : span type_char line a t.
Hypothesis Hsp1 : span is_space line t u.
Hypothesis Hkw : span is_word line u b.
Hypothesis Hsp2 : span is_space line b c.
Hypothesis Hlp : nth_error line c = Some "("%char.
Hypothesis Hne : u < b.
Hypothesis Hpre : (t = a /\ u = a) \/ (a < t /\ t < u).

Lemma cuts_ordered : a <= t /\ t <= u /\ u <= b /\ b <= c.
Proof.
  destruct Htok, Hsp1, Hkw, Hsp2. auto.
Qed.

Lemma space_at x :
  (exists ch, nth_error line x = Some ch /\ is_space ch = true) ->
  x < a \/ (t <= x < u) \/ (b <= x < c) \/ c < x.
Proof.
  intros [ch [Hn Hs]].
  destruct (lt_dec x a); [auto|].
  destruct (lt_dec x t).
  { destruct (proj2 Htok x) as [ch' [Hn' Hc]]; [lia|].
    rewrite Hn in Hn'. injection Hn' as <-.
    rewrite (space_not_type _ Hs) in Hc. discriminate. }
  destruct (lt_dec x u); [right; left; lia|].
  destruct (lt_dec x b).
  { destruct (proj2 Hkw x) as [ch' [Hn' Hc]]; [lia|].
    rewrite Hn in Hn'. injection Hn' as <-.
    rewrite (space_not_word _ Hs) in Hc. discriminate. }
  destruct (lt_dec x c); [right; right; left; lia|].
  destruct (Nat.eq_dec x c) as [->|]; [|right; right; right; lia].
  rewrite Hlp in Hn. injection Hn as <-. discriminate.
Qed.

Lemma type_at x :
  (exists ch, nth_error line x = Some ch /\ type_char ch = true) ->
  (a <= x < t) \/ (u <= x < b) \/ c < x.
Proof.
  intros [ch [Hn Hs]].
  assert (forall i j, span is_space line i j -> i <= x < j -> False) as Hsp.
  { intros i j Hspan Hx. destruct (proj2 Hspan x Hx) as [ch' [Hn' Hc]].
    rewrite Hn in Hn'. injection Hn' as <-.
    rewrite (space_not_type _ Hc) in Hs. discriminate. }
  destruct (lt_dec x a); [exfalso; apply (Hsp _ _ Hsp0); lia|].
  destruct (lt_dec x t); [left; lia|].
  destruct (lt_dec x u); [exfalso; apply (Hsp _ _ Hsp1); lia|].
  destruct (lt_dec x b); [right; left; lia|].
  destruct (lt_dec x c); [exfalso; apply (Hsp _ _ Hsp2); lia|].
  destruct (Nat.eq_dec x c) as [->|]; [|right; right; lia].
  rewrite Hlp in Hn. injection Hn as <-. discriminate.
Qed.

Lemma word_at_pos x :
  (exists ch, nth_error line x = Some ch /\ is_word ch = true) ->
  (a <= x < t) \/ (u <= x < b) \/ c < x.
Proof.
  intros [ch [Hn Hs]]. apply type_at. exists ch. split; [exact Hn|].
  apply word_is_type. exact Hs.
Qed.

Lemma paren_at x : nth_error line x = Some "("%char -> c <= x.
Proof.
  intro Hn.
  destruct (le_dec c x); [assumption|exfalso].
  destruct (lt_dec x u).
  - assert (x < a \/ (a <= x < t) \/ (t <= x < u)) as [H|[H|H]] by lia.
    + destruct (proj2 Hsp0 x) as [ch [Hn' Hc]]; [lia|].
      rewrite Hn in Hn'. injection Hn' as <-. discriminate.
    + destruct (proj2 Htok x H) as [ch [Hn' Hc]].
      rewrite Hn in Hn'. injection Hn' as <-. discriminate.
    + destruct (proj2 Hsp1 x H) as [ch [Hn' Hc]].
      rewrite Hn in Hn'. injection Hn' as <-. discriminate.
  - assert ((u <= x < b) \/ (b <= x < c)) as [H|H] by lia.
    + destruct (proj2 Hkw x H) as [ch [Hn' Hc]].
      rewrite Hn in Hn'. injection Hn' as <-. discriminate.
    + destruct (proj2 Hsp2 x H) as [ch [Hn' Hc]].
      rewrite Hn in Hn'. injection Hn' as <-. discriminate.
Qed.

(** What follows the name in the pattern: blanks and a parenthesis, and no
    group 3. *)
Lemma after_name st e :
  matches
    (seqs [Star true (Chr is_space);
           Chr (is_char "("%char);
           Star false (Chr not_newline);
           Chr (is_char ")"%char);
           Star true (Chr is_space);
           Opt (Group 4 (Seq (lit (T "async")) (Star true (Chr is_space))));
           Chr (is_char "{"%char)]) st e ->
  inside line st ->
  assoc 3 (groups e) = assoc 3 (groups st)
  /\ exists p4, span is_space line (pos st) p4
                /\ nth_error line p4 = Some "("%char.
Proof.
  intros M Hin. split.
  - apply (matches_groups 3 M). reflexivity.
  - cbn [seqs] in M.
    apply matches_seq_inv in M as [st4 [M4 M]].
    apply matches_seq_inv in M as [st5 [M5 _]].
    destruct (matches_star_chr M4 Hin) as [Hin4 [_ Hs4]].
    destruct (matches_chr_at M5 Hin4) as [_ [_ [_ [ch [Hn Hc]]]]].
    exists (pos st4). split; [exact Hs4|].
    unfold is_char in Hc. apply Ascii.eqb_eq in Hc. subst ch. exact Hn.
Qed.

(** The name ends where the word ends. *)
Lemma name_end p3 p4 :
  u < p3 -> p3 <= b ->
  span is_space line p3 p4 -> nth_error line p4 = Some "("%char ->
  p3 = b.
Proof.
  intros H1 H2 [Hle Hs] Hn. apply paren_at in Hn.
  pose proof cuts_ordered as Ho.
  destruct (Nat.eq_dec p3 b) as [|Hneq]; [assumption|exfalso].
  destruct (@space_at _ (Hs p3 ltac:(lia))) as [H|[H|[H|H]]]; lia.
Qed.

Lemma keyword_line_group e :
  matches func_def_pattern (start_state line) e ->
  assoc 3 (groups e) = Some (firstn (b - u) (skipn u line)).
Proof.
  intro M. unfold func_def_pattern in M. cbn [seqs] in M.
  pose proof cuts_ordered as Ho.
  assert (inside line (start_state line)) as Hin0
    by (split; [reflexivity|simpl; lia]).
  apply matches_seq_inv in M as [s0 [M0 M]].
  inversion M0; subst. clear M0.
  apply matches_seq_inv in M as [s1 [M1 M]].
  destruct (matches_star_chr M1 Hin0) as [Hin1 [_ [_ Hs1]]].
  simpl pos in Hs1.
  assert (pos s1 <= a) as Hp1.
  { destruct (le_dec (pos s1) a); [assumption|exfalso].
    destruct (@space_at _ (Hs1 a ltac:(lia))) as [H|[H|[H|H]]]; lia. }
  apply matches_seq_inv in M as [s2 [M2 M]].
  apply matches_seq_inv in M as [s3 [M3 M]].
  apply matches_group_inv in M3 as [s3' [M3 ->]].
  assert (inside line s2 ->
          pos s2 = u ->
          assoc 3 (groups e) = Some (firstn (b - u) (skipn u line))) as Hname.
  { intros Hin2 Hp2.
    destruct (matches_plus_chr M3 Hin2) as [Hin3 [_ [Hlt [_ Hs3]]]].
    assert (inside line (capture 3 s2 s3')) as Hin3' by exact Hin3.
    destruct (@after_name _ _ M Hin3') as [Hg [p4 [Hs4 Hn4]]].
    simpl pos in Hs4.
    assert (pos s3' <= b) as Hle3.
    { destruct (le_dec (pos s3') b); [assumption|exfalso].
      destruct (@word_at_pos _ (Hs3 b ltac:(lia))) as [H|[H|H]]; lia. }
    assert (pos s3' = b) as Hb
      by (apply (@name_end (pos s3') p4); [lia|lia|exact Hs4|exact Hn4]).
    rewrite Hg. simpl. rewrite Hb, Hp2. destruct Hin2 as [-> _].
    rewrite Hp2. reflexivity. }
  apply matches_alt_inv in M2 as [M2|M2].
  - apply matches_group_inv in M2 as [s2' [M2 ->]].
    apply matches_seq_inv in M2 as [sq [Mq M2]].
    apply matches_group_inv in Mq as [sq' [Mq ->]].
    destruct (matches_plus_chr Mq Hin1) as [Hinq [_ [Hltq [_ Hsq]]]].
    assert (inside line (capture 2 s1 sq')) as Hinq' by exact Hinq.
    destruct (matches_plus_chr M2 Hinq') as [Hin2 [_ [Hlt2 [_ Hs2]]]].
    simpl pos in Hlt2, Hs2.
    assert (pos s1 = a) as Ha.
    { destruct (@type_at _ (Hsq (pos s1) ltac:(lia))) as [H|[H|H]]; lia. }
    assert (inside line (capture 1 s1 s2')) as Hin2' by exact Hin2.
    destruct (matches_plus_chr M3 Hin2') as [_ [_ [Hlt3 [_ Hs3]]]].
    simpl pos in Hlt3, Hs3.
    pose proof Hpre as Hpre'. destruct Hpre' as [[Et Eu]|[Hat Htu]].
    + exfalso.
      assert (pos sq' <= b) as Hq.
      { destruct (le_dec (pos sq') b); [assumption|].
        destruct (@type_at _ (Hsq b ltac:(lia))) as [H|[H|H]]; lia. }
      destruct (@space_at _ (Hs2 (pos sq') ltac:(lia))) as [H|[H|[H|H]]];
        try lia.
      destruct (@word_at_pos _ (Hs3 (pos s2') ltac:(lia))) as [H'|[H'|H']];
        try lia.
      destruct (@space_at _ (Hs2 c ltac:(lia))) as [H''|[H''|[H''|H'']]]; lia.
    + assert (pos sq' = t) as Hq.
      { assert (pos sq' <= t) as Hq1.
        { destruct (le_dec (pos sq') t); [assumption|exfalso].
          destruct (@type_at _ (Hsq t ltac:(lia))) as [H|[H|H]]; lia. }
        destruct (@space_at _ (Hs2 (pos sq') ltac:(lia))) as [H|[H|[H|H]]];
          lia. }
      apply Hname; [exact Hin2'|]. simpl pos.
      assert (pos s2' <= u) as H2u.
      { destruct (le_dec (pos s2') u); [assumption|exfalso].
        destruct (@space_at _ (Hs2 u ltac:(lia))) as [H|[H|[H|H]]]; lia. }
      destruct (@word_at_pos _ (Hs3 (pos s2') ltac:(lia))) as [H|[H|H]];
        lia.
  - apply matches_eps_inv in M2. subst s2.
    destruct (matches_plus_chr M3 Hin1) as [Hin3 [_ [Hlt3 [_ Hs3]]]].
    assert (pos s1 = a) as Ha.
    { destruct (@word_at_pos _ (Hs3 (pos s1) ltac:(lia))) as [H|[H|H]]; lia. }
    pose proof Hpre as Hpre'. destruct Hpre' as [[Et Eu]|[Hat Htu]];
      [apply Hname; [assumption|lia]|].
    exfalso.
    assert (inside line (capture 3 s1 s3')) as Hin3' by exact Hin3.
    destruct (@after_name _ _ M Hin3') as [_ [p4 [[Hle4 Hs4] Hn4]]].
    simpl pos in Hle4, Hs4. apply paren_at in Hn4.
    assert (pos s3' <= t) as H3t.
    { destruct (le_dec (pos s3') t); [assumption|exfalso].
      destruct (@word_at_pos _ (Hs3 t ltac:(lia))) as [H|[H|H]]; lia. }
    destruct (@space_at _ (Hs4 u ltac:(lia))) as [H|[H|[H|H]]]; lia.
Qed.

End KeywordLine.

Lemma rmatch_bol (A : Type) m (k : mstate -> option A) st :
  rmatch (Bol m) k st = if at_bol m st then k st else None.
Proof. reflexivity. Qed.

(** The pattern is anchored: it matches at the start of the line only. *)
Lemma search_from_anchored s : forall c p,
  search_from func_def_pattern (Some c) p s = None.
Proof.
  assert (forall c p s', match_here func_def_pattern (MState (Some c) s' p [])
                         = None) as H.
  { intros c p s'. unfold match_here, func_def_pattern. cbn [seqs].
    rewrite rmatch_seq, rmatch_bol. reflexivity. }
  induction s as [|a s IH]; intros c p; cbn [search_from]; rewrite H;
    [reflexivity|].
  apply IH.
Qed.

Lemma re_search_anchored s m :
  re_search func_def_pattern s = Some m ->
  match_here func_def_pattern (start_state s) = Some m.
Proof.
  unfold re_search, start_state. destruct s as [|a s]; cbn [search_from].
  - destruct (match_here _ _); [auto|discriminate].
  - destruct (match_here _ _); [auto|].
    rewrite search_from_anchored. discriminate.
Qed.

Lemma span_segment p (l1 seg l2 : text) :
  forallb p seg = true ->
  span p (l1 ++ seg ++ l2) (length l1) (length l1 + length seg).
Proof.
  intro H. split; [lia|]. intros x Hx.
  rewrite nth_error_app2 by lia. rewrite nth_error_app1 by lia.
  destruct (nth_error seg (x - length l1)) as [ch|] eqn:E.
  - exists ch. split; [reflexivity|].
    rewrite forallb_forall in H. apply H. eapply nth_error_In. exact E.
  - apply nth_error_None in E. lia.
Qed.

Lemma keyword_is_word kw :
  In kw control_keywords -> kw <> [] /\ forallb is_word kw = true.
Proof.
  intro H. simpl in H.
  repeat (destruct H as [<-|H]; [split; [discriminate|reflexivity]|]).
  contradiction.
Qed.

Lemma in_keywords_keyword kw :
  In kw control_keywords -> in_keywords (Some kw) = true.
Proof.
  intro H. unfold in_keywords. apply existsb_exists. exists kw.
  split; [exact H|].
  unfold text_eqb. destruct (list_eq_dec ascii_dec kw kw); congruence.
Qed.

(** On a line headed by a control keyword the pattern matches with that
    keyword as its name, or not at all. *)
Lemma keyword_headed_name s m :
  keyword_headed s ->
  re_search func_def_pattern s = Some m ->
  in_keywords (group 3 m) = true.
Proof.
  intros [ws [pre [kw [ws' [tail [Hs [Hws [Hpre [Hkw Hws']]]]]]]]] Hm.
  apply re_search_anchored in Hm.
  apply match_here_sound in Hm as [e [M Hg]].
  destruct (@keyword_is_word kw Hkw) as [Hne Hw].
  assert (assoc 3 (groups e) = Some kw) as H3.
  { destruct Hpre as [->|[tok [ws1 [-> [Htok [Htype [Hws1 Hsp1]]]]]]].
    - simpl app in Hs.
      rewrite (@keyword_line_group s (length ws) (length ws) (length ws)
                 (length ws + length kw)
                 (length ws + length kw + length ws') ) with (e:=e).
      + f_equal. subst s.
        rewrite skipn_app, skipn_all, Nat.sub_diag. simpl.
        replace (length ws + length kw - length ws) with (length kw) by lia.
        rewrite firstn_app, firstn_all, Nat.sub_diag. simpl.
        apply app_nil_r.
      + subst s. apply (@span_segment is_space [] ws _ Hws).
      + split; [lia|]. intros x Hx. lia.
      + split; [lia|]. intros x Hx. lia.
      + subst s. apply (@span_segment is_word ws kw _ Hw).
      + subst s.
        pose proof (@span_segment is_space (ws ++ kw) ws'
                                 ("("%char :: tail) Hws') as H.
        rewrite length_app, <- app_assoc in H. exact H.
      + subst s.
        replace (ws ++ kw ++ ws' ++ "("%char :: tail)
          with ((ws ++ kw ++ ws') ++ "("%char :: tail)
          by (rewrite <- !app_assoc; reflexivity).
        rewrite nth_error_app2 by (rewrite !length_app; lia).
        rewrite !length_app.
        replace (length ws + length kw + length ws'
                 - (length ws + (length kw + length ws'))) with 0 by lia.
        reflexivity.
      + destruct kw; [congruence|simpl; lia].
      + left. split; reflexivity.
      + exact M.
    - rewrite (@keyword_line_group s (length ws)
                 (length ws + length tok)
                 (length ws + length tok + length ws1)
                 (length ws + length tok + length ws1 + length kw)
                 (length ws + length tok + length ws1 + length kw
                  + length ws')) with (e:=e).
      + f_equal. subst s.
        replace (ws ++ (tok ++ ws1) ++ kw ++ ws' ++ "("%char :: tail)
          with ((ws ++ tok ++ ws1) ++ kw ++ ws' ++ "("%char :: tail)
          by (rewrite <- !app_assoc; reflexivity).
        replace (length ws + length tok + length ws1)
          with (length (ws ++ tok ++ ws1))
          by (rewrite !length_app; lia).
        rewrite skipn_app, skipn_all, Nat.sub_diag. simpl.
        replace (length (ws ++ tok ++ ws1) + length kw
                 - length (ws ++ tok ++ ws1)) with (length kw) by lia.
        rewrite firstn_app, firstn_all, Nat.sub_diag. simpl.
        apply app_nil_r.
      + subst s. apply (@span_segment is_space [] ws _ Hws).
      + subst s.
        pose proof (@span_segment type_char ws tok
                      (ws1 ++ kw ++ ws' ++ "("%char :: tail) Htype) as H.
        rewrite <- app_assoc. exact H.
      + subst s.
        pose proof (@span_segment is_space (ws ++ tok) ws1
                      (kw ++ ws' ++ "("%char :: tail) Hsp1) as H.
        rewrite length_app, <- !app_assoc in H. rewrite <- app_assoc. exact H.
      + subst s.
        pose proof (@span_segment is_word (ws ++ tok ++ ws1) kw
                      (ws' ++ "("%char :: tail) Hw) as H.
        rewrite !length_app, <- !app_assoc in H.
        rewrite <- app_assoc, !Nat.add_assoc in *. exact H.
      + subst s.
        pose proof (@span_segment is_space (ws ++ tok ++ ws1 ++ kw) ws'
                      ("("%char :: tail) Hws') as H.
        rewrite !length_app, <- !app_assoc in H.
        rewrite <- app_assoc, !Nat.add_assoc in *. exact H.
      + subst s.
        replace (ws ++ (tok ++ ws1) ++ kw ++ ws' ++ "("%char :: tail)
          with ((ws ++ tok ++ ws1 ++ kw ++ ws') ++ "("%char :: tail)
          by (rewrite <- !app_assoc; reflexivity).
        rewrite nth_error_app2 by (rewrite !length_app; lia).
        rewrite !length_app.
        replace (length ws + length tok + length ws1 + length kw
                 + length ws'
                 - (length ws + (length tok + (length ws1
                    + (length kw + length ws'))))) with 0 by lia.
        reflexivity.
      + destruct kw; [congruence|simpl; lia].
      + right. destruct tok; [congruence|]. destruct ws1; [congruence|].
        simpl. lia.
      + exact M. }
  unfold group. rewrite Hg, H3. apply in_keywords_keyword. exact Hkw.
Qed.

Lemma count_char_nth c (s : text) : forall p,
  nth_error s p = Some c -> 0 < count_char c s.
Proof.
  induction s as [|a s IH]; intros [|p] H; try discriminate;
    rewrite count_char_cons.
  - simpl in H. injection H as ->. rewrite Ascii.eqb_refl. lia.
  - simpl in H. apply IH in H. lia.
Qed.

(** The pattern asks for an opening parenthesis: a line without one does
    not match. *)
Lemma no_paren_no_match s :
  count_char "("%char s = 0 -> re_search func_def_pattern s = None.
Proof.
  intro H0. destruct (re_search func_def_pattern s) as [m|] eqn:Hm;
    [exfalso|reflexivity].
  apply re_search_anchored in Hm.
  apply match_here_sound in Hm as [e [M _]].
  unfold func_def_pattern in M. cbn [seqs] in M.
  assert (inside s (start_state s)) as Hin0
    by (split; [reflexivity|simpl; lia]).
  apply matches_seq_inv in M as [s0 [M0 M]].
  inversion M0; subst. clear M0.
  apply matches_seq_inv in M as [s1 [M1 M]].
  destruct (matches_inside M1 Hin0) as [Hin1 _].
  apply matches_seq_inv in M as [s2 [M2 M]].
  destruct (matches_inside M2 Hin1) as [Hin2 _].
  apply matches_seq_inv in M as [s3 [M3 M]].
  destruct (matches_inside M3 Hin2) as [Hin3 _].
  apply matches_seq_inv in M as [s4 [M4 M]].
  destruct (matches_inside M4 Hin3) as [Hin4 _].
  apply matches_seq_inv in M as [s5 [M5 _]].
  destruct (matches_chr_at M5 Hin4) as [_ [_ [_ [ch [Hn Hc]]]]].
  unfold is_char in Hc. apply Ascii.eqb_eq in Hc. subst ch.
  apply count_char_nth in Hn. lia.
Qed.

(** C9, as the code has it: in a file where every line that opens more
    braces than it closes is headed by a control keyword and its
    parenthesis ([if (...) {], [while (...) {], [else if (...) {]), or has
    no parenthesis at all ([do {], [else {]), no region is extracted, no
    function violation is produced and the extractor ends outside any
    function: the first kind of line matches the declaration pattern with
    the keyword as its name, which the check against [control_keywords]
    rejects, and the second does not match. *)
Theorem control_flow_not_a_function (txt filename : text) :
  (forall line,
      In line (split_lines txt) ->
      close_count line < open_count line ->
      keyword_headed (mask_strings line)
      \/ count_char "("%char (mask_strings line) = 0) ->
  regions txt = []
  /\ analyze_functions txt filename = []
  /\ in_function (final_state txt) = false.
Proof.
  intro Hk.
  assert (forall line m,
             In line (split_lines txt) ->
             close_count line < open_count line ->
             re_search func_def_pattern (mask_strings line) = Some m ->
             in_keywords (group 3 m) = true) as Hk'.
  { intros line m Hin Hlt Hm. destruct (Hk line Hin Hlt) as [H|H].
    - exact (keyword_headed_name H Hm).
    - rewrite (no_paren_no_match _ H) in Hm. discriminate. }
  destruct (@run_no_function (split_lines txt) 0 init_fstate eq_refl Hk')
    as [Hr Hg].
  unfold regions, analyze_functions, final_state. rewrite Hr, Hg.
  split; [reflexivity|]. split; reflexivity.
Qed.

(** C9 as the spec has it fails: a file of control flow only can have a
    region.  When the condition of an [if] goes on to a second line, the
    line with the opening brace starts with a call, and the pattern takes
    the call for a declaration: the body of the [if] is extracted as the
    function [foo], and with eleven [if]s in it a violation is reported
    for it. *)
Lemma continued_condition_counterexample :
  regions continued_condition_file
  = [Region (Some (T "foo")) 1 [T "    foo(b)) {"; T "  bar();"; T "}"]]
  /\ analyze_functions continued_condition_long []
     = [T "  - Function 'foo' (line 2): Complexity 12 > 10"].
Proof. vm_compute. split; reflexivity. Qed.

(** ** Instances *)

Lemma remove_comments_pieces_witness :
  remove_comments commented_text
  = concat (map piece_out (pieces commented_text))
  /\ line_count (remove_comments commented_text) + 1
     = line_count commented_text.
Proof.
  destruct (remove_comments_pieces commented_text)
    as [_ [H2 [_ [_ [H5 _]]]]].
  split; [exact H2|exact H5].
Defined.

Lemma complexity_of_eleven_ifs_witness :
  calculate_complexity (join_lines eleven_ifs_body) = 12
  /\ 12 > MAX_COMPLEXITY
  /\ function_ended (Some (T "check")) 0 eleven_ifs_body []
     = [] ++ [complexity_message (Some (T "check")) 0 12]
  /\ region_violations (Region (Some (T "check")) 0 eleven_ifs_body)
     = [complexity_message (Some (T "check")) 0 12].
Proof.
  apply (proj2 complexity_of_eleven_ifs (Some (T "check")) 0
               eleven_ifs_body []).
  - vm_compute. reflexivity.
  - intros r Hin. simpl in Hin.
    repeat (destruct Hin as [<-|Hin]; [vm_compute; reflexivity|]).
    contradiction.
  - vm_compute. repeat constructor.
Defined.

Lemma file_loc_threshold_exclusive_witness :
  filter is_file_loc_line (file_violations (T "a.dart") (statements 500)) = []
  /\ filter is_file_loc_line (file_violations (T "a.dart") (statements 501))
     = [T "  - File LOC 501 > 500"].
Proof.
  split.
  - apply (proj1 (file_loc_threshold_exclusive (T "a.dart") (statements 500))).
    vm_compute. reflexivity.
  - apply (proj2 (file_loc_threshold_exclusive (T "a.dart") (statements 501))).
    vm_compute. reflexivity.
Defined.

Lemma literal_line_keeps_balance_witness :
  mask_strings literal_line = [dquote; dquote]
  /\ open_count literal_line = 0
  /\ close_count literal_line = 0
  /\ forall i st, brace_balance (step i literal_line st) = brace_balance st.
Proof.
  apply (@literal_line_keeps_balance dquote literal_line).
  - right. reflexivity.
  - vm_compute. reflexivity.
Defined.

Lemma one_line_function_not_captured_witness :
  (forall r, In r (regions one_line_file) -> r_start r <> 0)
  /\ (forall st, in_function st = false
                 -> step 0 (T "int sign(int a) { if (a > 0) { return 1; } return 0; }") st = st)
  /\ analyze_functions one_line_file []
     = flat_map region_violations (regions one_line_file).
Proof.
  apply (@one_line_function_not_captured one_line_file [] 0).
  - reflexivity.
  - vm_compute. repeat constructor.
Defined.

Lemma control_flow_not_a_function_witness :
  regions control_flow_file = []
  /\ analyze_functions control_flow_file [] = []
  /\ in_function (final_state control_flow_file) = false.
Proof.
  apply (@control_flow_not_a_function control_flow_file []).
  intros line Hin Hlt. vm_compute in Hin.
  destruct Hin as [<-|Hin].
  { left. exists [], [], (T "if"), [space], (T "x > 0) {").
    split; [vm_compute; reflexivity|]. split; [reflexivity|].
    split; [left; reflexivity|]. split; [simpl; auto|reflexivity]. }
  destruct Hin as [<-|Hin]; [exfalso; vm_compute in Hlt; lia|].
  destruct Hin as [<-|Hin]; [exfalso; vm_compute in Hlt; lia|].
  destruct Hin as [<-|Hin].
  { left. exists [], (T "else "), (T "if"), [space], (T "x < 0) {").
    split; [vm_compute; reflexivity|]. split; [reflexivity|].
    split; [right; exists (T "else"), [space];
            repeat (split; [first [reflexivity|discriminate]|]);
            reflexivity|].
    split; [simpl; auto|reflexivity]. }
  destruct Hin as [<-|Hin]; [exfalso; vm_compute in Hlt; lia|].
  destruct Hin as [<-|Hin]; [exfalso; vm_compute in Hlt; lia|].
  destruct Hin as [<-|Hin].
  { left. exists [], [], (T "while"), [space], (T "busy()) {").
    split; [vm_compute; reflexivity|]. split; [reflexivity|].
    split; [left; reflexivity|]. split; [simpl; auto|reflexivity]. }
  destruct Hin as [<-|Hin]; [exfalso; vm_compute in Hlt; lia|].
  destruct Hin as [<-|Hin]; [exfalso; vm_compute in Hlt; lia|].
  destruct Hin as [<-|Hin]; [right; vm_compute; reflexivity|].
  destruct Hin as [<-|Hin]; [exfalso; vm_compute in Hlt; lia|].
  destruct Hin as [<-|Hin]; [exfalso; vm_compute in Hlt; lia|].
  contradiction.
Defined.

(** The function of the eleven [if]s, as a file. *)
Example eleven_ifs_file :
  analyze_functions (join_lines eleven_ifs_body) []
  = [T "  - Function 'check' (line 1): Complexity 12 > 10"].
Proof. vm_compute. reflexivity. Qed.

(** A function of two lines: one region, two meaningful lines, score 1, no
    violation. *)
Example two_line_function :
  let txt := T "function foo() {
}" in
  map (fun r => (r_name r, r_start r, region_loc r, region_complexity r))
      (regions txt)
  = [(Some (T "foo"), 0, 2, 1)]
  /\ analyze_functions txt [] = [].
Proof. vm_compute. split; reflexivity. Qed.

(** * Further properties *)

(** ** The driver *)

Lemma process_file_spec fs root file has :
  process_file fs root file has
  = (file_report fs (path_join root file),
     has || violating fs (path_join root file)).
Proof.
  unfold process_file, file_report, violating, file_output.
  destruct (read fs (path_join root file)) as [c|e].
  - destruct (file_violations (path_join root file) c).
    + rewrite orb_false_r. reflexivity.
    + rewrite orb_true_r. reflexivity.
  - rewrite orb_false_r. reflexivity.
Qed.

Lemma process_files_spec fs root files : forall out has,
  process_files fs root files out has
  = (out ++ flat_map (file_report fs)
                     (map (path_join root)
                          (filter (ends_with (T ".dart")) files)),
     has || existsb (violating fs)
                    (map (path_join root)
                         (filter (ends_with (T ".dart")) files))).
Proof.
  induction files as [|f fs' IH]; intros out has; cbn [process_files filter].
  - simpl. rewrite app_nil_r, orb_false_r. reflexivity.
  - destruct (ends_with (T ".dart") f); [|apply IH].
    rewrite process_file_spec, IH. cbn [map flat_map existsb].
    rewrite <- app_assoc, orb_assoc. reflexivity.
Qed.

Lemma process_dirs_spec fs dirs : forall out has,
  process_dirs fs dirs out has
  = (out ++ flat_map (file_report fs)
              (flat_map (fun d => map (path_join (fst d))
                           (filter (ends_with (T ".dart")) (snd d))) dirs),
     has || existsb (violating fs)
              (flat_map (fun d => map (path_join (fst d))
                           (filter (ends_with (T ".dart")) (snd d))) dirs)).
Proof.
  induction dirs as [|[root files] ds IH]; intros out has; cbn [process_dirs].
  - simpl. rewrite app_nil_r, orb_false_r. reflexivity.
  - rewrite process_files_spec, IH. cbn [flat_map fst snd].
    rewrite flat_map_app, existsb_app, <- app_assoc, orb_assoc. reflexivity.
Qed.

(** X1: the exit status is 1 exactly when some file with the suffix [.dart]
    was read and has a violation, and 0 otherwise: a file that cannot be
    read does not change it. *)
Theorem main_exit_status (argv : list text) (fs : filesystem) :
  (snd (main argv fs) = 1 <->
   exists filepath content,
     In filepath (dart_paths fs (root_dir_of argv))
     /\ read fs filepath = Content content
     /\ file_violations filepath content <> [])
  /\ (snd (main argv fs) = 1 \/ snd (main argv fs) = 0).
Proof.
  unfold main. rewrite process_dirs_spec. fold (dart_paths fs (root_dir_of argv)).
  simpl orb.
  destruct (existsb (violating fs) (dart_paths fs (root_dir_of argv))) eqn:E.
  - simpl. split; [|left; reflexivity]. split; [intros _|reflexivity].
    apply existsb_exists in E as [p [Hin Hv]]. unfold violating in Hv.
    destruct (read fs p) as [c|e] eqn:Er; [|discriminate].
    exists p, c. repeat split; try assumption.
    destruct (file_violations p c); [discriminate|discriminate].
  - simpl. split; [|right; reflexivity]. split; [discriminate|].
    intros [p [c [Hin [Hr Hv]]]]. exfalso.
    assert (existsb (violating fs) (dart_paths fs (root_dir_of argv)) = true)
      as E'.
    { apply existsb_exists. exists p. split; [exact Hin|].
      unfold violating. rewrite Hr.
      destruct (file_violations p c); [congruence|reflexivity]. }
    congruence.
Qed.

(** X2: what is printed: the banner, then for each [.dart] path in the order of
    the walk its report (the header and the violations, or the error line,
    or nothing), and the closing line exactly when the exit status is 0. *)
Theorem main_output (argv : list text) (fs : filesystem) :
  fst (main argv fs)
  = (T "Analyzing Dart files in " ++ root_dir_of argv ++ T "...")
      :: flat_map (file_report fs) (dart_paths fs (root_dir_of argv))
      ++ (if snd (main argv fs) =? 0
          then [T "No violations found."] else []).
Proof.
  unfold main. rewrite process_dirs_spec. fold (dart_paths fs (root_dir_of argv)).
  simpl orb.
  destruct (existsb (violating fs) (dart_paths fs (root_dir_of argv)));
    simpl; rewrite ?app_nil_r; reflexivity.
Qed.

(** ** Counting lines *)

Lemma lstrip_nil s : lstrip s = [] <-> forallb is_space s = true.
Proof.
  induction s as [|c s IH]; simpl; [tauto|].
  destruct (is_space c); simpl; [exact IH|]. split; discriminate.
Qed.

Lemma lstrip_head s c t : lstrip s = c :: t -> is_space c = false.
Proof.
  induction s as [|a s IH]; simpl; [discriminate|].
  destruct (is_space a) eqn:E; [exact IH|]. intro H. injection H as <- _.
  exact E.
Qed.

Lemma forallb_rev (A : Type) (f : A -> bool) l :
  forallb f (rev l) = forallb f l.
Proof.
  induction l as [|a l IH]; [reflexivity|].
  simpl. rewrite forallb_app, IH. simpl. rewrite andb_true_r.
  apply andb_comm.
Qed.

(** [line.strip()] is true exactly for a line with a character that is no
    whitespace. *)
Lemma truthy_strip s : truthy (strip s) = meaningful s.
Proof.
  unfold strip, rstrip, meaningful.
  destruct (forallb is_space s) eqn:E.
  - apply lstrip_nil in E. rewrite E. reflexivity.
  - destruct (lstrip s) as [|c t] eqn:El.
    + apply lstrip_nil in El. congruence.
    + pose proof (lstrip_head _ El) as Hc.
      destruct (lstrip (rev (c :: t))) as [|d u] eqn:Er.
      * apply lstrip_nil in Er. rewrite forallb_rev in Er. simpl in Er.
        rewrite Hc in Er. discriminate.
      * simpl. destruct (rev u); reflexivity.
Qed.

Lemma fold_count (A : Type) (f : A -> bool) l : forall n,
  fold_left (fun count x => if f x then count + 1 else count) l n
  = n + length (filter f l).
Proof.
  induction l as [|a l IH]; intros n; simpl; [lia|].
  rewrite IH. destruct (f a); simpl; lia.
Qed.

Lemma count_file_loc_filter txt :
  count_file_loc txt = length (filter meaningful (split_lines txt)).
Proof.
  unfold count_file_loc.
  rewrite (fold_count (fun line => truthy (strip line))). simpl.
  f_equal. apply filter_ext. exact truthy_strip.
Qed.

Lemma content_loc_filter content :
  content_loc content = length (filter meaningful content).
Proof.
  unfold content_loc.
  rewrite (fold_count (fun line => truthy (strip line))). simpl.
  f_equal. apply filter_ext. exact truthy_strip.
Qed.

Lemma split_lines_app a : forall b,
  split_lines (a ++ newline :: b) = split_lines a ++ split_lines b.
Proof.
  induction a as [|c a IH]; intros b.
  - reflexivity.
  - cbn [app split_lines]. destruct (Ascii.eqb c newline).
    + rewrite IH. reflexivity.
    + rewrite IH. destruct (split_lines_cons a) as [l [ls E]].
      rewrite E. reflexivity.
Qed.

(** X3: the meaningful lines are the lines with a character that is no
    whitespace: never more than the lines of the text, and none when the
    text is whitespace only. *)
Theorem count_file_loc_bounds (txt : text) :
  count_file_loc txt = length (filter meaningful (split_lines txt))
  /\ count_file_loc txt <= line_count txt
  /\ (forallb is_space txt = true -> count_file_loc txt = 0).
Proof.
  split; [apply count_file_loc_filter|]. split.
  - rewrite count_file_loc_filter. apply filter_length_le.
  - intro H. rewrite count_file_loc_filter.
    assert (forall l, In l (split_lines txt) -> forallb is_space l = true)
      as Hl.
    { clear - H. induction txt as [|c t IH]; intros l Hin.
      - destruct Hin as [<-|[]]. reflexivity.
      - simpl in H. apply andb_prop in H as [Hc Ht]. simpl in Hin.
        destruct (Ascii.eqb c newline).
        + destruct Hin as [<-|Hin]; [reflexivity|auto].
        + destruct (split_lines t) as [|l0 ls] eqn:E.
          * destruct Hin as [<-|[]]. simpl. rewrite Hc. reflexivity.
          * destruct Hin as [<-|Hin].
            -- simpl. rewrite Hc. apply IH; [exact Ht|left; reflexivity].
            -- apply IH; [exact Ht|right; exact Hin]. }
    induction (split_lines txt) as [|l ls IHl]; [reflexivity|].
    simpl. unfold meaningful at 1. rewrite (Hl l (or_introl eq_refl)).
    simpl. apply IHl. intros l' Hin. apply Hl. right. exact Hin.
Qed.

(** X4: the count of a text is the sum of the counts of its parts on either
    side of a newline. *)
Theorem count_file_loc_newline (a b : text) :
  count_file_loc (a ++ newline :: b) = count_file_loc a + count_file_loc b.
Proof.
  rewrite !count_file_loc_filter, split_lines_app, filter_app, length_app.
  reflexivity.
Qed.

(** ** Indentation *)

Lemma lstrip_app ws s :
  forallb is_space ws = true -> lstrip (ws ++ s) = lstrip s.
Proof.
  induction ws as [|c ws IH]; intro H; [reflexivity|].
  simpl in H. apply andb_prop in H as [Hc Hw]. simpl. rewrite Hc. auto.
Qed.

(** X5: the indentation of a line is the number of its leading whitespace
    characters: the whole length for a blank line, and the length of the
    whitespace before the first other character otherwise. *)
Theorem get_indentation_leading (ws : text) :
  forallb is_space ws = true ->
  get_indentation ws = length ws
  /\ forall c t, is_space c = false ->
                 get_indentation (ws ++ c :: t) = length ws.
Proof.
  intro H. unfold get_indentation. split.
  - apply lstrip_nil in H. rewrite H. simpl. lia.
  - intros c t Hc. rewrite lstrip_app by exact H. simpl. rewrite Hc.
    rewrite length_app. simpl. lia.
Qed.

Lemma get_indentation_leading_witness :
  get_indentation (T "    ") = 4
  /\ forall c t, is_space c = false ->
                 get_indentation (T "    " ++ c :: t) = 4.
Proof.
  apply (@get_indentation_leading (T "    ")). reflexivity.
Defined.

(** ** More on remove_comments *)

Lemma count_char_firstn_skipn c n (s : text) :
  count_char c s = count_char c (firstn n s) + count_char c (skipn n s).
Proof. rewrite <- count_char_app, firstn_skipn. reflexivity. Qed.

(** X6: a text without a slash has no comment and is left as it is. *)
Theorem remove_comments_no_slash (txt : text) :
  count_char slash txt = 0 -> remove_comments txt = txt.
Proof.
  induction txt as [|c s E IH|s n E IH] using rc_ind; intro H.
  - apply rc_nil.
  - rewrite (@rc_plain _ _ E). rewrite count_char_cons in H.
    rewrite IH by lia. reflexivity.
  - destruct (@token_len_cases _ _ E)
      as [[t [-> ->]]|[[t [m [-> [F ->]]]]|[c [t [-> Ec]]]]].
    + rewrite count_char_cons in H. simpl in H. discriminate.
    + rewrite count_char_cons in H. simpl in H. discriminate.
    + rewrite (@rc_literal _ _ _ Ec E).
      rewrite (count_char_firstn_skipn slash n (c :: t)) in H.
      rewrite IH by lia. apply firstn_skipn.
Qed.

Lemma remove_comments_no_slash_witness :
  remove_comments (T "a = 'it''s'; b = 2 * 3;") = T "a = 'it''s'; b = 2 * 3;".
Proof.
  apply (@remove_comments_no_slash (T "a = 'it''s'; b = 2 * 3;")).
  reflexivity.
Defined.

Lemma rc_count_le (c : ascii) (txt : text) :
  Ascii.eqb c space = false ->
  count_char c (remove_comments txt) <= count_char c txt.
Proof.
  intro Hc.
  induction txt as [|a s E IH|s n E IH] using rc_ind.
  - rewrite rc_nil. lia.
  - rewrite (@rc_plain _ _ E), !count_char_cons. lia.
  - rewrite (count_char_firstn_skipn c n s).
    destruct (@token_len_cases _ _ E)
      as [[t [-> ->]]|[[t [m [-> [F ->]]]]|[a [t [-> Ea]]]]].
    + rewrite (@rc_comment _ _ E), count_char_cons, Hc. lia.
    + rewrite (@rc_comment _ _ E), count_char_cons, Hc. lia.
    + rewrite (@rc_literal _ _ _ Ea E), count_char_app. lia.
Qed.

(** X7: sanitizing never makes a text longer, and adds no character but the
    space. *)
Theorem remove_comments_shrinks (txt : text) :
  length (remove_comments txt) <= length txt
  /\ forall c, Ascii.eqb c space = false ->
               count_char c (remove_comments txt) <= count_char c txt.
Proof.
  split; [|intros c Hc; apply rc_count_le; exact Hc].
  induction txt as [|c s E IH|s n E IH] using rc_ind.
  - rewrite rc_nil. lia.
  - rewrite (@rc_plain _ _ E). simpl. lia.
  - pose proof (token_len_le _ E) as B.
    assert (length s = n + length (skipn n s)) as Hl
      by (rewrite length_skipn; lia).
    destruct (@token_len_cases _ _ E)
      as [[t [-> ->]]|[[t [m [-> [F ->]]]]|[c [t [-> Ec]]]]].
    + rewrite (@rc_comment _ _ E). simpl length in *. lia.
    + rewrite (@rc_comment _ _ E). simpl length in *. lia.
    + rewrite (@rc_literal _ _ _ Ec E), length_app, length_firstn. lia.
Qed.

Lemma find_close_mid x y : find_close (x ++ [star; slash] ++ y) <> None.
Proof.
  induction x as [|c x IH]; simpl; [discriminate|].
  destruct (_ && _); [discriminate|].
  destruct (find_close (x ++ star :: slash :: y)) eqn:E; [discriminate|].
  exfalso. apply IH. exact E.
Qed.

Lemma find_close_none_iff t :
  find_close t = None <-> (forall x y, t <> x ++ [star; slash] ++ y).
Proof.
  split.
  - intros H x y E. subst t. exact (find_close_mid x y H).
  - induction t as [|c t IH]; intro H; [reflexivity|]. simpl.
    destruct (Ascii.eqb c star && startswith_char slash t) eqn:E.
    + exfalso. apply andb_prop in E as [E1 E2].
      apply Ascii.eqb_eq in E1. subst c.
      destruct t as [|d t]; [discriminate|]. simpl in E2.
      apply Ascii.eqb_eq in E2. subst d. apply (H [] t). reflexivity.
    + rewrite IH; [reflexivity|].
      intros x y ->. apply (H (c :: x) y). reflexivity.
Qed.

Lemma lit_scan_no_quote q t : forall esc,
  count_char q t = 0 -> lit_scan any_char q esc t = None.
Proof.
  induction t as [|c t IH]; intros esc H; [reflexivity|].
  rewrite count_char_cons in H. simpl.
  assert (Ascii.eqb c q = false) as Hc.
  { rewrite Ascii.eqb_sym. destruct (Ascii.eqb q c); [lia|reflexivity]. }
  rewrite Hc, !IH by lia.
  replace (any_char c) with true by reflexivity.
  destruct esc; [reflexivity|]. destruct (Ascii.eqb c backslash); reflexivity.
Qed.

(** X8: what is left open is left in place.  A block comment that is never
    closed is no comment: its two characters stay and the text after them
    is sanitized as usual.  So does a quote with no closing quote after it:
    a comment behind it is removed like any other. *)
Theorem remove_comments_unterminated (t : text) :
  ((forall x y, t <> x ++ [star; slash] ++ y) ->
   remove_comments (slash :: star :: t) = slash :: star :: remove_comments t)
  /\ (forall q, q = squote \/ q = dquote ->
                count_char q t = 0 ->
                remove_comments (q :: t) = q :: remove_comments t).
Proof.
  split.
  - intro H. apply find_close_none_iff in H.
    rewrite (@rc_plain slash (star :: t)).
    + rewrite (@rc_plain star t eq_refl). reflexivity.
    + unfold token_len. simpl. rewrite H. reflexivity.
  - intros q Hq H. apply rc_plain.
    pose proof (lit_scan_no_quote q t false H) as Hs.
    destruct Hq as [-> | ->]; unfold token_len; simpl; rewrite Hs; reflexivity.
Qed.

Lemma remove_comments_unterminated_witness :
  remove_comments (T "/* open // rest") = T "/* open  "
  /\ remove_comments (T "'open // rest") = T "'open  ".
Proof.
  destruct (remove_comments_unterminated (T " open // rest")) as [H1 _].
  destruct (remove_comments_unterminated (T "open // rest")) as [_ H2].
  split.
  - change (T "/* open // rest") with (slash :: star :: T " open // rest").
    rewrite H1; [reflexivity|].
    apply find_close_none_iff. reflexivity.
  - change (T "'open // rest") with (squote :: T "open // rest").
    rewrite (H2 squote); [reflexivity|left; reflexivity|reflexivity].
Defined.

Lemma loc_from_lines s : forall seen,
  loc_from seen s
  = match split_lines s with
    | l :: ls =>
        (if seen || meaningful l then 1 else 0)
        + length (filter meaningful ls)
    | [] => 0
    end.
Proof.
  induction s as [|c t IH]; intros seen.
  - simpl. rewrite orb_false_r. destruct seen; reflexivity.
  - cbn [loc_from split_lines]. destruct (Ascii.eqb c newline) eqn:E.
    + rewrite IH. change (meaningful []) with false. rewrite orb_false_r.
      destruct (split_lines_cons t) as [l [ls El]]. rewrite El.
      simpl. destruct (meaningful l); reflexivity.
    + rewrite IH. destruct (split_lines_cons t) as [l [ls El]]. rewrite El.
      assert (meaningful (c :: l) = negb (is_space c) || meaningful l) as ->
        by (unfold meaningful; simpl; apply negb_andb).
      rewrite orb_assoc. reflexivity.
Qed.

Lemma count_file_loc_from s : count_file_loc s = loc_from false s.
Proof.
  rewrite count_file_loc_filter, loc_from_lines.
  destruct (split_lines_cons s) as [l [ls E]]. rewrite E. simpl.
  destruct (meaningful l); reflexivity.
Qed.

Lemma loc_from_mono s : forall seen,
  loc_from seen s <= loc_from true s <= 1 + loc_from false s.
Proof.
  induction s as [|c t IH]; intros seen.
  - simpl. destruct seen; lia.
  - simpl. destruct (Ascii.eqb c newline).
    + destruct seen; lia.
    + destruct (negb (is_space c)); rewrite ?orb_true_r, ?orb_false_r.
      * pose proof (IH true). lia.
      * pose proof (IH false). pose proof (IH seen). destruct seen; lia.
Qed.

Lemma loc_from_seen s seen seen' :
  (seen = true -> seen' = true) -> loc_from seen s <= loc_from seen' s.
Proof.
  intro H. destruct seen'.
  - apply loc_from_mono.
  - destruct seen; [discriminate (H eq_refl)|lia].
Qed.

(** Text put in front adds no less than nothing. *)
Lemma loc_from_prepend a : forall seen x,
  loc_from seen x <= loc_from seen (a ++ x).
Proof.
  induction a as [|c a IH]; intros seen x; [simpl; lia|].
  cbn [app loc_from]. destruct (Ascii.eqb c newline).
  - pose proof (IH false x). pose proof (loc_from_mono x seen).
    pose proof (loc_from_mono x false). destruct seen; lia.
  - pose proof (IH (seen || negb (is_space c)) x).
    pose proof (@loc_from_seen x seen (seen || negb (is_space c))) as H1.
    assert (seen = true -> seen || negb (is_space c) = true) as H2
      by (intros ->; reflexivity).
    specialize (H1 H2). lia.
Qed.

Lemma loc_from_same_prefix a : forall seen x y,
  (forall seen', loc_from seen' x <= loc_from seen' y) ->
  loc_from seen (a ++ x) <= loc_from seen (a ++ y).
Proof.
  induction a as [|c a IH]; intros seen x y H; [apply H|].
  cbn [app loc_from]. destruct (Ascii.eqb c newline).
  - pose proof (IH false x y H). lia.
  - apply IH. exact H.
Qed.

(** X9: sanitizing adds no meaningful line: comments only take characters
    away, and the space left for a comment is whitespace. *)
Theorem remove_comments_loc (txt : text) :
  count_file_loc (remove_comments txt) <= count_file_loc txt.
Proof.
  rewrite !count_file_loc_from. generalize false as seen.
  induction txt as [|c s E IH|s n E IH] using rc_ind; intro seen.
  - rewrite rc_nil. lia.
  - rewrite (@rc_plain _ _ E).
    apply (loc_from_same_prefix [c]). exact IH.
  - assert (forall seen',
               loc_from seen' (space :: remove_comments (skipn n s))
               <= loc_from seen' s) as Hcomment.
    { intro seen'. cbn [loc_from]. change (Ascii.eqb space newline) with false.
      change (negb (is_space space)) with false. rewrite orb_false_r.
      cbv iota. etransitivity; [apply IH|].
      rewrite <- (firstn_skipn n s) at 2. apply loc_from_prepend. }
    destruct (@token_len_cases _ _ E)
      as [[t [-> ->]]|[[t [m [-> [F ->]]]]|[c [t [-> Ec]]]]].
    + rewrite (@rc_comment _ _ E). apply Hcomment.
    + rewrite (@rc_comment _ _ E). apply Hcomment.
    + rewrite (@rc_literal _ _ _ Ec E).
      rewrite <- (firstn_skipn n (c :: t)) at 3.
      apply loc_from_same_prefix. exact IH.
Qed.

(** ** The shape of the regions *)

Lemma net_braces_app a b :
  net_braces (a ++ b) = (net_braces a + net_braces b)%Z.
Proof. induction a as [|l a IH]; simpl; [reflexivity|]. rewrite IH. lia. Qed.

Lemma consume_fields line st :
  in_function st = true ->
  func_start_line (consume line st) = func_start_line st
  /\ func_name (consume line st) = func_name st
  /\ func_content (consume line st) = func_content st ++ [line]
  /\ brace_balance (consume line st)
     = (brace_balance st + Z.of_nat (open_count line)
        - Z.of_nat (close_count line))%Z
  /\ (in_function (consume line st) = false <->
      brace_balance (consume line st) = 0%Z).
Proof.
  intro H. unfold consume. rewrite H.
  fold (open_count line). fold (close_count line).
  destruct (_ =? _)%Z eqn:E; simpl; repeat split; try discriminate.
  - intros _. apply Z.eqb_eq. exact E.
  - intro H0. apply Z.eqb_neq in E. contradiction.
Qed.

(** A round inside a function, or entering one, keeps the loop variables
    true to the lines run. *)
Lemma step_captured done line st :
  (in_function st = true -> captured done st /\ brace_balance st <> 0%Z) ->
  in_function (enter (length done) line st) = true ->
  captured (done ++ [line]) (step (length done) line st).
Proof.
  intros Hinv He. unfold step.
  destruct (consume_fields line _ He) as [Hs [Hn [Hc [Hb _]]]].
  unfold captured. rewrite Hs, Hn, Hc, Hb. clear Hs Hn Hc Hb.
  destruct (in_function st) eqn:Ei.
  - rewrite (enter_inside _ _ st Ei) in *.
    destruct (Hinv eq_refl)
      as [[H1 [H2 [H3 [Hp [H4 [first [m [H5 H6]]]]]]]] Hnz].
    split; [rewrite length_app; simpl; lia|].
    split.
    { rewrite skipn_app, H2.
      replace (func_start_line st - length done) with 0 by lia.
      reflexivity. }
    split; [rewrite net_braces_app, H3; simpl; lia|].
    split.
    { intros n Hn. rewrite length_app in Hn. simpl in Hn.
      rewrite firstn_app.
      replace (n - length (func_content st)) with 0 by lia.
      simpl. rewrite app_nil_r.
      destruct (Nat.eq_dec n (length (func_content st))) as [->|Hne].
      - rewrite firstn_all. congruence.
      - apply Hp. lia. }
    split; [exact H4|].
    exists first, m. split; [|exact H6].
    rewrite nth_error_app1 by exact H1. exact H5.
  - destruct (enter_outside (length done) line st Ei)
      as [Hs|[m [Hlt [Hm [Hk Hs]]]]].
    + rewrite Hs in He. congruence.
    + rewrite Hs. simpl.
      split; [rewrite length_app; simpl; lia|].
      split; [rewrite skipn_app, skipn_all, Nat.sub_diag; reflexivity|].
      split; [lia|]. split; [intros n Hn; lia|]. split; [exact Hk|].
      exists line, m. split; [|auto].
      rewrite nth_error_app2, Nat.sub_diag by lia. reflexivity.
Qed.

Lemma step_open done line st :
  (in_function st = true -> captured done st /\ brace_balance st <> 0%Z) ->
  in_function (step (length done) line st) = true ->
  captured (done ++ [line]) (step (length done) line st)
  /\ brace_balance (step (length done) line st) <> 0%Z.
Proof.
  intros Hinv Hs.
  assert (in_function (enter (length done) line st) = true) as He
    by (unfold step in Hs; apply consume_inside in Hs; exact Hs).
  split; [apply step_captured; assumption|].
  unfold step in *. intro H0.
  apply (consume_fields line _ He) in H0. congruence.
Qed.

(** Every region is what the loop held when its function ended: captured
    over a prefix of the lines, with balance zero. *)
Lemma regions_from_captured lines : forall done st r,
  (in_function st = true -> captured done st /\ brace_balance st <> 0%Z) ->
  In r (regions_from (length done) lines st) ->
  exists k st',
    k <= length lines
    /\ captured (done ++ firstn k lines) st'
    /\ brace_balance st' = 0%Z
    /\ r = region_of st'.
Proof.
  induction lines as [|l ls IH]; intros done st r Hinv Hr; simpl in Hr;
    [contradiction|].
  apply in_app_or in Hr as [Hr|Hr].
  - unfold completes in Hr.
    destruct (in_function (enter (length done) l st)) eqn:He; simpl in Hr;
      [|contradiction].
    destruct (in_function (step (length done) l st)) eqn:Hs; simpl in Hr;
      [contradiction|].
    destruct Hr as [<-|[]].
    exists 1, (step (length done) l st).
    split; [simpl; lia|]. split; [apply step_captured; assumption|].
    split; [|reflexivity].
    unfold step in *. apply (consume_fields l _ He). exact Hs.
  - replace (S (length done)) with (length (done ++ [l])) in Hr
      by (rewrite length_app; simpl; lia).
    apply IH in Hr.
    + destruct Hr as [k [st' [Hk [Hc [Hb Hr]]]]].
      exists (S k), st'. split; [simpl; lia|].
      split; [|auto]. simpl firstn. rewrite <- app_assoc in Hc. exact Hc.
    + intro Hs. apply step_open; assumption.
Qed.

Lemma regions_captured txt r :
  In r (regions txt) ->
  exists k st',
    k <= length (split_lines txt)
    /\ captured (firstn k (split_lines txt)) st'
    /\ brace_balance st' = 0%Z
    /\ r = region_of st'.
Proof.
  intro H.
  apply (@regions_from_captured (split_lines txt) [] init_fstate r).
  - discriminate.
  - exact H.
Qed.

Lemma skipn_nth_cons (A : Type) (l : list A) : forall n a,
  nth_error l n = Some a -> skipn n l = a :: skipn (S n) l.
Proof.
  induction l as [|x l IH]; intros [|n] a H; try discriminate.
  - simpl in H. injection H as ->. reflexivity.
  - simpl in H. apply IH in H. exact H.
Qed.

(** The content of a function whose braces balance, among the lines. *)
Lemma captured_slice (lines : list text) (k : nat) (st : fstate) :
  k <= length lines ->
  captured (firstn k lines) st ->
  brace_balance st = 0%Z ->
  func_content st
  = firstn (length (func_content st)) (skipn (func_start_line st) lines)
  /\ 2 <= length (func_content st)
  /\ func_start_line st + length (func_content st) = k.
Proof.
  intros Hk [H1 [H2 [H3 [_ [_ [first [m [H5 [H6 _]]]]]]]]] Hb.
  rewrite length_firstn, Nat.min_l in H1 by exact Hk.
  assert (length (func_content st) = k - func_start_line st) as Hl.
  { rewrite H2, length_skipn, length_firstn. lia. }
  split; [|split].
  - rewrite Hl, H2. rewrite skipn_firstn_comm. reflexivity.
  - rewrite (skipn_nth_cons _ _ H5) in H2.
    destruct (skipn (S (func_start_line st)) (firstn k lines))
      as [|x rest'] eqn:E.
    + rewrite H2 in H3. simpl in H3. lia.
    + rewrite H2. simpl. lia.
  - lia.
Qed.

(** X10: a region is a run of at least two lines of the file, from its start
    line on. *)
Theorem region_lines (txt : text) (r : region) :
  In r (regions txt) ->
  r_content r
  = firstn (length (r_content r)) (skipn (r_start r) (split_lines txt))
  /\ 2 <= length (r_content r)
  /\ r_end r <= line_count txt.
Proof.
  intro H. apply regions_captured in H as [k [st [Hk [Hc [Hb ->]]]]].
  destruct (@captured_slice _ _ _ Hk Hc Hb) as [H1 [H2 H3]].
  unfold r_end, region_of, line_count. simpl.
  split; [exact H1|]. split; [exact H2|]. lia.
Qed.

(** X11: a region ends at the first line at which its braces balance: over its
    lines the masked opening and closing braces are equal in number, and
    over no shorter run from its start line. *)
Theorem region_balanced (txt : text) (r : region) :
  In r (regions txt) ->
  net_braces (r_content r) = 0%Z
  /\ forall n, 0 < n < length (r_content r) ->
               net_braces (firstn n (r_content r)) <> 0%Z.
Proof.
  intro H. apply regions_captured in H
    as [k [st [Hk [[H1 [H2 [H3 [H4 _]]]] [Hb ->]]]]].
  unfold region_of. simpl. split; [congruence|exact H4].
Qed.

Lemma regions_from_disjoint lines : forall done st,
  (in_function st = true -> captured done st /\ brace_balance st <> 0%Z) ->
  StronglySorted (fun r1 r2 => r_end r1 <= r_start r2)
                 (regions_from (length done) lines st).
Proof.
  induction lines as [|l ls IH]; intros done st Hinv; simpl; [constructor|].
  assert (StronglySorted (fun r1 r2 => r_end r1 <= r_start r2)
            (regions_from (S (length done)) ls (step (length done) l st)))
    as Hrest.
  { replace (S (length done)) with (length (done ++ [l]))
      by (rewrite length_app; simpl; lia).
    apply IH. intro Hs. apply step_open; assumption. }
  unfold completes.
  destruct (in_function (enter (length done) l st)) eqn:He; simpl;
    [|exact Hrest].
  destruct (in_function (step (length done) l st)) eqn:Hs; simpl;
    [exact Hrest|].
  constructor; [exact Hrest|].
  apply Forall_forall. intros r Hr.
  destruct (@step_captured done l st Hinv He) as [H1 [H2 _]].
  unfold r_end, region_of. simpl.
  rewrite H2, length_skipn. rewrite length_app in *. simpl in *.
  destruct (@regions_from_start _ _ _ _ Hr) as [[H3 _]|[H3 _]];
    [congruence|lia].
Qed.

(** X12: regions do not overlap: each starts after the last line of the one
    before, so a function inside a region is no region of its own. *)
Theorem regions_disjoint (txt : text) :
  StronglySorted (fun r1 r2 => r_end r1 <= r_start r2) (regions txt).
Proof.
  apply (@regions_from_disjoint (split_lines txt) [] init_fstate).
  discriminate.
Qed.

(** *** The name of a region *)

Lemma span_forallb p (line : text) j : forall d i,
  span p line i j -> d = j - i ->
  forallb p (firstn d (skipn i line)) = true.
Proof.
  induction d as [|d IH]; intros i [Hle Hs] Hd; [reflexivity|].
  destruct (Hs i ltac:(lia)) as [ch [Hn Hp]].
  rewrite (skipn_nth_cons _ _ Hn). cbn [firstn forallb]. rewrite Hp.
  cbn [andb]. apply IH; [|lia]. split; [lia|]. intros x Hx. apply Hs. lia.
Qed.

(** The name the pattern captures is a word of at least one character. *)
Lemma func_def_name s m :
  re_search func_def_pattern s = Some m ->
  exists name,
    group 3 m = Some name /\ name <> [] /\ forallb is_word name = true.
Proof.
  intro Hm. apply re_search_anchored in Hm.
  apply match_here_sound in Hm as [e [M Hg]].
  unfold func_def_pattern in M. cbn [seqs] in M.
  assert (inside s (start_state s)) as Hin0
    by (split; [reflexivity|simpl; lia]).
  apply matches_seq_inv in M as [s0 [M0 M]].
  inversion M0; subst. clear M0.
  apply matches_seq_inv in M as [s1 [M1 M]].
  destruct (matches_inside M1 Hin0) as [Hin1 _].
  apply matches_seq_inv in M as [s2 [M2 M]].
  destruct (matches_inside M2 Hin1) as [Hin2 _].
  apply matches_seq_inv in M as [s3 [M3 M]].
  apply matches_group_inv in M3 as [s3' [M3 ->]].
  destruct (matches_plus_chr M3 Hin2) as [Hin3 [_ [Hlt Hs]]].
  pose proof (matches_groups 3 M eq_refl) as H3. simpl in H3.
  exists (firstn (pos s3' - pos s2) (rest s2)).
  split; [unfold group; rewrite Hg; exact H3|].
  destruct Hin2 as [Hr2 Hl2]. destruct Hin3 as [_ Hl3]. rewrite Hr2.
  split.
  - intro Hnil. apply (f_equal (@length ascii)) in Hnil.
    rewrite length_firstn, length_skipn in Hnil. simpl in Hnil. lia.
  - apply (span_forallb Hs). reflexivity.
Qed.

Lemma nth_error_firstn_some (A : Type) (l : list A) : forall k n a,
  nth_error (firstn k l) n = Some a -> nth_error l n = Some a.
Proof.
  induction l as [|x l IH]; intros [|k] [|n] a H; simpl in H;
    try discriminate; simpl; eauto.
Qed.

(** X13: a region is named by the pattern on its first line: that line opens
    more braces than it closes and matches, and the name is the word
    captured, never a control keyword. *)
Theorem region_name (txt : text) (r : region) :
  In r (regions txt) ->
  exists name first m,
    r_name r = Some name
    /\ name <> [] /\ forallb is_word name = true
    /\ ~ In name control_keywords
    /\ nth_error (split_lines txt) (r_start r) = Some first
    /\ close_count first < open_count first
    /\ re_search func_def_pattern (mask_strings first) = Some m
    /\ group 3 m = Some name.
Proof.
  intro H. apply regions_captured in H
    as [k [st [Hk [[H1 [H2 [H3 [_ [H4 [first [m [H5 [H6 [H7 H8]]]]]]]]]]
                     [Hb ->]]]]].
  destruct (func_def_name _ H7) as [name [Hn [Hne Hw]]].
  exists name, first, m. unfold region_of. simpl.
  assert (func_name st = Some name) as Hname by congruence.
  split; [exact Hname|]. split; [exact Hne|]. split; [exact Hw|].
  split.
  { intro Hin. apply in_keywords_keyword in Hin. congruence. }
  split; [eapply nth_error_firstn_some; exact H5|].
  split; [exact H6|]. split; [exact H7|exact Hn].
Qed.

(** *** The lines of a region, counted *)

Lemma split_lines_one l : count_char newline l = 0 -> split_lines l = [l].
Proof.
  induction l as [|c l IH]; intro H; [reflexivity|].
  rewrite count_char_cons in H. simpl.
  destruct (Ascii.eqb c newline) eqn:E.
  - rewrite Ascii.eqb_sym in E. rewrite E in H. discriminate.
  - rewrite Ascii.eqb_sym in E. rewrite E in H. rewrite IH by exact H.
    reflexivity.
Qed.

Lemma split_lines_join ls :
  ls <> [] -> Forall (fun l => count_char newline l = 0) ls ->
  split_lines (join_lines ls) = ls.
Proof.
  induction ls as [|l ls IH]; intros Hne Hall; [congruence|].
  inversion Hall as [|? ? Hl Hls]; subst.
  destruct ls as [|l' ls].
  - simpl. apply split_lines_one. exact Hl.
  - change (join_lines (l :: l' :: ls))
      with (l ++ newline :: join_lines (l' :: ls)).
    rewrite split_lines_app, split_lines_one by exact Hl.
    rewrite IH by (congruence || exact Hls). reflexivity.
Qed.

Lemma split_lines_no_newline s :
  Forall (fun l => count_char newline l = 0) (split_lines s).
Proof.
  induction s as [|c s IH]; simpl; [repeat constructor|].
  destruct (Ascii.eqb c newline) eqn:E.
  - constructor; [reflexivity|exact IH].
  - destruct (split_lines s) as [|l ls]; [repeat constructor|].
    + rewrite count_char_cons, Ascii.eqb_sym, E. reflexivity.
    + inversion IH; subst. constructor; [|assumption].
      rewrite count_char_cons, Ascii.eqb_sym, E. assumption.
Qed.

Lemma in_firstn (A : Type) (x : A) l : forall n, In x (firstn n l) -> In x l.
Proof.
  induction l as [|a l IH]; intros [|n] H; simpl in H; try contradiction.
  destruct H as [<-|H]; [left; reflexivity|right; eauto].
Qed.

Lemma in_skipn (A : Type) (x : A) l : forall n, In x (skipn n l) -> In x l.
Proof.
  induction l as [|a l IH]; intros [|n] H; simpl in H; try contradiction;
    [exact H|right; eauto].
Qed.

(** X14: the LOC of a region is the count [count_file_loc] gives for its text,
    and never more than the count of the file. *)
Theorem region_loc_text (txt : text) (r : region) :
  In r (regions txt) ->
  region_loc r = count_file_loc (join_lines (r_content r))
  /\ region_loc r <= count_file_loc txt.
Proof.
  intro H. apply regions_captured in H as [k [st [Hk [Hcap [Hb Hr]]]]].
  pose proof (@captured_slice _ _ _ Hk Hcap Hb) as Hs.
  replace (func_content st) with (r_content r) in Hs
    by (rewrite Hr; reflexivity).
  replace (func_start_line st) with (r_start r) in Hs
    by (rewrite Hr; reflexivity).
  destruct Hs as [Hc [H2 _]].
  unfold region_loc. rewrite content_loc_filter, !count_file_loc_filter.
  assert (incl (r_content r) (split_lines txt)) as Hincl.
  { rewrite Hc. intros x Hx. apply in_firstn in Hx.
    apply in_skipn in Hx. exact Hx. }
  split.
  - rewrite split_lines_join; [reflexivity| |].
    + intro H0. rewrite H0 in H2. simpl in H2. lia.
    + apply Forall_forall. intros x Hx.
      pose proof (split_lines_no_newline txt) as Hall.
      rewrite Forall_forall in Hall. apply Hall, Hincl, Hx.
  - assert (split_lines txt
            = firstn (r_start r) (split_lines txt)
              ++ r_content r
              ++ skipn (length (r_content r))
                       (skipn (r_start r) (split_lines txt))) as Hcut.
    { rewrite Hc at 1. rewrite !firstn_skipn. reflexivity. }
    rewrite Hcut at 1. rewrite !filter_app, !length_app. lia.
Qed.

(** ** What masking does to a line *)

Lemma mask1_count q (Hq : Ascii.eqb q backslash = false) c :
  Ascii.eqb c q = false ->
  forall s, count_char c (mask1 q s) <= count_char c s.
Proof.
  intros Hc s. induction s as [|a s E IH|s n E IH] using (mask1_ind q).
  - rewrite (@mask1_nil q Hq). lia.
  - rewrite (@mask1_plain q Hq _ _ E), !count_char_cons. lia.
  - rewrite (@mask1_token q Hq _ _ E), count_char_app.
    rewrite (count_char_firstn_skipn c n s).
    unfold count_char at 1. simpl. rewrite Hc. simpl. lia.
Qed.

Lemma mask1_no_quote q (Hq : Ascii.eqb q backslash = false) s :
  count_char q s = 0 -> mask1 q s = s.
Proof.
  induction s as [|a s IH]; intro H; [apply (@mask1_nil q Hq)|].
  rewrite count_char_cons in H.
  destruct (Ascii.eqb q a) eqn:E; [discriminate|].
  rewrite (@mask1_plain q Hq).
  - rewrite IH by exact H. reflexivity.
  - simpl. rewrite Ascii.eqb_sym, E. reflexivity.
Qed.

Lemma mask_strings_count c line :
  Ascii.eqb c squote = false -> Ascii.eqb c dquote = false ->
  count_char c (mask_strings line) <= count_char c line.
Proof.
  intros H1 H2. rewrite mask_strings_mask1.
  pose proof (@mask1_count dquote eq_refl c H2 (mask1 squote line)).
  pose proof (@mask1_count squote eq_refl c H1 line). lia.
Qed.

(** X16: masking takes characters of literals away and adds none but quotes:
    the braces counted on a line are never more than the braces on it, and
    a line without a quote is counted as it stands. *)
Theorem mask_strings_braces (line : text) :
  open_count line <= count_char "{"%char line
  /\ close_count line <= count_char "}"%char line
  /\ (count_char squote line = 0 -> count_char dquote line = 0 ->
      mask_strings line = line).
Proof.
  split; [apply mask_strings_count; reflexivity|].
  split; [apply mask_strings_count; reflexivity|].
  intros H1 H2. rewrite mask_strings_mask1.
  rewrite (@mask1_no_quote squote eq_refl line H1).
  apply (@mask1_no_quote dquote eq_refl line H2).
Qed.

Lemma count_char_line c txt : forall line,
  In line (split_lines txt) -> count_char c line <= count_char c txt.
Proof.
  induction txt as [|a t IH]; intros line Hin; simpl in Hin.
  - destruct Hin as [<-|[]]. lia.
  - rewrite count_char_cons. destruct (Ascii.eqb a newline).
    + destruct Hin as [<-|Hin].
      * unfold count_char. simpl. lia.
      * specialize (IH _ Hin). lia.
    + destruct (split_lines t) as [|l ls] eqn:E.
      * destruct Hin as [<-|[]]. rewrite count_char_cons.
        unfold count_char at 1. simpl. lia.
      * destruct Hin as [<-|Hin].
        -- rewrite count_char_cons.
           specialize (IH l (or_introl eq_refl)). lia.
        -- specialize (IH line (or_intror Hin)). lia.
Qed.

(** X17: a file without an opening brace has no function: whatever its lines
    look like, the only violation it can have is the one of the file. *)
Theorem no_brace_no_function (filepath content : text) :
  count_char "{"%char content = 0 ->
  regions (remove_comments content) = []
  /\ file_violations filepath content
     = if MAX_FILE_LOC <? count_file_loc (remove_comments content)
       then [file_loc_message (count_file_loc (remove_comments content))]
       else [].
Proof.
  intro H.
  assert (count_char "{"%char (remove_comments content) = 0) as H0.
  { pose proof (@rc_count_le "{"%char content eq_refl). lia. }
  assert (forall line m,
             In line (split_lines (remove_comments content)) ->
             close_count line < open_count line ->
             re_search func_def_pattern (mask_strings line) = Some m ->
             in_keywords (group 3 m) = true) as Hk.
  { intros line m Hin Hlt _. exfalso.
    pose proof (@count_char_line "{"%char _ _ Hin) as H1.
    pose proof (@mask_strings_count "{"%char line eq_refl eq_refl) as H2.
    unfold open_count in Hlt. lia. }
  destruct (@run_no_function (split_lines (remove_comments content)) 0
              init_fstate eq_refl Hk) as [Hr Hg].
  split; [exact Hg|].
  unfold file_violations, analyze_functions, final_state. rewrite Hr.
  simpl violations. rewrite app_nil_r. destruct (_ <? _); reflexivity.
Qed.

(** ** The score, line by line *)

Lemma match_here_lit w b s p :
  match_here (lit w) (MState b s p [])
  = option_map (fun n => ReMatch (firstn n s) []) (lit_len w s).
Proof.
  unfold match_here, lit_len. rewrite rmatch_lit. simpl rest.
  destruct (starts_with w s) eqn:E; [|reflexivity].
  destruct (starts_with_firstn _ _ E) as [Hf Hl].
  rewrite forward_pos, forward_groups by (simpl; exact Hl).
  simpl. replace (p + length w - p) with (length w) by lia. reflexivity.
Qed.

Lemma lit_len_bound w s n :
  w <> [] -> lit_len w s = Some n -> 1 <= n <= length s.
Proof.
  unfold lit_len. intros Hw H.
  destruct (starts_with w s) eqn:E; [|discriminate]. injection H as <-.
  apply starts_with_firstn in E as [_ Hl].
  destruct w; [congruence|]. simpl in *. lia.
Qed.

Lemma starts_with_newline w b :
  count_char newline w = 0 ->
  forall s, starts_with w (s ++ newline :: b) = starts_with w s.
Proof.
  induction w as [|a w IH]; intros Hw s; [reflexivity|].
  rewrite count_char_cons in Hw.
  destruct (Ascii.eqb newline a) eqn:E; [discriminate|].
  destruct s as [|c s]; simpl.
  - rewrite Ascii.eqb_sym, E. reflexivity.
  - rewrite IH by exact Hw. reflexivity.
Qed.

Lemma lit_ind w (Hw : w <> []) (P : text -> Prop) :
  P [] ->
  (forall c s, lit_len w (c :: s) = None -> P s -> P (c :: s)) ->
  (forall s n, lit_len w s = Some n -> P (skipn n s) -> P s) ->
  forall s, P s.
Proof.
  exact (@token_ind (lit_len w) (fun s n => @lit_len_bound w s n Hw) P).
Qed.

(** No operator holds a newline, so none is found across two lines. *)
Lemma findall_lit_newline w b :
  w <> [] -> count_char newline w = 0 ->
  forall a,
    findall_count (lit w) (a ++ newline :: b)
    = findall_count (lit w) a + findall_count (lit w) b.
Proof.
  intros Hw Hn.
  pose proof (match_here_lit w) as Hm.
  pose proof (fun s n => @lit_len_bound w s n Hw) as Hb.
  unfold findall_count.
  apply (@lit_ind w Hw); [|intros c s E IH|intros s n E IH].
  - rewrite (@segments_nil _ _ Hm Hb). simpl app.
    rewrite (@segments_plain _ _ Hm newline b); [reflexivity|].
    unfold lit_len.
    change (newline :: b) with ([] ++ newline :: b).
    rewrite (@starts_with_newline w b Hn []). destruct w; [congruence|].
    reflexivity.
  - simpl app. rewrite (@segments_plain _ _ Hm c s E).
    rewrite (@segments_plain _ _ Hm c (s ++ newline :: b)).
    + simpl. exact IH.
    + unfold lit_len in *.
      change (c :: s ++ newline :: b) with ((c :: s) ++ newline :: b).
      rewrite (@starts_with_newline w b Hn (c :: s)). exact E.
  - pose proof (Hb _ _ E) as B.
    rewrite (@segments_token _ _ Hm Hb s n E).
    rewrite (@segments_token _ _ Hm Hb (s ++ newline :: b) n).
    + simpl. rewrite skipn_app.
      replace (n - length s) with 0 by lia. simpl skipn at 2.
      rewrite IH. reflexivity.
    + unfold lit_len in *. rewrite (@starts_with_newline w b Hn s). exact E.
Qed.

Lemma head_word_newline s b : head_word (s ++ newline :: b) = head_word s.
Proof. destruct s; reflexivity. Qed.

Lemma word_at_newline w bf b s :
  count_char newline w = 0 ->
  word_at w bf (s ++ newline :: b) = word_at w bf s.
Proof.
  intro Hn. unfold word_at.
  rewrite head_word_newline, (@starts_with_newline w b Hn s).
  destruct (starts_with w s) eqn:E; [|rewrite !andb_false_r; reflexivity].
  apply starts_with_firstn in E as [_ Hl].
  rewrite skipn_app. replace (length w - length s) with 0 by lia.
  simpl skipn at 2. rewrite head_word_newline. reflexivity.
Qed.

Lemma wcount_after_newline w s :
  w <> [] -> wcount w (Some newline) s 0 = wcount w None s 0.
Proof.
  intro Hw. destruct w as [|a w]; [congruence|].
  assert (last_opt (a :: w) (Some newline) = last_opt (a :: w) None) as Hl.
  { unfold last_opt. simpl rev. destruct (rev w); reflexivity. }
  assert (word_at (a :: w) (Some newline) s = word_at (a :: w) None s) as Ha.
  { unfold word_at. rewrite Hl. reflexivity. }
  destruct s; cbn [wcount]; rewrite Ha; reflexivity.
Qed.

(** No keyword holds a newline, so none is found across two lines, and the
    newline bounds a word as the ends of the text do. *)
Lemma wcount_newline w b :
  w <> [] -> count_char newline w = 0 ->
  forall s skip bf,
    skip <= length s ->
    wcount w bf (s ++ newline :: b) skip
    = wcount w bf s skip + wcount w None b 0.
Proof.
  intros Hw Hn. induction s as [|c t IH]; intros skip bf Hs.
  - simpl in Hs. replace skip with 0 by lia. simpl app.
    cbn [wcount].
    change (word_at w bf (newline :: b))
      with (word_at w bf ([] ++ newline :: b)).
    rewrite (@word_at_newline w bf b [] Hn).
    assert (word_at w bf [] = false) as ->.
    { unfold word_at. destruct w; [congruence|]. simpl.
      rewrite andb_false_r. reflexivity. }
    apply wcount_after_newline. exact Hw.
  - simpl in Hs. destruct skip as [|n].
    + simpl app. cbn [wcount].
      change (word_at w bf (c :: t ++ newline :: b))
        with (word_at w bf ((c :: t) ++ newline :: b)).
      rewrite (@word_at_newline w bf b (c :: t) Hn).
      destruct (word_at w bf (c :: t)) eqn:E.
      * rewrite IH; [reflexivity|].
        unfold word_at in E. apply andb_prop in E as [E _].
        apply andb_prop in E as [_ E].
        apply starts_with_firstn in E as [_ Hl]. simpl in Hl. lia.
      * apply IH. lia.
    + simpl app. cbn [wcount]. apply IH. lia.
Qed.

Lemma findall_word_newline w a b :
  w <> [] -> count_char newline w = 0 ->
  findall_count (word_pattern w) (a ++ newline :: b)
  = findall_count (word_pattern w) a + findall_count (word_pattern w) b.
Proof.
  intros Hw Hn. rewrite !findall_count_word.
  apply wcount_newline; [exact Hw|exact Hn|lia].
Qed.

Lemma findall_sum_newline (a b : text) :
  list_sum (map (fun r => findall_count r (a ++ newline :: b))
                (keywords ++ operators))
  = list_sum (map (fun r => findall_count r a) (keywords ++ operators))
    + list_sum (map (fun r => findall_count r b) (keywords ++ operators)).
Proof.
  unfold keywords, operators. cbn [app map].
  rewrite !findall_word_newline by (discriminate || reflexivity).
  rewrite !findall_lit_newline by (discriminate || reflexivity).
  cbn [list_sum fold_right]. lia.
Qed.

(** X18: the score is counted line by line: no keyword and no operator
    reaches over a newline, so the score of two texts joined by a newline
    is the sum of their scores, the base counted once. *)
Theorem calculate_complexity_newline (a b : text) :
  calculate_complexity (a ++ newline :: b) + 1
  = calculate_complexity a + calculate_complexity b.
Proof.
  rewrite !calculate_complexity_sum, findall_sum_newline. lia.
Qed.

(** X19: the complexity of a region is the base score and what each of its
    lines adds to it. *)
Theorem region_complexity_lines (r : region) :
  region_complexity r
  = 1 + list_sum (map (fun line => calculate_complexity line - 1)
                      (r_content r)).
Proof.
  unfold region_complexity.
  induction (r_content r) as [|l ls IH]; [reflexivity|].
  destruct ls as [|l' ls].
  - cbn [join_lines map list_sum fold_right].
    pose proof (calculate_complexity_sum l). lia.
  - change (join_lines (l :: l' :: ls))
      with (l ++ newline :: join_lines (l' :: ls)).
    change (map (fun line => calculate_complexity line - 1) (l :: l' :: ls))
      with ((calculate_complexity l - 1)
            :: map (fun line => calculate_complexity line - 1) (l' :: ls)).
    rewrite list_sum_cons.
    assert (calculate_complexity (l ++ newline :: join_lines (l' :: ls)) + 1
            = calculate_complexity l
              + calculate_complexity (join_lines (l' :: ls))) as Hn
      by (rewrite !calculate_complexity_sum, findall_sum_newline; lia).
    pose proof (calculate_complexity_sum l). lia.
Qed.

(** ** Instances of the further properties *)

Lemma count_file_loc_bounds_witness :
  forallb is_space [space; newline; space] = true
  /\ count_file_loc [space; newline; space] = 0.
Proof.
  split; [reflexivity|].
  apply (count_file_loc_bounds [space; newline; space]). reflexivity.
Defined.

Lemma remove_comments_shrinks_witness :
  count_char "{"%char (remove_comments commented_text)
  <= count_char "{"%char commented_text.
Proof. apply (remove_comments_shrinks commented_text). reflexivity. Defined.

Lemma region_lines_witness :
  In one_region (regions unfinished_file)
  /\ r_content one_region
     = firstn (length (r_content one_region))
              (skipn (r_start one_region) (split_lines unfinished_file))
  /\ 2 <= length (r_content one_region)
  /\ r_end one_region <= line_count unfinished_file.
Proof.
  assert (In one_region (regions unfinished_file)) as H
    by (vm_compute; left; reflexivity).
  split; [exact H|]. apply (@region_lines unfinished_file one_region H).
Defined.

Lemma region_balanced_witness :
  In one_region (regions unfinished_file)
  /\ net_braces (r_content one_region) = 0%Z
  /\ forall n, 0 < n < length (r_content one_region) ->
               net_braces (firstn n (r_content one_region)) <> 0%Z.
Proof.
  assert (In one_region (regions unfinished_file)) as H
    by (vm_compute; left; reflexivity).
  split; [exact H|]. apply (@region_balanced unfinished_file one_region H).
Defined.

Lemma region_name_witness :
  In one_region (regions unfinished_file)
  /\ exists name first m,
       r_name one_region = Some name
       /\ name <> [] /\ forallb is_word name = true
       /\ ~ In name control_keywords
       /\ nth_error (split_lines unfinished_file) (r_start one_region)
          = Some first
       /\ close_count first < open_count first
       /\ re_search func_def_pattern (mask_strings first) = Some m
       /\ group 3 m = Some name.
Proof.
  assert (In one_region (regions unfinished_file)) as H
    by (vm_compute; left; reflexivity).
  split; [exact H|]. apply (@region_name unfinished_file one_region H).
Defined.

Lemma region_loc_text_witness :
  In one_region (regions unfinished_file)
  /\ region_loc one_region = count_file_loc (join_lines (r_content one_region))
  /\ region_loc one_region <= count_file_loc unfinished_file.
Proof.
  assert (In one_region (regions unfinished_file)) as H
    by (vm_compute; left; reflexivity).
  split; [exact H|]. apply (@region_loc_text unfinished_file one_region H).
Defined.

Lemma mask_strings_braces_witness :
  mask_strings (T "if (a) { b(); }") = T "if (a) { b(); }".
Proof. apply (mask_strings_braces (T "if (a) { b(); }")); reflexivity. Defined.

Lemma no_brace_no_function_witness :
  count_char "{"%char (statements 3) = 0
  /\ regions (remove_comments (statements 3)) = []
  /\ file_violations [] (statements 3)
     = if MAX_FILE_LOC <? count_file_loc (remove_comments (statements 3))
       then [file_loc_message
               (count_file_loc (remove_comments (statements 3)))]
       else [].
Proof.
  split; [reflexivity|].
  apply (@no_brace_no_function [] (statements 3)). reflexivity.
Defined.

(** ** Every declaration met outside a function is captured *)

Lemma run_app a : forall i b st,
  run i (a ++ b) st = run (i + length a) b (run i a st).
Proof.
  induction a as [|l a IH]; intros i b st; simpl.
  - rewrite Nat.add_0_r. reflexivity.
  - rewrite IH. f_equal. lia.
Qed.

Lemma regions_from_app a : forall i b st,
  regions_from i (a ++ b) st
  = regions_from i a st ++ regions_from (i + length a) b (run i a st).
Proof.
  induction a as [|l a IH]; intros i b st; simpl.
  - rewrite Nat.add_0_r. reflexivity.
  - rewrite IH, <- app_assoc. do 3 f_equal. lia.
Qed.

(** A function being captured ends in a region, or is still being captured
    at the end. *)
Lemma pending_extracted lines : forall i st,
  in_function st = true ->
  (exists r, In r (regions_from i lines st)
             /\ r_start r = func_start_line st
             /\ r_name r = func_name st)
  \/ (in_function (run i lines st) = true
      /\ func_start_line (run i lines st) = func_start_line st
      /\ func_name (run i lines st) = func_name st).
Proof.
  induction lines as [|l ls IH]; intros i st Hst; [right; auto|].
  simpl. unfold completes, step.
  rewrite (enter_inside i l st Hst), Hst.
  destruct (consume_fields l st Hst) as [Hs [Hn _]].
  destruct (in_function (consume l st)) eqn:Ec.
  - simpl. destruct (IH (S i) _ Ec) as [[r [Hr [H1 H2]]]|[H1 [H2 H3]]].
    + left. exists r. split; [exact Hr|]. split; congruence.
    + right. split; [exact H1|]. split; congruence.
  - left. exists (region_of (consume l st)).
    split; [left; reflexivity|]. split; assumption.
Qed.

Lemma enter_shaped i line st m :
  in_function st = false ->
  close_count line < open_count line ->
  re_search func_def_pattern (mask_strings line) = Some m ->
  in_keywords (group 3 m) = false ->
  enter i line st = FState 0 true i [] (group 3 m) (violations st).
Proof.
  intros Hst Hlt Hm Hk. unfold enter. rewrite Hst. simpl negb. cbv iota.
  fold (open_count line). fold (close_count line).
  apply Nat.ltb_lt in Hlt. rewrite Hlt, Hm. cbv zeta. rewrite Hk.
  reflexivity.
Qed.

(** X15: a line met outside a function that opens more braces than it closes
    and matches the pattern with a name that is no control keyword starts
    a function of that name: it is the first line of a region, or of the
    function the loop is still inside of at the end. *)
Theorem declaration_captured (txt : text) (i : nat) (line : text)
        (m : rematch) :
  nth_error (split_lines txt) i = Some line ->
  in_function (state_before txt i) = false ->
  close_count line < open_count line ->
  re_search func_def_pattern (mask_strings line) = Some m ->
  in_keywords (group 3 m) = false ->
  (exists r, In r (regions txt) /\ r_start r = i /\ r_name r = group 3 m)
  \/ (in_function (final_state txt) = true
      /\ func_start_line (final_state txt) = i
      /\ func_name (final_state txt) = group 3 m).
Proof.
  intros Hn Hst Hlt Hm Hk. unfold state_before in Hst.
  pose proof (skipn_nth_cons _ _ Hn) as Hcut.
  assert (length (firstn i (split_lines txt)) = i) as Hlen.
  { rewrite length_firstn. apply Nat.min_l.
    assert (nth_error (split_lines txt) i <> None) as H by congruence.
    apply nth_error_Some in H. lia. }
  unfold regions, final_state.
  rewrite <- (firstn_skipn i (split_lines txt)), Hcut.
  rewrite run_app, regions_from_app, Hlen. simpl Nat.add.
  set (st := run 0 (firstn i (split_lines txt)) init_fstate) in *.
  cbn [run regions_from].
  pose proof (@enter_shaped i line st m Hst Hlt Hm Hk) as He.
  assert (in_function (enter i line st) = true) as Hin
    by (rewrite He; reflexivity).
  destruct (consume_fields line _ Hin) as [Hs [Hname _]].
  fold (step i line st) in Hs, Hname. rewrite He in Hs, Hname.
  cbn [func_start_line func_name] in Hs, Hname.
  unfold completes. rewrite Hin.
  destruct (in_function (step i line st)) eqn:Ec.
  - simpl.
    destruct (@pending_extracted
                (skipn (S i) (split_lines txt)) (S i) (step i line st) Ec)
      as [[r [Hr [H1 H2]]]|[H1 [H2 H3]]].
    + left. exists r. split; [apply in_or_app; right; exact Hr|].
      split; congruence.
    + right. split; [exact H1|].
      split; [exact (eq_trans H2 Hs)|exact (eq_trans H3 Hname)].
  - left. exists (region_of (step i line st)).
    split; [apply in_or_app; right; left; reflexivity|].
    split; assumption.
Qed.

Lemma declaration_captured_witness :
  nth_error (split_lines unfinished_file) 3 = Some (T "void open() {")
  /\ in_function (final_state unfinished_file) = true
  /\ func_start_line (final_state unfinished_file) = 3
  /\ func_name (final_state unfinished_file) = Some (T "open").
Proof.
  split; [reflexivity|].
  destruct (@declaration_captured unfinished_file 3 (T "void open() {")
              (ReMatch (T "void open() {")
                       [(3, T "open"); (1, T "void "); (2, T "void")]))
    as [[r [Hr [H1 H2]]]|H].
  - reflexivity.
  - vm_compute. reflexivity.
  - vm_compute. lia.
  - vm_compute. reflexivity.
  - reflexivity.
  - exfalso. vm_compute in Hr. destruct Hr as [<-|[]]. discriminate H1.
  - exact H.
Defined.

(** ** A function left open at the end of the file *)

(** A function whose braces never balance over the lines left is still
    being captured after them, and nothing is extracted on the way. *)
Lemma run_never_balanced lines : forall j st,
  in_function st = true ->
  (forall n, 0 < n <= length lines ->
             (brace_balance st + net_braces (firstn n lines))%Z <> 0%Z) ->
  in_function (run j lines st) = true
  /\ func_start_line (run j lines st) = func_start_line st
  /\ func_name (run j lines st) = func_name st
  /\ regions_from j lines st = [].
Proof.
  induction lines as [|l ls IH]; intros j st Hst Hn; [auto|].
  cbn [run regions_from]. unfold completes, step.
  rewrite (enter_inside j l st Hst), Hst.
  destruct (consume_fields l st Hst) as [Hs [Hname [_ [Hb Hz]]]].
  assert (in_function (consume l st) = true) as Hc.
  { apply not_false_is_true. intro E.
    apply Hz in E. rewrite Hb in E.
    apply (Hn 1); [simpl; lia|]. simpl. lia. }
  rewrite Hc. simpl andb. cbv iota. simpl app.
  destruct (IH (S j) (consume l st) Hc) as [H1 [H2 [H3 H4]]].
  { intros n Hlt Hz'. apply (Hn (S n)); [simpl; lia|].
    rewrite Hb in Hz'. simpl. lia. }
  split; [exact H1|]. split; [congruence|]. split; [congruence|exact H4].
Qed.

(** C7, as the code has it: when a declaration is met outside a function
    and the braces from its line on never come back to balance, the
    extractor runs through every line and is inside that function at the
    end, with a balance that is not zero; the unfinished function is not
    among the regions, which all start before it, and the violations are
    those of the regions alone. *)
Theorem unfinished_function_dropped (txt filename : text) (i : nat)
        (line : text) (m : rematch) :
  nth_error (split_lines txt) i = Some line ->
  in_function (state_before txt i) = false ->
  close_count line < open_count line ->
  re_search func_def_pattern (mask_strings line) = Some m ->
  in_keywords (group 3 m) = false ->
  (forall n, 0 < n -> i + n <= line_count txt ->
             net_braces (firstn n (skipn i (split_lines txt))) <> 0%Z) ->
  in_function (final_state txt) = true
  /\ func_start_line (final_state txt) = i
  /\ func_name (final_state txt) = group 3 m
  /\ brace_balance (final_state txt) <> 0%Z
  /\ (forall r, In r (regions txt) -> r_start r < i)
  /\ analyze_functions txt filename = flat_map region_violations (regions txt).
Proof.
  intros Hn Hst Hlt Hm Hk Hnz. unfold state_before in Hst.
  pose proof (skipn_nth_cons _ _ Hn) as Hcut.
  assert (i < length (split_lines txt)) as Hi.
  { assert (nth_error (split_lines txt) i <> None) as H by congruence.
    apply nth_error_Some in H. exact H. }
  assert (length (firstn i (split_lines txt)) = i) as Hlen
    by (rewrite length_firstn; lia).
  set (st := run 0 (firstn i (split_lines txt)) init_fstate) in *.
  set (e := enter i line st).
  assert (e = FState 0 true i [] (group 3 m) (violations st)) as He
    by (apply enter_shaped; assumption).
  assert (in_function e = true) as Hin by (rewrite He; reflexivity).
  assert (step i line st = step i line e) as Hstep
    by (unfold step; fold e; rewrite (enter_inside i line e Hin); reflexivity).
  assert (final_state txt = run i (line :: skipn (S i) (split_lines txt)) e)
    as Hfinal.
  { unfold final_state.
    rewrite <- (firstn_skipn i (split_lines txt)) at 1.
    rewrite Hcut, run_app, Hlen. simpl Nat.add. fold st.
    cbn [run]. rewrite Hstep. reflexivity. }
  destruct (@run_never_balanced
              (line :: skipn (S i) (split_lines txt)) i e Hin)
    as [H1 [H2 [H3 _]]].
  { intros n Hlt'. rewrite He. cbn [brace_balance]. rewrite <- Hcut.
    rewrite Z.add_0_l. apply Hnz; [lia|].
    unfold line_count. destruct Hlt' as [_ Hle].
    rewrite <- Hcut, length_skipn in Hle. lia. }
  rewrite <- Hfinal in H1, H2, H3.
  assert (func_start_line (final_state txt) = i) as Hstart
    by (rewrite H2, He; reflexivity).
  split; [exact H1|]. split; [exact Hstart|].
  split; [rewrite H3, He; reflexivity|].
  destruct (@ends_inside_dropped txt filename H1) as [Hb [Hr Hv]].
  split; [exact Hb|]. split; [|exact Hv].
  intros r Hin'. rewrite <- Hstart. apply Hr. exact Hin'.
Qed.

Lemma unfinished_function_dropped_witness :
  nth_error (split_lines unfinished_file) 3 = Some (T "void open() {")
  /\ in_function (final_state unfinished_file) = true
  /\ func_start_line (final_state unfinished_file) = 3
  /\ func_name (final_state unfinished_file) = Some (T "open")
  /\ brace_balance (final_state unfinished_file) <> 0%Z
  /\ (forall r, In r (regions unfinished_file) -> r_start r < 3)
  /\ analyze_functions unfinished_file []
     = flat_map region_violations (regions unfinished_file).
Proof.
  split; [reflexivity|].
  apply (@unfinished_function_dropped unfinished_file [] 3
           (T "void open() {")
           (ReMatch (T "void open() {")
                    [(3, T "open"); (1, T "void "); (2, T "void")])).
  - reflexivity.
  - vm_compute. reflexivity.
  - vm_compute. lia.
  - vm_compute. reflexivity.
  - reflexivity.
  - intros n Hn Hle. vm_compute in Hle.
    destruct n as [|[|[|[|[|n]]]]]; try lia; vm_compute; discriminate.
Defined.
